(** * pelagia: a folder of Markdown files merged into one linked document

    A shallow embedding of [pelagia.py]: slug assignment, heading anchors,
    cross-document link rewriting and Mermaid block normalisation, followed
    by the properties of the specification that concern them.

    Conventions of the model.
    - A Python [str] is a [list ascii]; a character is a code point below
      256 (ASCII and Latin-1).  Character classes, [str.lower], [str.strip]
      and [str.splitlines] follow CPython on that range.
    - A regular expression is a value of [regex], run by a backtracking
      matcher ([exec]) with Python's priorities: greedy or lazy quantifiers,
      ordered alternation, numbered groups.  [re_sub] is [re.sub].
    - An exception is a value [Raise e] of the result type [res];
      [try_except] is a [try]/[except] that absorbs it.
    - The file system is read through [pathlib] on a POSIX host without
      symbolic links under the corpus: [Path.resolve] is lexical.  The
      folder, the files and the directory of the diagrams are absolute
      paths, as [main] passes them, and an absolute path is the list of its
      components.
    - The external renderer [mmdc] is an oracle.  In [render_mermaid_blocks]
      it tells whether a call returns or raises [CalledProcessError]; in
      [Calls.render_mermaid_blocks] it may also raise the exceptions the
      program does not catch, and the two agree on the calls that raise
      none.  The width and the height come already scaled.  The scan of
      the folder is read through two oracles, [rglob] for the paths under a
      folder and [is_file] for the regular files; the command line and the
      call of [pandoc] are left out. *)

From Stdlib Require Import ZArith Ascii String DecimalString.
From Stdlib Require DecimalNat.
From stdpp Require Import base list gmap strings.

Local Open Scope nat_scope.
Local Open Scope list_scope.

(** ** Python strings *)

(** A string literal of the source, as a list of characters. *)
Definition py (s : string) : list ascii := list_ascii_of_string s.

Definition code (c : ascii) : nat := nat_of_ascii c.

Definition in_range (lo hi : nat) (c : ascii) : bool :=
  (lo <=? code c) && (code c <=? hi).

Definition chr_eqb (a b : ascii) : bool := Ascii.eqb a b.

(** [str.isspace] and the class [\s] of [re] on a [str] pattern. *)
Definition is_space (c : ascii) : bool :=
  in_range 9 13 c || in_range 28 32 c || (code c =? 133) || (code c =? 160).

Definition is_digit (c : ascii) : bool := in_range 48 57 c.
Definition is_upper_az (c : ascii) : bool := in_range 65 90 c.
Definition is_lower_az (c : ascii) : bool := in_range 97 122 c.

(** The class [\w] of [re] on a [str] pattern: alphanumeric or underscore. *)
Definition is_word (c : ascii) : bool :=
  is_digit c || is_upper_az c || is_lower_az c || (code c =? 95)
  || (code c =? 170) || (code c =? 178) || (code c =? 179) || (code c =? 181)
  || (code c =? 185) || (code c =? 186) || in_range 188 190 c
  || in_range 192 214 c || in_range 216 246 c || in_range 248 255 c.

(** [str.lower] on one character. *)
Definition lower_char (c : ascii) : ascii :=
  if is_upper_az c || in_range 192 214 c || in_range 216 222 c
  then ascii_of_nat (code c + 32) else c.

Definition lower (s : list ascii) : list ascii := map lower_char s.

(** Line boundaries of [str.splitlines]. *)
Definition is_linebreak (c : ascii) : bool :=
  in_range 10 13 c || in_range 28 30 c || (code c =? 133).

Fixpoint lstrip_by (p : ascii -> bool) (s : list ascii) : list ascii :=
  match s with
  | c :: s' => if p c then lstrip_by p s' else s
  | [] => []
  end.

Definition rstrip_by (p : ascii -> bool) (s : list ascii) : list ascii :=
  rev (lstrip_by p (rev s)).

Definition strip_by (p : ascii -> bool) (s : list ascii) : list ascii :=
  rstrip_by p (lstrip_by p s).

(** [s.strip()] *)
Definition strip (s : list ascii) : list ascii := strip_by is_space s.

Fixpoint str_eqb (a b : list ascii) : bool :=
  match a, b with
  | [], [] => true
  | x :: a', y :: b' => chr_eqb x y && str_eqb a' b'
  | _, _ => false
  end.

(** [s.startswith(p)] *)
Fixpoint startswith (s p : list ascii) : bool :=
  match p, s with
  | [], _ => true
  | x :: p', c :: s' => chr_eqb x c && startswith s' p'
  | _ :: _, [] => false
  end.

(** [s.endswith(p)] *)
Definition endswith (s p : list ascii) : bool := startswith (rev s) (rev p).

(** [p in s] for a substring [p]. *)
Fixpoint contains (s p : list ascii) : bool :=
  startswith s p || match s with
                    | _ :: s' => contains s' p
                    | [] => false
                    end.

(** [c in s] for a single character. *)
Definition has_char (c : ascii) (s : list ascii) : bool := existsb (chr_eqb c) s.

(** [s.replace(a, b)] for single characters [a] and [b]. *)
Definition replace_char (a b : ascii) (s : list ascii) : list ascii :=
  map (fun c => if chr_eqb c a then b else c) s.

(** [sep.join(xs)] *)
Fixpoint join (sep : list ascii) (xs : list (list ascii)) : list ascii :=
  match xs with
  | [] => []
  | [x] => x
  | x :: xs' => x ++ sep ++ join sep xs'
  end.

(** [s.split(sep)] for a single character [sep]: always at least one field. *)
Fixpoint split_char (sep : ascii) (s : list ascii) : list (list ascii) :=
  match s with
  | [] => [[]]
  | c :: s' =>
      if chr_eqb c sep then [] :: split_char sep s'
      else match split_char sep s' with
           | f :: fs => (c :: f) :: fs
           | [] => [[c]]
           end
  end.

(** [s.splitlines()]: the text is cut at every line boundary, [\r\n] counts
    as one, and no empty last line is produced by a final boundary.  [cur]
    is the line being read, in reverse. *)
Fixpoint splitlines_from (cur : list ascii) (s : list ascii) : list (list ascii) :=
  match s with
  | [] => match cur with [] => [] | _ => [rev cur] end
  | c :: s' =>
      if is_linebreak c then
        match s' with
        | d :: s'' =>
            if (code c =? 13) && (code d =? 10)
            then rev cur :: splitlines_from [] s''
            else rev cur :: splitlines_from [] s'
        | [] => [rev cur]
        end
      else splitlines_from (c :: cur) s'
  end.

Definition splitlines (s : list ascii) : list (list ascii) := splitlines_from [] s.

(** [str(n)] for a non-negative [int]. *)
Definition str_of_nat (n : nat) : list ascii :=
  py (NilZero.string_of_uint (Nat.to_uint n)).

(** [str(z)] for an [int]. *)
Definition str_of_Z (z : Z) : list ascii :=
  py (NilZero.string_of_int (Z.to_int z)).

Definition nl : ascii := ascii_of_nat 10.
Definition dquote : ascii := ascii_of_nat 34.
Definition backslash : ascii := ascii_of_nat 92.

(** [chr(10).join(xs)], used for the texts of examples. *)
Definition unlines (xs : list (list ascii)) : list ascii := join [nl] xs.

(** ** Exceptions *)

Inductive exn : Type :=
| ValueError (msg : list ascii)
| KeyError (key : list ascii)
| OSError (msg : list ascii)
| SystemExit (status : Z) (stderr : list ascii).

Inductive res (A : Type) : Type :=
| Ok (a : A)
| Raise (e : exn).
Arguments Ok {A} a.
Arguments Raise {A} e.

Definition res_bind {A B : Type} (m : res A) (f : A -> res B) : res B :=
  match m with
  | Ok a => f a
  | Raise e => Raise e
  end.

Notation "'do' x <- m ; k" := (res_bind m (fun x => k))
  (at level 10, x name, m at level 100, k at level 200).

(** [try: m except E: handler], for the exceptions [catches] selects. *)
Definition try_except {A : Type} (catches : exn -> bool) (m : res A) (handler : res A) : res A :=
  match m with
  | Ok a => Ok a
  | Raise e => if catches e then handler else Raise e
  end.

(** [except Exception]: every exception but [SystemExit]. *)
Definition is_Exception (e : exn) : bool :=
  match e with
  | ValueError _ | KeyError _ | OSError _ => true
  | SystemExit _ _ => false
  end.

Definition is_ValueError (e : exn) : bool :=
  match e with
  | ValueError _ => true
  | KeyError _ | OSError _ | SystemExit _ _ => false
  end.

(** [die(msg)]: the message goes to the error stream and the interpreter
    exits with status 2. *)
Definition die {A : Type} (msg : list ascii) : res A :=
  Raise (SystemExit 2 (py "error: " ++ msg)).

(** ** Regular expressions *)

Inductive regex : Type :=
| Eps
| Cls (p : ascii -> bool)
| Cat (r1 r2 : regex)
| Alt (r1 r2 : regex)
| Rep (greedy : bool) (p : ascii -> bool) (lo : nat) (hi : option nat)
| Opt (r : regex)
| Grp (i : nat) (r : regex)
| Bol (multiline : bool)
| Eol
| WordB.

(** The state of a match attempt: the character before the position, the
    text from the position on, and the groups set so far (latest first). *)
Record mstate : Type := MState {
  ms_prev : option ascii;
  ms_rest : list ascii;
  ms_caps : list (nat * list ascii)
}.

Definition hi_allows (hi : option nat) : bool :=
  match hi with
  | None => true
  | Some h => 0 <? h
  end.

Definition hi_pred (hi : option nat) : option nat := Nat.pred <$> hi.

Definition rep_stop {R : Type} (lo : nat) (prev : option ascii) (s : list ascii)
    (k : option ascii -> list ascii -> option R) : option R :=
  match lo with
  | O => k prev s
  | S _ => None
  end.

(** A quantified class [p{lo,hi}] (greedy) or [p{lo,hi}?] (lazy), followed
    by the rest of the pattern [k]. *)
Fixpoint rep {R : Type} (greedy : bool) (p : ascii -> bool) (lo : nat) (hi : option nat)
    (prev : option ascii) (s : list ascii)
    (k : option ascii -> list ascii -> option R) : option R :=
  match s with
  | c :: s' =>
      if p c && hi_allows hi then
        if greedy then
          match rep greedy p (Nat.pred lo) (hi_pred hi) (Some c) s' k with
          | Some x => Some x
          | None => rep_stop lo prev s k
          end
        else
          match rep_stop lo prev s k with
          | Some x => Some x
          | None => rep greedy p (Nat.pred lo) (hi_pred hi) (Some c) s' k
          end
      else rep_stop lo prev s k
  | [] => rep_stop lo prev s k
  end.

Definition opt_word (o : option ascii) : bool :=
  match o with
  | Some c => is_word c
  | None => false
  end.

Definition at_bol (multiline : bool) (st : mstate) : bool :=
  match ms_prev st with
  | None => true
  | Some c => multiline && chr_eqb c nl
  end.

(** [$] without [re.MULTILINE]: the end of the text, or before a final newline. *)
Definition at_eol (st : mstate) : bool :=
  match ms_rest st with
  | [] => true
  | [c] => chr_eqb c nl
  | _ => false
  end.

Definition at_wordb (st : mstate) : bool :=
  xorb (opt_word (ms_prev st)) (opt_word (head (ms_rest st))).

(** The text read between two states of one attempt. *)
Definition consumed (st st' : mstate) : list ascii :=
  take (length (ms_rest st) - length (ms_rest st')) (ms_rest st).

Definition set_cap (i : nat) (st st' : mstate) : mstate :=
  MState (ms_prev st') (ms_rest st') ((i, consumed st st') :: ms_caps st').

Fixpoint exec (r : regex) (st : mstate) (k : mstate -> option mstate) : option mstate :=
  match r with
  | Eps => k st
  | Cls p =>
      match ms_rest st with
      | c :: s' => if p c then k (MState (Some c) s' (ms_caps st)) else None
      | [] => None
      end
  | Cat r1 r2 => exec r1 st (fun st' => exec r2 st' k)
  | Alt r1 r2 =>
      match exec r1 st k with
      | Some x => Some x
      | None => exec r2 st k
      end
  | Rep greedy p lo hi =>
      rep greedy p lo hi (ms_prev st) (ms_rest st)
        (fun prev s' => k (MState prev s' (ms_caps st)))
  | Opt r1 =>
      match exec r1 st k with
      | Some x => Some x
      | None => k st
      end
  | Grp i r1 => exec r1 st (fun st' => k (set_cap i st st'))
  | Bol multiline => if at_bol multiline st then k st else None
  | Eol => if at_eol st then k st else None
  | WordB => if at_wordb st then k st else None
  end.

(** A match object: [group(0)] and the numbered groups that took part. *)
Record rmatch : Type := RMatch {
  m_text : list ascii;
  m_caps : list (nat * list ascii)
}.

Fixpoint assoc (i : nat) (caps : list (nat * list ascii)) : option (list ascii) :=
  match caps with
  | [] => None
  | (j, s) :: caps' => if i =? j then Some s else assoc i caps'
  end.

(** [m.group(i)] for [i >= 1]: [None] when the group took no part. *)
Definition group (m : rmatch) (i : nat) : option (list ascii) := assoc i (m_caps m).

(** [m.group(i)] for a group that every match of the pattern sets. *)
Definition group_str (m : rmatch) (i : nat) : list ascii := default [] (group m i).

(** The match of [r] that starts exactly here, [prev] being the character
    before. *)
Definition match_at (r : regex) (prev : option ascii) (s : list ascii) : option rmatch :=
  match exec r (MState prev s []) Some with
  | Some st => Some (RMatch (take (length s - length (ms_rest st)) s) (ms_caps st))
  | None => None
  end.

(** [pattern.match(s)] *)
Definition re_match (r : regex) (s : list ascii) : option rmatch := match_at r None s.

(** [if pattern.match(s):] *)
Definition re_test (r : regex) (s : list ascii) : bool :=
  match re_match r s with
  | Some _ => true
  | None => false
  end.

(** [re.sub(r, repl, s)] with [repl] a function of the match, for a pattern
    that matches no empty text (every pattern of the program).  [skip]
    counts the characters of the last match still to pass over. *)
Fixpoint sub_from (r : regex) (repl : rmatch -> list ascii) (skip : nat)
    (prev : option ascii) (s : list ascii) : list ascii :=
  match s with
  | [] => []
  | c :: s' =>
      match skip with
      | S n => sub_from r repl n (Some c) s'
      | O =>
          match match_at r prev s with
          | Some m =>
              match m_text m with
              | [] => c :: sub_from r repl 0 (Some c) s'
              | _ :: t => repl m ++ sub_from r repl (length t) (Some c) s'
              end
          | None => c :: sub_from r repl 0 (Some c) s'
          end
      end
  end.

Definition re_sub (r : regex) (repl : rmatch -> list ascii) (s : list ascii) : list ascii :=
  sub_from r repl 0 None s.

(** The same with a replacement function that may raise. *)
Fixpoint sub_from_res (r : regex) (repl : rmatch -> res (list ascii)) (skip : nat)
    (prev : option ascii) (s : list ascii) : res (list ascii) :=
  match s with
  | [] => Ok []
  | c :: s' =>
      match skip with
      | S n => sub_from_res r repl n (Some c) s'
      | O =>
          match match_at r prev s with
          | Some m =>
              match m_text m with
              | [] => do tl <- sub_from_res r repl 0 (Some c) s'; Ok (c :: tl)
              | _ :: t =>
                  do x <- repl m;
                  do tl <- sub_from_res r repl (length t) (Some c) s';
                  Ok (x ++ tl)
              end
          | None => do tl <- sub_from_res r repl 0 (Some c) s'; Ok (c :: tl)
          end
      end
  end.

Definition re_sub_res (r : regex) (repl : rmatch -> res (list ascii)) (s : list ascii)
    : res (list ascii) :=
  sub_from_res r repl 0 None s.

(** Pattern syntax. *)
Definition chr (c : ascii) : regex := Cls (chr_eqb c).
Definition not_chr (c : ascii) : ascii -> bool := fun x => negb (chr_eqb x c).

Fixpoint rseq (rs : list regex) : regex :=
  match rs with
  | [] => Eps
  | [r] => r
  | r :: rs' => Cat r (rseq rs')
  end.

(** A literal text. *)
Definition lit (s : list ascii) : regex := rseq (map chr s).

(** A literal text in lower case under [re.IGNORECASE]. *)
Definition lit_nocase (s : list ascii) : regex :=
  rseq (map (fun x => Cls (fun c => chr_eqb (lower_char c) x)) s).

Definition star (p : ascii -> bool) : regex := Rep true p 0 None.
Definition plus (p : ascii -> bool) : regex := Rep true p 1 None.
Definition lazy_plus (p : ascii -> bool) : regex := Rep false p 1 None.

(** [.] without [re.DOTALL] *)
Definition dot (c : ascii) : bool := negb (chr_eqb c nl).

(** ** The patterns of the program *)

(** [^```mermaid\s*$] with [re.IGNORECASE] *)
Definition MERMAID_FENCE_RE : regex :=
  rseq [Bol false; lit_nocase (py "```mermaid"); star is_space; Eol].

(** [^```\s*$] *)
Definition FENCE_END_RE : regex :=
  rseq [Bol false; lit (py "```"); star is_space; Eol].

(** [\[([^\]]+)\]\(([^)]+)\)] *)
Definition MD_LINK_RE : regex :=
  rseq [chr "["; Grp 1 (plus (not_chr "]")); chr "]";
       chr "("; Grp 2 (plus (not_chr ")")); chr ")"].

(** [^(#{1,6})\s+(.+?)\s*$] *)
Definition ATX_HEADING_RE : regex :=
  rseq [Bol false; Grp 1 (Rep true (chr_eqb "#") 1 (Some 6)); plus is_space;
       Grp 2 (lazy_plus dot); star is_space; Eol].

(** ** slugify *)

Definition is_markup (c : ascii) : bool :=
  chr_eqb c "`" || chr_eqb c "*" || chr_eqb c "_" || chr_eqb c "~".

Definition is_slug_char (c : ascii) : bool :=
  is_lower_az c || is_digit c || is_space c || chr_eqb c "-".

Definition is_gap (c : ascii) : bool := is_space c || chr_eqb c "-".

Definition or_section (s : list ascii) : list ascii :=
  match s with
  | [] => py "section"
  | _ => s
  end.

Definition slugify (s : list ascii) : list ascii :=
  let s := lower (strip s) in
  (* <[^>]+> *)
  let s := re_sub (rseq [chr "<"; plus (not_chr ">"); chr ">"]) (fun _ => []) s in
  (* [`*_~] *)
  let s := re_sub (Cls is_markup) (fun _ => []) s in
  (* [^a-z0-9\s\-] *)
  let s := re_sub (Cls (fun c => negb (is_slug_char c))) (fun _ => []) s in
  (* [\s\-]+ *)
  let s := strip_by (chr_eqb "-") (re_sub (plus is_gap) (fun _ => py "-") s) in
  or_section s.

(** ** SHA-1 ([hashlib.sha1]) *)

Module SHA1.

Local Open Scope Z_scope.

(** A 32-bit word is a [Z] below [2^32]. *)
Definition w32 (x : Z) : Z := x mod 2 ^ 32.

Definition add32 (x y : Z) : Z := w32 (x + y).

Definition rotl (n x : Z) : Z := Z.lor (w32 (Z.shiftl x n)) (Z.shiftr x (32 - n)).

Definition not32 (x : Z) : Z := Z.lxor x 0xFFFFFFFF.

(** [s.encode("utf-8")] for code points below 256. *)
Definition utf8 (s : list ascii) : list Z :=
  flat_map (fun c => let n := Z.of_nat (code c) in
                     if n <? 128 then [n] else [192 + n / 64; 128 + n mod 64]) s.

(** The [k] low bytes of [x], most significant first. *)
Fixpoint be_bytes (k : nat) (x : Z) : list Z :=
  match k with
  | O => []
  | S k' => Z.shiftr x (8 * Z.of_nat k') mod 256 :: be_bytes k' x
  end.

Definition pad (msg : list Z) : list Z :=
  let len := length msg in
  let zeros := ((64 - (len + 9) mod 64) mod 64)%nat in
  msg ++ [128] ++ repeat 0 zeros ++ be_bytes 8 (8 * Z.of_nat len).

Fixpoint chunks {A : Type} (size n : nat) (l : list A) : list (list A) :=
  match n with
  | O => []
  | S n' => take size l :: chunks size n' (drop size l)
  end.

Definition be_word (bytes : list Z) : Z := fold_left (fun acc b => acc * 256 + b) bytes 0.

(** The message schedule, latest word first. *)
Fixpoint expand (n : nat) (w : list Z) : list Z :=
  match n with
  | O => w
  | S n' =>
      let x := Z.lxor (Z.lxor (nth 2 w 0) (nth 7 w 0)) (Z.lxor (nth 13 w 0) (nth 15 w 0)) in
      expand n' (rotl 1 x :: w)
  end.

Definition schedule (block : list Z) : list Z :=
  rev (expand 64 (rev (map be_word (chunks 4 16 block)))).

Definition f_t (t : nat) (b c d : Z) : Z :=
  if (t <? 20)%nat then Z.lor (Z.land b c) (Z.land (not32 b) d)
  else if (t <? 40)%nat then Z.lxor (Z.lxor b c) d
  else if (t <? 60)%nat then Z.lor (Z.lor (Z.land b c) (Z.land b d)) (Z.land c d)
  else Z.lxor (Z.lxor b c) d.

Definition k_t (t : nat) : Z :=
  if (t <? 20)%nat then 0x5A827999
  else if (t <? 40)%nat then 0x6ED9EBA1
  else if (t <? 60)%nat then 0x8F1BBCDC
  else 0xCA62C1D6.

Definition state : Type := Z * Z * Z * Z * Z.

Definition round (st : state) (tw : nat * Z) : state :=
  let '(a, b, c, d, e) := st in
  let '(t, w) := tw in
  let temp := add32 (add32 (add32 (add32 (rotl 5 a) (f_t t b c d)) e) (k_t t)) w in
  (temp, a, rotl 30 b, c, d).

Definition compress (h : state) (block : list Z) : state :=
  let w := schedule block in
  let '(a, b, c, d, e) := fold_left round (zip (seq 0 80) w) h in
  let '(h0, h1, h2, h3, h4) := h in
  (add32 h0 a, add32 h1 b, add32 h2 c, add32 h3 d, add32 h4 e).

Definition init : state :=
  (0x67452301, 0xEFCDAB89, 0x98BADCFE, 0x10325476, 0xC3D2E1F0).

Definition digest_words (msg : list Z) : list Z :=
  let p := pad msg in
  let '(h0, h1, h2, h3, h4) := fold_left compress (chunks 64 (length p / 64) p) init in
  [h0; h1; h2; h3; h4].

Definition hex_digit (x : Z) : ascii :=
  nth (Z.to_nat x) (py "0123456789abcdef") "0"%char.

(** The [k] low hexadecimal digits of [x], most significant first. *)
Fixpoint hex (k : nat) (x : Z) : list ascii :=
  match k with
  | O => []
  | S k' => hex_digit (Z.shiftr x (4 * Z.of_nat k') mod 16) :: hex k' x
  end.

(** [hashlib.sha1(s.encode("utf-8")).hexdigest()] *)
Definition hexdigest (s : list ascii) : list ascii :=
  flat_map (hex 8) (digest_words (utf8 s)).

End SHA1.

(** ** pathlib on a POSIX host *)

(** [Path(s)]: whether [s] is anchored at the root, and its components;
    empty components and [.] are dropped when the path is parsed. *)
Record Path : Type := MkPath {
  p_abs : bool;
  p_parts : list (list ascii)
}.

Definition Path_of (s : list ascii) : Path :=
  MkPath (startswith s (py "/"))
         (filter (fun c => c <> [] /\ c <> py ".") (split_char "/" s)).

Definition is_absolute (p : Path) : bool := p_abs p.

(** [p.name] of a path given by its components. *)
Definition parts_name (parts : list (list ascii)) : list ascii := default [] (last parts).

(** [Path(s).name] *)
Definition path_name (s : list ascii) : list ascii := parts_name (p_parts (Path_of s)).

(** An absolute path is the list of its components under [/].
    [p.parent]: *)
Definition parent (p : list (list ascii)) : list (list ascii) := removelast p.

(** [p / Path(s)] for an absolute [p] and a relative [s]. *)
Definition joinpath (p : list (list ascii)) (s : list ascii) : list (list ascii) :=
  p ++ p_parts (Path_of s).

(** [p.as_posix()] for an absolute [p]. *)
Definition as_posix_abs (p : list (list ascii)) : list ascii := py "/" ++ join (py "/") p.

(** [p.as_posix()] for a relative path. *)
Definition as_posix_rel (parts : list (list ascii)) : list ascii :=
  match parts with
  | [] => py "."
  | _ => join (py "/") parts
  end.

(** [..] steps back, except at the root. *)
Fixpoint normalize_parts (acc : list (list ascii)) (parts : list (list ascii))
    : list (list ascii) :=
  match parts with
  | [] => rev acc
  | c :: parts' =>
      if str_eqb c (py "..") then normalize_parts (tail acc) parts'
      else if str_eqb c (py ".") then normalize_parts acc parts'
      else normalize_parts (c :: acc) parts'
  end.

Definition has_nul (s : list ascii) : bool := existsb (fun c => code c =? 0) s.

(** [p.resolve()] for an absolute [p]: a NUL character makes the operating
    system call raise [ValueError]. *)
Definition resolve (p : list (list ascii)) : res (list (list ascii)) :=
  if existsb has_nul p then Raise (ValueError (py "embedded null byte"))
  else Ok (normalize_parts [] p).

Fixpoint is_prefix (root p : list (list ascii)) : bool :=
  match root, p with
  | [], _ => true
  | r :: root', c :: p' => str_eqb r c && is_prefix root' p'
  | _ :: _, [] => false
  end.

(** [p.relative_to(root)] *)
Definition relative_to (p root : list (list ascii)) : res (list (list ascii)) :=
  if is_prefix root p then Ok (drop (length root) p)
  else Raise (ValueError (py "path is not in the subpath of root")).

(** ** The program *)

(** [safe_file_slug] from the path relative to the root, as a string. *)
Definition slug_of_rel (rel : list ascii) : list ascii :=
  let base := slugify (replace_char "/" " " rel) in
  let h := take 8 (SHA1.hexdigest rel) in
  base ++ py "-" ++ h.

Definition safe_file_slug (root md_path : list (list ascii)) : res (list ascii) :=
  do p <- resolve md_path;
  do r <- resolve root;
  do rel <- relative_to p r;
  Ok (slug_of_rel (as_posix_rel rel)).

(** [target.split("#", 1)] when [target] holds a [#]. *)
Fixpoint split_once (sep : ascii) (s : list ascii) : list ascii * list ascii :=
  match s with
  | [] => ([], [])
  | c :: s' =>
      if chr_eqb c sep then ([], s')
      else let '(a, b) := split_once sep s' in (c :: a, b)
  end.

Definition split_link_target (target : list ascii) : list ascii * list ascii :=
  if has_char "#" target then split_once "#" target else (target, []).

Definition is_alpha_az (c : ascii) : bool := is_lower_az c || is_upper_az c.

Definition is_scheme_char (c : ascii) : bool :=
  is_alpha_az c || is_digit c || chr_eqb c "+" || chr_eqb c "-" || chr_eqb c ".".

(** [^[a-zA-Z][a-zA-Z0-9+\-.]*://] *)
Definition URL_RE : regex :=
  rseq [Bol false; Cls is_alpha_az; star is_scheme_char; lit (py "://")].

Definition looks_like_url (s : list ascii) : bool :=
  re_test URL_RE s || startswith s (py "mailto:").

(** *** Mermaid blocks *)

(** The values [--mermaid-flow-direction] accepts. *)
Inductive direction : Type := TB | TD | BT | RL | LR.

Definition direction_str (d : direction) : list ascii :=
  match d with
  | TB => py "TB"
  | TD => py "TD"
  | BT => py "BT"
  | RL => py "RL"
  | LR => py "LR"
  end.

(** [^(flowchart|graph)\s+[A-Z]{2}\b] with [re.MULTILINE] *)
Definition DIRECTION_RE : regex :=
  rseq [Bol true; Grp 1 (Alt (lit (py "flowchart")) (lit (py "graph")));
        plus is_space; Rep true is_upper_az 2 (Some 2); WordB].

(** The replacement [rf"\1 {flow_direction}"]. *)
Definition direction_repl (d : direction) (m : rmatch) : list ascii :=
  group_str m 1 ++ py " " ++ direction_str d.

Definition rewrite_direction (d : direction) (mermaid_src : list ascii) : list ascii :=
  re_sub DIRECTION_RE (direction_repl d) mermaid_src.

(** [\\n\s*\(] then [\\n] *)
Definition replace_escapes (mermaid_src : list ascii) : list ascii :=
  let mermaid_src :=
    re_sub (rseq [lit (backslash :: py "n"); star is_space; chr "("])
           (fun _ => py " (") mermaid_src in
  re_sub (lit (backslash :: py "n")) (fun _ => py " ") mermaid_src.

Definition has_paren (label : list ascii) : bool :=
  has_char "(" label || has_char ")" label.

Definition is_arrow_end (c : ascii) : bool := chr_eqb c "-" || chr_eqb c ">".

(** [(--+[->]?)\|([^|]+)\|] *)
Definition EDGE_RE : regex :=
  rseq [Grp 1 (rseq [chr "-"; plus (chr_eqb "-"); Opt (Cls is_arrow_end)]);
        chr "|"; Grp 2 (plus (not_chr "|")); chr "|"].

Definition quote_edge_label (m : rmatch) : list ascii :=
  let arrow := group_str m 1 in
  let label := group_str m 2 in
  if startswith label [dquote] || negb (has_paren label) then m_text m
  else arrow ++ py "|" ++ [dquote] ++ label ++ [dquote] ++ py "|".

Definition quote_edge_labels (mermaid_src : list ascii) : list ascii :=
  re_sub EDGE_RE quote_edge_label mermaid_src.

(** [(\w+)?\[([^\]]+)\]] *)
Definition NODE_RE : regex :=
  rseq [Opt (Grp 1 (plus is_word)); chr "["; Grp 2 (plus (not_chr "]")); chr "]"].

(** A value in an f-string: [None] prints as its name. *)
Definition format_opt (o : option (list ascii)) : list ascii :=
  match o with
  | Some s => s
  | None => py "None"
  end.

Definition quote_node_label (m : rmatch) : list ascii :=
  let prefix := group m 1 in
  let label := group_str m 2 in
  if startswith label [dquote] then m_text m
  else if has_paren label
       then format_opt prefix ++ py "[" ++ [dquote] ++ label ++ [dquote] ++ py "]"
       else m_text m.

Definition quote_node_labels (mermaid_src : list ascii) : list ascii :=
  re_sub NODE_RE quote_node_label mermaid_src.

(** The text of a block as it is handed to the renderer. *)
Definition normalize_block (flow_direction : option direction) (block : list (list ascii))
    : list ascii :=
  let mermaid_src := strip (join [nl] block) ++ [nl] in
  let mermaid_src :=
    match flow_direction with
    | Some d => rewrite_direction d mermaid_src
    | None => mermaid_src
    end in
  let mermaid_src := replace_escapes mermaid_src in
  let mermaid_src := quote_edge_labels mermaid_src in
  let mermaid_src := quote_node_labels mermaid_src in
  mermaid_src.

Definition placeholder : list ascii :=
  py "*[Mermaid diagram could not be rendered - check syntax]*".

(** The scan is outside a block, or inside one whose lines so far are kept. *)
Inductive scan_state : Type :=
| Outside
| Inside (block : list (list ascii)).

Section Renderer.

(** [mmdc file cmd]: whether [subprocess.run(cmd, check=True)] returns,
    [file] being the text written to the input file; when it does not, it
    raises [CalledProcessError], the exception the program catches.  The
    calls that raise another exception are those of [Calls] below. *)
Variable mmdc : list ascii -> list (list ascii) -> bool.

Variable diagrams_dir : list (list ascii).
Variable diagram_key_prefix : list ascii.
Variable width height : Z.
Variable flow_direction : option direction.

(** The file name of a block without its extension. *)
Definition block_stem (mermaid_idx : nat) (mermaid_src : list ascii) : list ascii :=
  let mermaid_hash := take 12 (SHA1.hexdigest mermaid_src) in
  py "mermaid-" ++ diagram_key_prefix ++ py "-" ++ str_of_nat mermaid_idx
  ++ py "-" ++ mermaid_hash.

Definition block_png (mermaid_idx : nat) (mermaid_src : list ascii) : list (list ascii) :=
  joinpath diagrams_dir (block_stem mermaid_idx mermaid_src ++ py ".png").

Definition block_mmd (mermaid_idx : nat) (mermaid_src : list ascii) : list (list ascii) :=
  joinpath diagrams_dir (block_stem mermaid_idx mermaid_src ++ py ".mmd").

Definition block_cmd (mermaid_idx : nat) (mermaid_src : list ascii) : list (list ascii) :=
  [py "mmdc"; py "-i"; as_posix_abs (block_mmd mermaid_idx mermaid_src);
   py "-o"; as_posix_abs (block_png mermaid_idx mermaid_src);
   py "-w"; str_of_Z width; py "-H"; str_of_Z height;
   py "-b"; py "transparent"].

(** Whether the renderer succeeds on the block. *)
Definition renders (mermaid_idx : nat) (block : list (list ascii)) : bool :=
  let mermaid_src := normalize_block flow_direction block in
  mmdc mermaid_src (block_cmd mermaid_idx mermaid_src).

(** What one closed block leaves in the output. *)
Definition render_block (mermaid_idx : nat) (block : list (list ascii)) : list ascii :=
  let mermaid_src := normalize_block flow_direction block in
  if renders mermaid_idx block
  then py "![](" ++ as_posix_abs (block_png mermaid_idx mermaid_src) ++ py ")"
  else placeholder.

(** The [while] loop over the lines; the inner [while] is the state
    [Inside]. *)
Fixpoint render_loop (lines : list (list ascii)) (st : scan_state)
    (out_lines : list (list ascii)) (mermaid_idx : nat) : res (list (list ascii)) :=
  match lines with
  | [] =>
      match st with
      | Outside => Ok out_lines
      | Inside _ => die (py "unterminated ```mermaid block")
      end
  | line :: rest =>
      match st with
      | Outside =>
          if re_test MERMAID_FENCE_RE line
          then render_loop rest (Inside []) out_lines mermaid_idx
          else render_loop rest Outside (out_lines ++ [line]) mermaid_idx
      | Inside block =>
          if re_test FENCE_END_RE line
          then render_loop rest Outside
                 (out_lines ++ [render_block mermaid_idx block]) (mermaid_idx + 1)
          else render_loop rest (Inside (block ++ [line])) out_lines mermaid_idx
      end
  end.

Definition render_mermaid_blocks (md_text : list ascii) : res (list ascii) :=
  do out_lines <- render_loop (splitlines md_text) Outside [] 0;
  Ok (join [nl] out_lines ++ [nl]).

End Renderer.

(** *** Heading anchors and links *)

Definition make_unique_id (heading_counts : gmap (list ascii) nat) (base : list ascii)
    : gmap (list ascii) nat * list ascii :=
  let n := default 0 (heading_counts !! base) + 1 in
  (<[base := n]> heading_counts,
   if n =? 1 then base else base ++ py "-" ++ str_of_nat n).

Definition rewrite_heading_line (file_slug : list ascii)
    (heading_counts : gmap (list ascii) nat) (line : list ascii)
    : gmap (list ascii) nat * list ascii :=
  match re_match ATX_HEADING_RE line with
  | None => (heading_counts, line)
  | Some m =>
      let hashes := group_str m 1 in
      let title := group_str m 2 in
      if contains title (py "{#") then (heading_counts, line)
      else
        let clean_title := strip title in
        let base := file_slug ++ py "-" ++ slugify clean_title in
        let '(heading_counts, hid) := make_unique_id heading_counts base in
        (heading_counts, hashes ++ py " " ++ clean_title ++ py " {#" ++ hid ++ py "}")
  end.

(** [for line in lines: out.append(rewrite_heading_line(line))] *)
Fixpoint rewrite_headings (file_slug : list ascii) (heading_counts : gmap (list ascii) nat)
    (lines : list (list ascii)) : list (list ascii) :=
  match lines with
  | [] => []
  | line :: rest =>
      let '(heading_counts, out_line) := rewrite_heading_line file_slug heading_counts line in
      out_line :: rewrite_headings file_slug heading_counts rest
  end.

(** The lines of [out] before the links are rewritten. *)
Definition heading_pass (file_slug : list ascii) (lines : list (list ascii))
    : list (list ascii) :=
  [py "[]{#" ++ file_slug ++ py "}"; []] ++ rewrite_headings file_slug ∅ lines.

(** [if linked_slug:] *)
Definition truthy (o : option (list ascii)) : bool :=
  match o with
  | Some (_ :: _) => true
  | _ => false
  end.

Definition is_md_path (path_part : list ascii) : bool :=
  endswith (lower path_part) (py ".md") || endswith (lower path_part) (py ".markdown").

Section Links.

Variable file_slug_by_md_rel : gmap (list ascii) (list ascii).
Variable folder_root : list (list ascii).
Variable current_file : list (list ascii).

(** [file_slug_by_md_rel.keys()] *)
Definition keys : list (list ascii) := (map_to_list file_slug_by_md_rel).*1.

(** 2. The path taken from the directory of the current file. *)
Definition try_relative (path_part : list ascii) (linked_slug : option (list ascii))
    : res (option (list ascii)) :=
  if negb (truthy linked_slug) && negb (is_absolute (Path_of path_part)) then
    try_except is_Exception
      (do resolved <- resolve (joinpath (parent current_file) path_part);
       try_except is_ValueError
         (do root <- resolve folder_root;
          do resolved_rel <- relative_to resolved root;
          Ok (file_slug_by_md_rel !! as_posix_rel resolved_rel))
         (Ok linked_slug))
      (Ok linked_slug)
  else Ok linked_slug.

(** 3. The path without the name of the folder in front. *)
Definition try_without_prefix (path_part_normalized : list ascii)
    (linked_slug : option (list ascii)) : option (list ascii) :=
  if negb (truthy linked_slug) then
    let folder_name := parts_name folder_root in
    if startswith path_part_normalized (folder_name ++ py "/")
    then file_slug_by_md_rel !! drop (length folder_name + 1) path_part_normalized
    else linked_slug
  else linked_slug.

(** 4. The file name alone, when one file only bears it. *)
Definition try_filename (path_part_normalized : list ascii)
    (linked_slug : option (list ascii)) : option (list ascii) :=
  if negb (truthy linked_slug) && has_char "/" path_part_normalized then
    let filename := path_name path_part_normalized in
    let matching_files := filter (fun rel => path_name rel = filename) keys in
    if length matching_files =? 1
    then file_slug_by_md_rel !! default [] (head matching_files)
    else linked_slug
  else linked_slug.

(** The four strategies in turn. *)
Definition find_slug (path_part : list ascii) : res (option (list ascii)) :=
  let path_part_normalized := replace_char backslash "/" path_part in
  let linked_slug := file_slug_by_md_rel !! path_part_normalized in
  do linked_slug <- try_relative path_part linked_slug;
  let linked_slug := try_without_prefix path_part_normalized linked_slug in
  let linked_slug := try_filename path_part_normalized linked_slug in
  Ok linked_slug.

Definition repl (m : rmatch) : res (list ascii) :=
  let label := group_str m 1 in
  let target := strip (group_str m 2) in
  if looks_like_url target then Ok (m_text m)
  else
    let '(path_part, frag) := split_link_target target in
    let path_part := strip path_part in
    if str_eqb path_part [] || startswith path_part (py "#") then Ok (m_text m)
    else if negb (is_md_path path_part) then Ok (m_text m)
    else
      do linked_slug <- find_slug path_part;
      if truthy linked_slug then
        match frag with
        | _ :: _ =>
            let frag_id := slugify frag in
            Ok (py "[" ++ label ++ py "](#" ++ default [] linked_slug
                ++ py "-" ++ frag_id ++ py ")")
        | [] => Ok (py "[" ++ label ++ py "](#" ++ default [] linked_slug ++ py ")")
        end
      else Ok (m_text m).

Definition rewrite_links (text : list ascii) : res (list ascii) :=
  re_sub_res MD_LINK_RE repl text.

Definition add_ids_and_rewrite_links (md_text file_slug : list ascii) : res (list ascii) :=
  let lines := splitlines md_text in
  let out := heading_pass file_slug lines in
  let rewritten := join [nl] out ++ [nl] in
  rewrite_links rewritten.

End Links.

(** *** The run over the corpus *)

(** The ids [make_unique_id] hands out over the lines of one document. *)
Fixpoint heading_ids (file_slug : list ascii) (heading_counts : gmap (list ascii) nat)
    (lines : list (list ascii)) : list (list ascii) :=
  match lines with
  | [] => []
  | line :: rest =>
      match re_match ATX_HEADING_RE line with
      | None => heading_ids file_slug heading_counts rest
      | Some m =>
          if contains (group_str m 2) (py "{#") then heading_ids file_slug heading_counts rest
          else
            let base := file_slug ++ py "-" ++ slugify (strip (group_str m 2)) in
            let '(heading_counts, hid) := make_unique_id heading_counts base in
            hid :: heading_ids file_slug heading_counts rest
      end
  end.

(** The anchors of one document: the one at its top, then its headings'. *)
Definition anchor_ids (file_slug : list ascii) (text : list ascii) : list (list ascii) :=
  file_slug :: heading_ids file_slug ∅ (splitlines text).

(** A file of the corpus: its absolute path and what [read_text] returns. *)
Record document : Type := Document {
  md_path : list (list ascii);
  md_text : list ascii
}.

Definition page_break : list ascii :=
  [nl] ++ py "```{=latex}" ++ [nl] ++ backslash :: py "newpage" ++ [nl] ++ py "```" ++ [nl].

Section Run.

Variable mmdc : list ascii -> list (list ascii) -> bool.

(** [folder] is resolved, [tmpdir] is the temporary directory, and the
    width and height are already scaled. *)
Variable folder : list (list ascii).
Variable tmpdir : list (list ascii).
Variable scaled_width scaled_height : Z.
Variable flow_direction : option direction.

(** [p.resolve().relative_to(folder).as_posix()] *)
Definition rel_of (p : list (list ascii)) : res (list ascii) :=
  do r <- resolve p;
  do rel <- relative_to r folder;
  Ok (as_posix_rel rel).

Fixpoint build_index (md_files : list (list (list ascii)))
    (file_slug_by_md_rel : gmap (list ascii) (list ascii))
    : res (gmap (list ascii) (list ascii)) :=
  match md_files with
  | [] => Ok file_slug_by_md_rel
  | p :: rest =>
      do rel <- rel_of p;
      do slug <- safe_file_slug folder p;
      build_index rest (<[rel := slug]> file_slug_by_md_rel)
  end.

(** [d[key]] *)
Definition getitem (d : gmap (list ascii) (list ascii)) (key : list ascii)
    : res (list ascii) :=
  match d !! key with
  | Some v => Ok v
  | None => Raise (KeyError key)
  end.

(** The text of one document after both passes, and the anchors given. *)
Definition process_document (file_slug_by_md_rel : gmap (list ascii) (list ascii))
    (d : document) : res (list ascii * list (list ascii)) :=
  do rel <- rel_of (md_path d);
  do file_slug <- getitem file_slug_by_md_rel rel;
  do text <- render_mermaid_blocks mmdc (tmpdir ++ [py "diagrams"]) file_slug
               scaled_width scaled_height flow_direction (md_text d);
  do out <- add_ids_and_rewrite_links file_slug_by_md_rel folder (md_path d) text file_slug;
  Ok (out, anchor_ids file_slug text).

Fixpoint process_all (file_slug_by_md_rel : gmap (list ascii) (list ascii))
    (idx : nat) (docs : list document)
    : res (list (list ascii) * list (list ascii)) :=
  match docs with
  | [] => Ok ([], [])
  | d :: rest =>
      do r <- process_document file_slug_by_md_rel d;
      do rs <- process_all file_slug_by_md_rel (idx + 1) rest;
      Ok ((if 0 <? idx then [page_break] else []) ++ [r.1] ++ rs.1, r.2 ++ rs.2)
  end.

Definition run (docs : list document) : res (list (list ascii) * list (list ascii)) :=
  do file_slug_by_md_rel <- build_index (map md_path docs) ∅;
  process_all file_slug_by_md_rel 0 docs.

(** What [main] writes to [combined.md]. *)
Definition combined_md (docs : list document) : res (list ascii) :=
  do r <- run docs;
  Ok (join [nl] r.1).

(** Every anchor id given in the run, in order. *)
Definition corpus_anchor_ids (docs : list document) : res (list (list ascii)) :=
  do r <- run docs;
  Ok r.2.

End Run.

(** *** The call of the renderer and the exceptions that escape *)

(** What [in_mmd.write_text(mermaid_src)] and [subprocess.run(cmd,
    check=True, stdout=PIPE, stderr=PIPE, text=True)] do on one block.  The
    call returns; or the renderer exits with a status other than zero, its
    output is decoded and [CalledProcessError] is raised, the one exception
    of the [try]; or another exception is raised, which no [except] of the
    program catches: [OSError] when the input file cannot be written or the
    process cannot be started, [UnicodeDecodeError], a [ValueError], when
    the output of the renderer is not UTF-8. *)
Inductive call : Type :=
| Returns
| CalledProcessError
| Escapes (e : exn).

(** A call that returns or raises [CalledProcessError]. *)
Definition call_of (returns : bool) : call :=
  if returns then Returns else CalledProcessError.

Module Calls.

Section Renderer.

Variable mmdc : list ascii -> list (list ascii) -> call.

Variable diagrams_dir : list (list ascii).
Variable diagram_key_prefix : list ascii.
Variable width height : Z.
Variable flow_direction : option direction.

(** What one closed block leaves in the output, or the exception that ends
    the scan. *)
Definition render_block (mermaid_idx : nat) (block : list (list ascii)) : res (list ascii) :=
  let mermaid_src := normalize_block flow_direction block in
  match mmdc mermaid_src
          (block_cmd diagrams_dir diagram_key_prefix width height mermaid_idx mermaid_src)
  with
  | Returns =>
      Ok (py "![](" ++ as_posix_abs (block_png diagrams_dir diagram_key_prefix mermaid_idx
                                       mermaid_src) ++ py ")")
  | CalledProcessError => Ok placeholder
  | Escapes e => Raise e
  end.

Fixpoint render_loop (lines : list (list ascii)) (st : scan_state)
    (out_lines : list (list ascii)) (mermaid_idx : nat) : res (list (list ascii)) :=
  match lines with
  | [] =>
      match st with
      | Outside => Ok out_lines
      | Inside _ => die (py "unterminated ```mermaid block")
      end
  | line :: rest =>
      match st with
      | Outside =>
          if re_test MERMAID_FENCE_RE line
          then render_loop rest (Inside []) out_lines mermaid_idx
          else render_loop rest Outside (out_lines ++ [line]) mermaid_idx
      | Inside block =>
          if re_test FENCE_END_RE line
          then
            do out <- render_block mermaid_idx block;
            render_loop rest Outside (out_lines ++ [out]) (mermaid_idx + 1)
          else render_loop rest (Inside (block ++ [line])) out_lines mermaid_idx
      end
  end.

Definition render_mermaid_blocks (md_text : list ascii) : res (list ascii) :=
  do out_lines <- render_loop (splitlines md_text) Outside [] 0;
  Ok (join [nl] out_lines ++ [nl]).

End Renderer.

Section Run.

Variable mmdc : list ascii -> list (list ascii) -> call.
Variable folder : list (list ascii).
Variable tmpdir : list (list ascii).
Variable scaled_width scaled_height : Z.
Variable flow_direction : option direction.

Definition process_document (file_slug_by_md_rel : gmap (list ascii) (list ascii))
    (d : document) : res (list ascii * list (list ascii)) :=
  do rel <- rel_of folder (md_path d);
  do file_slug <- getitem file_slug_by_md_rel rel;
  do text <- render_mermaid_blocks mmdc (tmpdir ++ [py "diagrams"]) file_slug
               scaled_width scaled_height flow_direction (md_text d);
  do out <- add_ids_and_rewrite_links file_slug_by_md_rel folder (md_path d) text file_slug;
  Ok (out, anchor_ids file_slug text).

Fixpoint process_all (file_slug_by_md_rel : gmap (list ascii) (list ascii))
    (idx : nat) (docs : list document)
    : res (list (list ascii) * list (list ascii)) :=
  match docs with
  | [] => Ok ([], [])
  | d :: rest =>
      do r <- process_document file_slug_by_md_rel d;
      do rs <- process_all file_slug_by_md_rel (idx + 1) rest;
      Ok ((if 0 <? idx then [page_break] else []) ++ [r.1] ++ rs.1, r.2 ++ rs.2)
  end.

Definition run (docs : list document) : res (list (list ascii) * list (list ascii)) :=
  do file_slug_by_md_rel <- build_index folder (map md_path docs) ∅;
  process_all file_slug_by_md_rel 0 docs.

(** What [main] writes to [combined.md]. *)
Definition combined_md (docs : list document) : res (list ascii) :=
  do r <- run docs;
  Ok (join [nl] r.1).

End Run.

End Calls.

(** ** Notions of the specification *)

(** The exit status of the interpreter when an exception ends the run. *)
Definition exit_status (e : exn) : Z :=
  match e with
  | SystemExit status _ => status
  | ValueError _ | KeyError _ | OSError _ => 1
  end.

(** Every exception the result may carry ends the run with a status other
    than zero. *)
Definition nonzero {A : Type} (r : res A) : Prop :=
  forall e, r = Raise e -> exit_status e <> 0%Z.

(** A diagram fence is opened and not closed before the end of the input;
    [inside] tells whether the scan starts within a block. *)
Fixpoint fence_left_open (inside : bool) (lines : list (list ascii)) : bool :=
  match lines with
  | [] => inside
  | line :: rest =>
      if inside then fence_left_open (negb (re_test FENCE_END_RE line)) rest
      else fence_left_open (re_test MERMAID_FENCE_RE line) rest
  end.

Definition is_inside (st : scan_state) : bool :=
  match st with
  | Outside => false
  | Inside _ => true
  end.

(** The repair rules in the order the specification lists them: the
    escapes (1), the edge labels (2), the node labels (3), and last the
    direction (4). *)
Definition normalize_block_spec_order (flow_direction : option direction)
    (block : list (list ascii)) : list ascii :=
  let mermaid_src := strip (join [nl] block) ++ [nl] in
  let mermaid_src := replace_escapes mermaid_src in
  let mermaid_src := quote_edge_labels mermaid_src in
  let mermaid_src := quote_node_labels mermaid_src in
  match flow_direction with
  | Some d => rewrite_direction d mermaid_src
  | None => mermaid_src
  end.

(** The three repairs that follow the direction in the program. *)
Definition repair (mermaid_src : list ascii) : list ascii :=
  quote_node_labels (quote_edge_labels (replace_escapes mermaid_src)).

(** A label as the quoting rules leave it. *)
Definition quoted (label : list ascii) : list ascii :=
  if startswith label [dquote] || negb (has_paren label) then label
  else [dquote] ++ label ++ [dquote].

(** A path component [resolve] leaves alone. *)
Definition plain_part (c : list ascii) : bool :=
  negb (has_nul c) && negb (str_eqb c (py "..")) && negb (str_eqb c (py ".")).

(** A file under the folder, by a path that needs no resolution. *)
Definition in_folder (folder p : list (list ascii)) : Prop :=
  exists rel, p = folder ++ rel /\ forallb plain_part rel = true.

(** The parts of a link as [repl] reads them from a match. *)
Definition link_label (m : rmatch) : list ascii := group_str m 1.
Definition link_target (m : rmatch) : list ascii := strip (group_str m 2).
Definition link_path (m : rmatch) : list ascii := strip (split_link_target (link_target m)).1.
Definition link_frag (m : rmatch) : list ascii := (split_link_target (link_target m)).2.

(** A link that is a candidate for resolution: not a URL, with a path, and
    the path that of a Markdown file. *)
Definition candidate (m : rmatch) : bool :=
  negb (looks_like_url (link_target m))
  && negb (str_eqb (link_path m) [])
  && negb (startswith (link_path m) (py "#"))
  && is_md_path (link_path m).

(** The target of a resolved link. *)
Definition anchor_of (slug frag : list ascii) : list ascii :=
  match frag with
  | [] => py "#" ++ slug
  | _ => py "#" ++ slug ++ py "-" ++ slugify frag
  end.

Section LinkSpec.

Variable file_slug_by_md_rel : gmap (list ascii) (list ascii).
Variable folder_root : list (list ascii).
Variable current_file : list (list ascii).

(** The relative path of the document each strategy points at. *)

(** 1. The path as written, with [/] as separator. *)
Definition by_exact (path_part : list ascii) : option (list ascii) :=
  Some (replace_char backslash "/" path_part).

(** 2. The path taken from the directory of the linking document, when
    it lies inside the root. *)
Definition by_relative (path_part : list ascii) : option (list ascii) :=
  if is_absolute (Path_of path_part) then None
  else match resolve (joinpath (parent current_file) path_part), resolve folder_root with
       | Ok resolved, Ok root =>
           match relative_to resolved root with
           | Ok rel => Some (as_posix_rel rel)
           | Raise _ => None
           end
       | _, _ => None
       end.

(** 3. The path without the name of the root directory in front. *)
Definition by_prefix (path_part : list ascii) : option (list ascii) :=
  let p := replace_char backslash "/" path_part in
  let folder_name := parts_name folder_root in
  if startswith p (folder_name ++ py "/")
  then Some (drop (length folder_name + 1) p)
  else None.

(** The documents of the corpus with the file name of the path. *)
Definition same_name (path_part : list ascii) : list (list ascii) :=
  let p := replace_char backslash "/" path_part in
  filter (fun rel => path_name rel = path_name p) (keys file_slug_by_md_rel).

(** 4. The only document with the file name of the path, when the path
    has a separator. *)
Definition by_filename (path_part : list ascii) : option (list ascii) :=
  if has_char "/" (replace_char backslash "/" path_part) then
    match same_name path_part with
    | [rel] => Some rel
    | _ => None
    end
  else None.

(** The slug of the document a strategy points at, if it is in the corpus. *)
Definition slug_at (rel : option (list ascii)) : option (list ascii) :=
  match rel with
  | Some r => file_slug_by_md_rel !! r
  | None => None
  end.

(** The first of the four strategies that finds a document. *)
Definition first_match (path_part : list ascii) : option (list ascii) :=
  match slug_at (by_exact path_part) with
  | Some s => Some s
  | None =>
      match slug_at (by_relative path_part) with
      | Some s => Some s
      | None =>
          match slug_at (by_prefix path_part) with
          | Some s => Some s
          | None => slug_at (by_filename path_part)
          end
      end
  end.

End LinkSpec.

(** Every slug of the table is a non-empty string. *)
Definition slugs_nonempty (file_slug_by_md_rel : gmap (list ascii) (list ascii)) : Prop :=
  forall rel slug, file_slug_by_md_rel !! rel = Some slug -> slug <> [].

(** The character before the position once [w] is read. *)
Definition prev_after (prev : option ascii) (w : list ascii) : option ascii :=
  match last w with
  | Some c => Some c
  | None => prev
  end.

(** A pattern that never looks at the character before the position. *)
Fixpoint prev_free (r : regex) : bool :=
  match r with
  | Bol _ | WordB => false
  | Cat r1 r2 | Alt r1 r2 => prev_free r1 && prev_free r2
  | Opt r1 | Grp _ r1 => prev_free r1
  | Eps | Cls _ | Rep _ _ _ _ | Eol => true
  end.

(** Two states, or two results, of a match that differ at most in the
    character before the position. *)
Definition same_state (a b : mstate) : Prop :=
  ms_rest a = ms_rest b /\ ms_caps a = ms_caps b.

Definition same_result (a b : option mstate) : Prop :=
  match a, b with
  | Some x, Some y => same_state x y
  | None, None => True
  | _, _ => False
  end.

(** The text of an arrow: dashes, and [>] or nothing. *)
Definition arrow (n : nat) (gt : bool) : list ascii :=
  repeat "-"%char n ++ (if gt then py ">" else []).

(** The text of an inline link, and the match object of the link pattern
    on it. *)
Definition link_text (label target : list ascii) : list ascii :=
  py "[" ++ label ++ py "](" ++ target ++ py ")".

Definition link_of (label target : list ascii) : rmatch :=
  RMatch (link_text label target) [(2, target); (1, label)].

(** After [[], the bracket is closed at once, or closed before a character
    other than [(]: no link starts at that [[]. *)
Fixpoint bracket_closed (s : list ascii) (seen : bool) : bool :=
  match s with
  | [] => false
  | c :: s' =>
      if chr_eqb c "]" then
        negb seen || match s' with
                     | d :: _ => negb (chr_eqb d "(")
                     | [] => false
                     end
      else bracket_closed s' true
  end.

(** No link starts in the text. *)
Fixpoint no_link_start (s : list ascii) : bool :=
  match s with
  | [] => true
  | c :: s' => (if chr_eqb c "[" then bracket_closed s' false else true) && no_link_start s'
  end.

(** What [repl] returns. *)
Definition repl_text (file_slug_by_md_rel : gmap (list ascii) (list ascii))
    (folder_root current_file : list (list ascii)) (m : rmatch) : list ascii :=
  match repl file_slug_by_md_rel folder_root current_file m with
  | Ok s => s
  | Raise _ => m_text m
  end.

(** ** The scan of the folder *)

(** [s.rfind(c)], without the [-1] of a character that is absent. *)
Fixpoint rfind (c : ascii) (s : list ascii) : option nat :=
  match s with
  | [] => None
  | x :: s' =>
      match rfind c s' with
      | Some i => Some (S i)
      | None => if chr_eqb x c then Some 0 else None
      end
  end.

(** [p.suffix] from the name of [p]: the last dot and what follows it, when
    the dot is neither the first nor the last character. *)
Definition suffix (name : list ascii) : list ascii :=
  match rfind "." name with
  | Some i => if (0 <? i) && (i <? length name - 1) then drop i name else []
  | None => []
  end.

(** [a < b] on [str]: the order of the code points, position by position. *)
Fixpoint str_ltb (a b : list ascii) : bool :=
  match a, b with
  | _, [] => false
  | [], _ :: _ => true
  | x :: a', y :: b' => (code x <? code y) || ((code x =? code y) && str_ltb a' b')
  end.

Section Scan.

(** [p.is_file()] *)
Variable is_file : list (list ascii) -> bool.

(** [folder.rglob("*")], in the order of the scan. *)
Variable rglob : list (list ascii) -> list (list (list ascii)).

Definition is_markdown (p : list (list ascii)) : bool :=
  is_file p
  && (let s := lower (suffix (parts_name p)) in
      str_eqb s (py ".md") || str_eqb s (py ".markdown")).

(** [sorted(files, key=key)]: a stable sort that compares the keys with
    [<]; [x] is entered before the first file whose key is not below its
    own. *)
Fixpoint insert_by (key : list (list ascii) -> list ascii) (x : list (list ascii))
    (files : list (list (list ascii))) : list (list (list ascii)) :=
  match files with
  | [] => [x]
  | y :: rest =>
      if str_ltb (key y) (key x) then y :: insert_by key x rest else x :: files
  end.

Definition sorted (key : list (list ascii) -> list ascii) (files : list (list (list ascii)))
    : list (list (list ascii)) :=
  foldr (insert_by key) [] files.

(** The key of the sort: [p.as_posix().lower()]. *)
Definition sort_key (p : list (list ascii)) : list ascii := lower (as_posix_abs p).

Definition find_all_markdowns (folder : list (list ascii)) : list (list (list ascii)) :=
  let files := List.filter is_markdown (rglob folder) in
  sorted sort_key files.

End Scan.

(** [for i, p in enumerate(files)]: the rotation at the first file that
    resolves to [start_res], or [None] when the loop ends. *)
Fixpoint rotate_loop (start_res : list (list ascii)) (rest files : list (list (list ascii)))
    (i : nat) : res (option (list (list (list ascii)))) :=
  match rest with
  | [] => Ok None
  | p :: rest' =>
      do r <- resolve p;
      if decide (r = start_res) then Ok (Some (drop i files ++ take i files))
      else rotate_loop start_res rest' files (S i)
  end.

Definition rotate_start (files : list (list (list ascii))) (start : list (list ascii))
    : res (list (list (list ascii))) :=
  do start_res <- resolve start;
  do found <- rotate_loop start_res files files 0;
  match found with
  | Some rotated => Ok rotated
  | None =>
      do _ <- die (A := unit) (py "start file not found in folder scan: " ++ as_posix_abs start);
      Ok files
  end.

(** ** Notions for the further properties *)

(** A character of a slug: a lower-case letter, a digit or a hyphen. *)
Definition slug_out (c : ascii) : bool := is_lower_az c || is_digit c || chr_eqb c "-".

(** A text in the form [slugify] returns: not empty, made of letters,
    digits and hyphens, with no hyphen at either end and no two in a row. *)
Definition is_slug (t : list ascii) : bool :=
  negb (str_eqb t []) && forallb slug_out t
  && negb (startswith t (py "-")) && negb (endswith t (py "-"))
  && negb (contains t (py "--")).

(** The ids successive calls of [make_unique_id] return, one call for each
    base in turn. *)
Fixpoint issue_ids (heading_counts : gmap (list ascii) nat) (bases : list (list ascii))
    : list (list ascii) :=
  match bases with
  | [] => []
  | base :: rest =>
      let '(heading_counts, hid) := make_unique_id heading_counts base in
      hid :: issue_ids heading_counts rest
  end.

(** The bases [rewrite_heading_line] passes to [make_unique_id] over the
    lines of one document. *)
Fixpoint heading_bases (file_slug : list ascii) (lines : list (list ascii))
    : list (list ascii) :=
  match lines with
  | [] => []
  | line :: rest =>
      match re_match ATX_HEADING_RE line with
      | None => heading_bases file_slug rest
      | Some m =>
          if contains (group_str m 2) (py "{#") then heading_bases file_slug rest
          else (file_slug ++ py "-" ++ slugify (strip (group_str m 2)))
                 :: heading_bases file_slug rest
      end
  end.

(** How often [b] stands in [l]. *)
Fixpoint occurrences (b : list ascii) (l : list (list ascii)) : nat :=
  match l with
  | [] => 0
  | x :: l' => (if str_eqb b x then 1 else 0) + occurrences b l'
  end.

(** The id of the [n]-th heading with the base [base]. *)
Definition nth_id (base : list ascii) (n : nat) : list ascii :=
  if n =? 1 then base else base ++ py "-" ++ str_of_nat n.

(** No line of the text starts with [flowchart] or [graph]; [prev] is the
    character before the text. *)
Fixpoint no_directive (prev : option ascii) (s : list ascii) : bool :=
  match s with
  | [] => true
  | c :: s' =>
      negb (match prev with None => true | Some p => chr_eqb p nl end
            && (startswith s (py "flowchart") || startswith s (py "graph")))
      && no_directive (Some c) s'
  end.

(** No file stands before a file with a smaller key. *)
Fixpoint ordered (key : list (list ascii) -> list ascii) (files : list (list (list ascii)))
    : bool :=
  match files with
  | [] => true
  | x :: rest =>
      forallb (fun y => negb (str_ltb (key y) (key x))) rest && ordered key rest
  end.

(** The parts of the combined text: the texts of the documents with a page
    break before each one but the first. *)
Definition with_breaks (texts : list (list ascii)) : list (list ascii) :=
  match texts with
  | [] => []
  | t :: rest => t :: flat_map (fun u => [page_break; u]) rest
  end.

(** The text of a block as the rule of the edge labels receives it:
    stripped, with the direction rewritten and the escapes replaced. *)
Definition edge_input (flow_direction : option direction) (block : list (list ascii))
    : list ascii :=
  let mermaid_src := strip (join [nl] block) ++ [nl] in
  replace_escapes
    match flow_direction with
    | Some d => rewrite_direction d mermaid_src
    | None => mermaid_src
    end.

(** What the pattern of the links does at a [[], read from the text after
    the bracket: it fails whatever may follow the text, it matches the
    bracket and the [n] characters after it, or the text does not settle
    it (the text ends before the closing parenthesis, or the target is
    empty). *)
Inductive link_scan : Type :=
| NoLink
| Link (n : nat)
| Unsettled.

Fixpoint scan_target (s : list ascii) (n : nat) (seen : bool) : link_scan :=
  match s with
  | [] => Unsettled
  | c :: s' =>
      if chr_eqb c ")" then (if seen then Link (S n) else Unsettled)
      else scan_target s' (S n) true
  end.

Fixpoint scan_label (s : list ascii) (n : nat) (seen : bool) : link_scan :=
  match s with
  | [] => Unsettled
  | c :: s' =>
      if chr_eqb c "]" then
        if seen then
          match s' with
          | d :: s'' => if chr_eqb d "(" then scan_target s'' (S (S n)) false else NoLink
          | [] => Unsettled
          end
        else NoLink
      else scan_label s' (S n) true
  end.

(** Every link of the text is closed in the text: at each [[] the pattern
    is settled by what the text holds; [skip] characters belong to a link
    that was found. *)
Fixpoint links_closed_from (skip : nat) (s : list ascii) : bool :=
  match s with
  | [] => skip =? 0
  | c :: s' =>
      match skip with
      | S k => links_closed_from k s'
      | O =>
          if chr_eqb c "[" then
            match scan_label s' 0 false with
            | NoLink => links_closed_from 0 s'
            | Link n => links_closed_from n s'
            | Unsettled => false
            end
          else links_closed_from 0 s'
      end
  end.

Definition links_closed (s : list ascii) : bool := links_closed_from 0 s.

(** A line whose links end with it: a line of the heading grammar holds no
    [[], and on any other line every link is closed before the line feed. *)
Definition calm (line : list ascii) : bool :=
  if re_test ATX_HEADING_RE line then negb (has_char "[" line)
  else links_closed (line ++ [nl]).

(** The lines of a text, each ended by a line feed. *)
Definition text_of (lines : list (list ascii)) : list ascii :=
  flat_map (fun l => l ++ [nl]) lines.

(** What a pattern of the labels does at a place of a text, read from the
    place on: it fails whatever may follow the text, it matches the [n]
    characters from the place on, or the text does not settle it. *)
Inductive label_scan : Type :=
| NoLabel
| Label (n : nat)
| OpenLabel.

(** A label after its opening character, up to the character that closes
    it; [n] characters of the attempt are read, [seen] tells whether the
    label has a character. *)
Fixpoint scan_until (close : ascii) (s : list ascii) (n : nat) (seen : bool) : label_scan :=
  match s with
  | [] => OpenLabel
  | c :: s' =>
      if chr_eqb c close then (if seen then Label (S n) else NoLabel)
      else scan_until close s' (S n) true
  end.

(** The pattern of the edge labels after [d] dashes. *)
Fixpoint scan_arrow (s : list ascii) (d : nat) : label_scan :=
  match s with
  | [] => OpenLabel
  | c :: s' =>
      if chr_eqb c "-" then scan_arrow s' (S d)
      else if d <? 2 then NoLabel
      else if chr_eqb c "|" then scan_until "|" s' (S d) false
      else if chr_eqb c ">" then
        match s' with
        | [] => OpenLabel
        | e :: s'' => if chr_eqb e "|" then scan_until "|" s'' (S (S d)) false else NoLabel
        end
      else NoLabel
  end.

Definition scan_edge (s : list ascii) : label_scan := scan_arrow s 0.

(** The pattern of the node labels after [w] characters of an identifier,
    in a text that is followed by no such character and by no [[]. *)
Fixpoint scan_ident (s : list ascii) (w : nat) : label_scan :=
  match s with
  | [] => NoLabel
  | c :: s' =>
      if chr_eqb c "[" then scan_until "]" s' (S w) false
      else if is_word c then scan_ident s' (S w)
      else NoLabel
  end.

Definition scan_node (s : list ascii) : label_scan := scan_ident s 0.

(** No label is left open at the end of the text: at each place the
    substitution comes to, the pattern is settled by what the text holds;
    [skip] characters belong to a label that was found. *)
Fixpoint labels_closed_from (scan : list ascii -> label_scan) (skip : nat) (s : list ascii)
    : bool :=
  match s with
  | [] => skip =? 0
  | c :: s' =>
      match skip with
      | S k => labels_closed_from scan k s'
      | O =>
          match scan s with
          | NoLabel => labels_closed_from scan 0 s'
          | Label n => labels_closed_from scan (Nat.pred n) s'
          | OpenLabel => false
          end
      end
  end.

Definition labels_closed (scan : list ascii -> label_scan) (s : list ascii) : bool :=
  labels_closed_from scan 0 s.

(** * Properties *)

(** ** The model on examples

    The values below are those CPython 3.11 gives for the same inputs. *)

Example slugify_examples :
  slugify (py "  Hello,  <b>World</b> -- `x_y` (2)! ") = py "hello-world-xy-2"
  /\ slugify (py "docs/a.md") = py "docsamd"
  /\ slugify (py "docs a.md") = py "docs-amd"
  /\ slugify (py "<a<b>c>d") = py "cd"
  /\ slugify (py "A <> B < c > D") = py "a-b-d"
  /\ slugify (py " - - ") = py "section".
Proof. vm_compute. repeat split. Qed.

Example heading_pattern_examples :
  map (fun s => option_map (fun m => (group m 1, group m 2)) (re_match ATX_HEADING_RE (py s)))
    ["# a"; "#a"; "###### x y  "; "####### x"; "##  {#id} t"; "# a # b #"; " # a"; "# "; "#  "]%string
  = [Some (Some (py "#"), Some (py "a")); None;
     Some (Some (py "######"), Some (py "x y")); None;
     Some (Some (py "##"), Some (py "{#id} t"));
     Some (Some (py "#"), Some (py "a # b #")); None; None;
     Some (Some (py "#"), Some (py " "))].
Proof. vm_compute. reflexivity. Qed.

Example fence_pattern_examples :
  map (re_test MERMAID_FENCE_RE) [py "```mermaid"; py "```MerMaid  "; py "```mermaid x";
                                  py " ```mermaid"; py "````mermaid"]
  = [true; true; false; false; false]
  /\ map (re_test FENCE_END_RE) [py "```"; py "```  "; py "````"; py " ```"; py "```x"]
     = [true; true; false; false; false].
Proof. vm_compute. split; reflexivity. Qed.

Example looks_like_url_examples :
  map (fun s => looks_like_url (py s))
    ["http://x"; "mailto:a"; "a.md"; "x+y-z.1://"; "1a://"; "a:/b"; "://"]%string
  = [true; true; false; true; false; false; false].
Proof. vm_compute. reflexivity. Qed.

Example splitlines_examples :
  splitlines (py "a" ++ [ascii_of_nat 13; nl] ++ py "b" ++ [ascii_of_nat 13] ++ py "c"
              ++ [nl; nl] ++ py "d")
  = [py "a"; py "b"; py "c"; []; py "d"]
  /\ splitlines (py "x" ++ [nl]) = [py "x"]
  /\ splitlines [nl] = [[]]
  /\ splitlines [] = [].
Proof. vm_compute. repeat split. Qed.

Example path_name_examples :
  map (fun s => path_name (py s))
    ["a/b.md"; "a/b.md/"; "a/."; "a/.."; "/"; "."; ""; "x//y"; "b.md"]%string
  = [py "b.md"; py "b.md"; py "a"; py ".."; []; []; []; py "y"; py "b.md"].
Proof. vm_compute. reflexivity. Qed.

Example sha1_examples :
  SHA1.hexdigest (py "abc") = py "a9993e364706816aba3e25717850c26c9cd0d89d"
  /\ SHA1.hexdigest [] = py "da39a3ee5e6b4b0d3255bfef95601890afd80709"
  /\ SHA1.hexdigest (py "abcdbcdecdefdefgefghfghighijhijkijkljklmklmnlmnomnopnopq")
     = py "84983e441c3bd26ebaae4aa1f95129e5e54670f1"
  /\ SHA1.hexdigest (repeat "x"%char 200 ++ [ascii_of_nat 233; ascii_of_nat 200])
     = py "38e2091cb8c2267e214a80ec03bff55e4217f8e5".
Proof. vm_compute. repeat split. Qed.

(** The repairs on lines where the patterns overlap or fail. *)
Example normalize_block_examples :
  normalize_block (Some LR)
    [py "   "; py "graph TD";
     py "A -->|ok (x)| B[foo (bar)]";
     py "x-->-->|l (x)| y[(db)] ---->|w)| E -.->|(|";
     py "C --|z| D" ++ backslash :: py "n  (a) " ++ backslash :: py "nb";
     py "flowchart   TDx"; py "graph 	TB;";
     py "-->|a -->|b (c)| a_b1[(]"; py "  "]
  = unlines
      [py "graph LR";
       py "A -->|" ++ [dquote] ++ py "ok (x)" ++ [dquote] ++ py "| B[" ++ [dquote]
         ++ py "foo (bar)" ++ [dquote] ++ py "]";
       py "x-->-->|" ++ [dquote] ++ py "l (x)" ++ [dquote] ++ py "| y[" ++ [dquote]
         ++ py "(db)" ++ [dquote] ++ py "] ---->|" ++ [dquote] ++ py "w)" ++ [dquote]
         ++ py "| E -.->|(|";
       py "C --|z| D (a)  b";
       py "flowchart   TDx"; py "graph LR;";
       py "-->|a -->|b (c)| a_b1[" ++ [dquote] ++ py "(" ++ [dquote] ++ py "]"; []].
Proof. vm_compute. reflexivity. Qed.

(** The example of the specification: [a.md] holds a heading, [b.md] a link
    to it. *)
Example corpus_example :
  let folder := [py "home"; py "docs"] in
  combined_md (fun _ _ => true) folder [py "tmp"] 800 600 None
    [Document (folder ++ [py "a.md"]) (py "# Intro" ++ [nl]);
     Document (folder ++ [py "b.md"]) (py "[see](a.md#intro)" ++ [nl])]
  = Ok (unlines [py "[]{#amd-5d48a79a}"; []; py "# Intro {#amd-5d48a79a-intro}"; [];
                 []; py "```{=latex}"; backslash :: py "newpage"; py "```"; [];
                 py "[]{#bmd-bb801cb4}"; []; py "[see](#amd-5d48a79a-intro)"; []]).
Proof. vm_compute. reflexivity. Qed.

(** ** Strings and paths *)

Lemma chr_eqb_eq (a b : ascii) : chr_eqb a b = true <-> a = b.
Proof. unfold chr_eqb. apply Ascii.eqb_eq. Qed.

Lemma chr_eqb_refl (a : ascii) : chr_eqb a a = true.
Proof. by apply chr_eqb_eq. Qed.

Lemma str_eqb_eq (a b : list ascii) : str_eqb a b = true <-> a = b.
Proof.
  revert b. induction a as [|x a IH]; intros [|y b]; simpl; try (split; congruence).
  rewrite andb_true_iff, chr_eqb_eq, IH. split; [intros [-> ->]; done | intros [= -> ->]; done].
Qed.

Lemma str_eqb_refl (a : list ascii) : str_eqb a a = true.
Proof. by apply str_eqb_eq. Qed.

Lemma normalize_parts_plain (acc parts : list (list ascii)) :
  forallb plain_part parts = true ->
  normalize_parts acc parts = rev acc ++ parts.
Proof.
  revert acc. induction parts as [|c parts IH]; intros acc H;
    cbn [normalize_parts forallb] in *.
  - by rewrite app_nil_r.
  - apply andb_true_iff in H as [Hc H].
    unfold plain_part in Hc. apply andb_true_iff in Hc as [Hc Hdot].
    apply andb_true_iff in Hc as [_ Hdd].
    apply negb_true_iff in Hdot, Hdd. rewrite Hdd, Hdot.
    rewrite IH by done. cbn [rev]. by rewrite <- app_assoc.
Qed.

Lemma plain_no_nul (parts : list (list ascii)) :
  forallb plain_part parts = true -> existsb has_nul parts = false.
Proof.
  induction parts as [|c parts IH]; simpl; [done|].
  intros H. apply andb_true_iff in H as [Hc H]. rewrite IH by done.
  unfold plain_part in Hc. apply andb_true_iff in Hc as [Hc _].
  apply andb_true_iff in Hc as [Hc _]. apply negb_true_iff in Hc. by rewrite Hc.
Qed.

Lemma resolve_plain (p : list (list ascii)) :
  forallb plain_part p = true -> resolve p = Ok p.
Proof.
  intros H. unfold resolve. rewrite plain_no_nul by done.
  by rewrite normalize_parts_plain.
Qed.

Lemma is_prefix_app (root rel : list (list ascii)) : is_prefix root (root ++ rel) = true.
Proof. induction root as [|r root IH]; simpl; [done|]. by rewrite str_eqb_refl. Qed.

Lemma relative_to_app (root rel : list (list ascii)) : relative_to (root ++ rel) root = Ok rel.
Proof. unfold relative_to. by rewrite is_prefix_app, drop_app_length. Qed.

Lemma forallb_app_true {A : Type} (f : A -> bool) (l k : list A) :
  forallb f l = true -> forallb f k = true -> forallb f (l ++ k) = true.
Proof. intros Hl Hk. rewrite forallb_app. by rewrite Hl, Hk. Qed.

(** ** The hash *)

Lemma hex_length (k : nat) (x : Z) : length (SHA1.hex k x) = k.
Proof. induction k as [|k IH]; simpl; [done | by rewrite IH]. Qed.

Lemma hexdigest_length (s : list ascii) : length (SHA1.hexdigest s) = 40.
Proof.
  unfold SHA1.hexdigest, SHA1.digest_words.
  destruct (fold_left _ _ _) as [[[[h0 h1] h2] h3] h4].
  cbn [flat_map]. rewrite !length_app, !hex_length. done.
Qed.

Lemma hash8_length (s : list ascii) : length (take 8 (SHA1.hexdigest s)) = 8.
Proof. rewrite length_take, hexdigest_length. done. Qed.

(** ** C3: the slug of a document *)

(** C3, as the program has it: the slug of a document under the root is the
    slugified relative path, its separators turned into spaces first, then a
    hyphen and the first 8 hexadecimal digits of the SHA-1 of the relative
    path.  It depends on the relative path alone, and two relative paths get
    the same slug exactly when they agree on both parts. *)
Theorem safe_file_slug_of_relative_path (root rel : list (list ascii)) :
  forallb plain_part root = true ->
  forallb plain_part rel = true ->
  safe_file_slug root (root ++ rel)
  = Ok (slugify (replace_char "/" " " (as_posix_rel rel))
        ++ py "-" ++ take 8 (SHA1.hexdigest (as_posix_rel rel)))
  /\ forall r1 r2 : list ascii,
       slug_of_rel r1 = slug_of_rel r2
       <-> slugify (replace_char "/" " " r1) = slugify (replace_char "/" " " r2)
           /\ take 8 (SHA1.hexdigest r1) = take 8 (SHA1.hexdigest r2).
Proof.
  intros Hroot Hrel. split.
  - unfold safe_file_slug.
    rewrite (resolve_plain (root ++ rel)) by (by apply forallb_app_true).
    simpl. rewrite (resolve_plain root) by done. simpl.
    by rewrite relative_to_app.
  - intros r1 r2. unfold slug_of_rel. split.
    + intros H. rewrite !app_assoc in H.
      apply app_inj_2 in H as [H1 H2]; [|by rewrite !hash8_length].
      apply app_inj_tail in H1 as [H1 _]. done.
    + by intros [-> ->].
Qed.

Lemma safe_file_slug_of_relative_path_witness :
  safe_file_slug [py "home"; py "docs"] ([py "home"; py "docs"] ++ [py "sub"; py "b.md"])
  = Ok (py "sub-bmd-3f7457b5").
Proof.
  destruct (safe_file_slug_of_relative_path [py "home"; py "docs"] [py "sub"; py "b.md"])
    as [H _]; [reflexivity | reflexivity |].
  rewrite H. vm_compute. reflexivity.
Defined.

(** C3 as the specification words it fails twice: the base is not the slug
    of the path itself once the path has a separator, and two distinct
    relative paths can share a slug. *)
Lemma slug_formula_and_collision :
  safe_file_slug [py "corpus"] [py "corpus"; py "docs"; py "a.md"]
  <> Ok (slugify (py "docs/a.md") ++ py "-" ++ take 8 (SHA1.hexdigest (py "docs/a.md")))
  /\ py "reLEaSenOTeSarchive.md" <> py "rEleaSEnOTesarChIve.md"
  /\ safe_file_slug [py "corpus"] [py "corpus"; py "reLEaSenOTeSarchive.md"]
     = safe_file_slug [py "corpus"] [py "corpus"; py "rEleaSEnOTesarChIve.md"].
Proof.
  split; [|split].
  - vm_compute. discriminate.
  - vm_compute. discriminate.
  - vm_compute. reflexivity.
Qed.

(** ** C6: the order of the repairs *)

(** C6, as the program has it: the direction is rewritten first, on the
    stripped text of the block, and the escapes, the edge labels and the
    node labels follow in that order; without an override this is the order
    of the specification. *)
Theorem direction_is_rewritten_first (flow_direction : option direction)
    (block : list (list ascii)) :
  normalize_block flow_direction block
  = repair (match flow_direction with
            | Some d => rewrite_direction d (strip (join [nl] block) ++ [nl])
            | None => strip (join [nl] block) ++ [nl]
            end)
  /\ normalize_block None block = normalize_block_spec_order None block.
Proof. split; [by destruct flow_direction | reflexivity]. Qed.

(** The order of the specification gives another text: a directive that
    the escape rule completes is rewritten only if the direction comes
    last. *)
Lemma spec_order_differs :
  normalize_block (Some LR) [py "graph" ++ backslash :: py "nTD"; py "A-->B"]
  = unlines [py "graph TD"; py "A-->B"; []]
  /\ normalize_block_spec_order (Some LR) [py "graph" ++ backslash :: py "nTD"; py "A-->B"]
     = unlines [py "graph LR"; py "A-->B"; []]
  /\ normalize_block (Some LR) [py "graph" ++ backslash :: py "nTD"; py "A-->B"]
     <> normalize_block_spec_order (Some LR) [py "graph" ++ backslash :: py "nTD"; py "A-->B"].
Proof. split; [|split]; vm_compute; [reflexivity | reflexivity | discriminate]. Qed.

(** ** C8: node labels *)

(** C8 fails on a label without identifier: the group of the identifier
    took no part in the match, and its value [None] is printed in front of
    the label. *)
Theorem node_label_without_identifier :
  quote_node_labels (py "[Start (now)] --> B")
  = py "None[" ++ [dquote] ++ py "Start (now)" ++ [dquote] ++ py "] --> B"
  /\ normalize_block None
       [py "flowchart TB"; py "    subgraph ide1 [Setup (local)]"; py "    a1-->a2"; py "    end"]
     = unlines [py "flowchart TB";
                py "    subgraph ide1 None[" ++ [dquote] ++ py "Setup (local)" ++ [dquote]
                ++ py "]";
                py "    a1-->a2"; py "    end"; []]
  /\ quote_node_labels (py "A[Start (now)] --> B")
     = py "A[" ++ [dquote] ++ py "Start (now)" ++ [dquote] ++ py "] --> B".
Proof. split; [|split]; vm_compute; reflexivity. Qed.

(** ** C1: the anchors of a corpus *)

(** C1 fails inside one document: the third heading gets the id the counter
    gave to the second. *)
Theorem repeated_heading_id :
  let folder := [py "home"; py "docs"] in
  let docs := [Document (folder ++ [py "notes.md"])
                 (unlines [py "# Setup"; py "# Setup"; py "# Setup 2"; []])] in
  let mmdc := fun _ _ => true in
  corpus_anchor_ids mmdc folder [py "tmp"] 800 600 None docs
  = Ok [py "notesmd-12dfac2a"; py "notesmd-12dfac2a-setup";
        py "notesmd-12dfac2a-setup-2"; py "notesmd-12dfac2a-setup-2"]
  /\ combined_md mmdc folder [py "tmp"] 800 600 None docs
     = Ok (unlines [py "[]{#notesmd-12dfac2a}"; [];
                    py "# Setup {#notesmd-12dfac2a-setup}";
                    py "# Setup {#notesmd-12dfac2a-setup-2}";
                    py "# Setup 2 {#notesmd-12dfac2a-setup-2}"; []])
  /\ ~ NoDup [py "notesmd-12dfac2a"; py "notesmd-12dfac2a-setup";
              py "notesmd-12dfac2a-setup-2"; py "notesmd-12dfac2a-setup-2"].
Proof.
  cbv zeta. split; [|split].
  - vm_compute. reflexivity.
  - vm_compute. reflexivity.
  - intros H. apply NoDup_cons_1_2 in H. apply NoDup_cons_1_2 in H.
    apply NoDup_cons_1_1 in H. apply H. left.
Qed.

(** ** Link resolution *)

Section LinkFacts.

Variable tbl : gmap (list ascii) (list ascii).
Variable folder_root : list (list ascii).
Variable current_file : list (list ascii).

Lemma resolve_raises (p : list (list ascii)) (e : exn) :
  resolve p = Raise e -> is_ValueError e = true.
Proof. unfold resolve. destruct (existsb _ _); [intros [= <-]; done | done]. Qed.

Lemma relative_to_raises (p root : list (list ascii)) (e : exn) :
  relative_to p root = Raise e -> is_ValueError e = true.
Proof. unfold relative_to. destruct (is_prefix _ _); [done | intros [= <-]; done]. Qed.

(** The second strategy, whatever [resolve] and [relative_to] do. *)
Lemma try_relative_spec (path_part : list ascii) (linked_slug : option (list ascii)) :
  try_relative tbl folder_root current_file path_part linked_slug
  = Ok (if truthy linked_slug then linked_slug
        else match by_relative folder_root current_file path_part with
             | Some rel => tbl !! rel
             | None => linked_slug
             end).
Proof.
  unfold try_relative, by_relative.
  destruct (truthy linked_slug); [done|].
  destruct (is_absolute _); [done|]. cbn [negb andb].
  destruct (resolve (joinpath _ _)) as [resolved|e] eqn:Hres; cbn [res_bind try_except].
  - destruct (resolve folder_root) as [root|e] eqn:Hroot; cbn [res_bind try_except].
    + destruct (relative_to resolved root) as [rel|e] eqn:Hrel; cbn [res_bind try_except].
      * done.
      * by rewrite (relative_to_raises _ _ _ Hrel).
    + by rewrite (resolve_raises _ _ Hroot).
  - apply resolve_raises in Hres. destruct e; done.
Qed.

Lemma truthy_lookup (rel s : list ascii) :
  slugs_nonempty tbl -> tbl !! rel = Some s -> truthy (Some s) = true.
Proof. intros Hne H. destruct s; [by destruct (Hne _ _ H) | done]. Qed.

Lemma try_filename_spec (path_part : list ascii) (linked_slug : option (list ascii)) :
  truthy linked_slug = false ->
  try_filename tbl (replace_char backslash "/" path_part) linked_slug
  = match by_filename tbl path_part with
    | Some rel => tbl !! rel
    | None => linked_slug
    end.
Proof.
  intros Hf. unfold try_filename, by_filename, same_name. rewrite Hf. cbn [negb andb].
  destruct (has_char _ _); [|done].
  destruct (filter _ _) as [|rel [|rel' l]]; done.
Qed.

Lemma try_without_prefix_found (p : list ascii) (linked_slug : option (list ascii)) :
  truthy linked_slug = true ->
  try_without_prefix tbl folder_root p linked_slug = linked_slug.
Proof. intros H. unfold try_without_prefix. by rewrite H. Qed.

Lemma try_filename_found (p : list ascii) (linked_slug : option (list ascii)) :
  truthy linked_slug = true -> try_filename tbl p linked_slug = linked_slug.
Proof. intros H. unfold try_filename. by rewrite H. Qed.

Lemma try_without_prefix_spec (path_part : list ascii) (linked_slug : option (list ascii)) :
  truthy linked_slug = false ->
  try_without_prefix tbl folder_root (replace_char backslash "/" path_part) linked_slug
  = match by_prefix folder_root path_part with
    | Some rel => tbl !! rel
    | None => linked_slug
    end.
Proof.
  intros Hf. unfold try_without_prefix, by_prefix. rewrite Hf. cbn [negb].
  by destruct (startswith _ _).
Qed.

(** With the slugs of [main] in the table, the chain of the program is
    the first match of the four strategies. *)
Lemma find_slug_first_match (path_part : list ascii) :
  slugs_nonempty tbl ->
  find_slug tbl folder_root current_file path_part
  = Ok (first_match tbl folder_root current_file path_part).
Proof.
  intros Hne. unfold find_slug, first_match.
  rewrite try_relative_spec. cbn [res_bind]. f_equal.
  unfold by_exact, slug_at.
  destruct (tbl !! replace_char backslash "/" path_part) as [s|] eqn:H1.
  { assert (Ht : truthy (Some s) = true) by (by eapply truthy_lookup).
    rewrite Ht. by rewrite try_without_prefix_found, try_filename_found. }
  cbn [truthy].
  assert (Hlast : forall o, truthy o = false -> o = None ->
            try_filename tbl (replace_char backslash "/" path_part) o
            = match by_filename tbl path_part with
              | Some r => tbl !! r
              | None => None
              end).
  { intros o Ho ->. rewrite try_filename_spec by done.
    by destruct (by_filename tbl path_part). }
  assert (Hmid : try_filename tbl (replace_char backslash "/" path_part)
                   (try_without_prefix tbl folder_root
                      (replace_char backslash "/" path_part) None)
                 = match match by_prefix folder_root path_part with
                         | Some r => tbl !! r
                         | None => None
                         end with
                   | Some s => Some s
                   | None => match by_filename tbl path_part with
                             | Some r => tbl !! r
                             | None => None
                             end
                   end).
  { rewrite try_without_prefix_spec by done.
    destruct (by_prefix folder_root path_part) as [rel3|]; [|by apply Hlast].
    destruct (tbl !! rel3) as [s|] eqn:H3; [|by apply Hlast].
    by rewrite try_filename_found by (by eapply truthy_lookup). }
  destruct (by_relative folder_root current_file path_part) as [rel2|]; [|done].
  destruct (tbl !! rel2) as [s|] eqn:H2; [|done].
  assert (Ht : truthy (Some s) = true) by (by eapply truthy_lookup).
  by rewrite try_without_prefix_found, try_filename_found.
Qed.

(** When the four strategies all miss, the chain of the program ends
    with nothing, whatever the table holds. *)
Lemma find_slug_unresolved (path_part : list ascii) :
  first_match tbl folder_root current_file path_part = None ->
  find_slug tbl folder_root current_file path_part = Ok None.
Proof.
  unfold first_match, find_slug. rewrite try_relative_spec. cbn [res_bind].
  unfold by_exact, slug_at.
  destruct (tbl !! replace_char backslash "/" path_part) eqn:H1; [done|].
  cbn [truthy].
  assert (Hrest : match match by_prefix folder_root path_part with
                        | Some r => tbl !! r
                        | None => None
                        end with
                  | Some s => Some s
                  | None => match by_filename tbl path_part with
                            | Some r => tbl !! r
                            | None => None
                            end
                  end = None ->
            try_filename tbl (replace_char backslash "/" path_part)
              (try_without_prefix tbl folder_root
                 (replace_char backslash "/" path_part) None) = None).
  { rewrite try_without_prefix_spec by done.
    destruct (by_prefix folder_root path_part) as [rel3|].
    - destruct (tbl !! rel3) eqn:H3; [done|]. rewrite try_filename_spec by done.
      by destruct (by_filename tbl path_part).
    - rewrite try_filename_spec by done. by destruct (by_filename tbl path_part). }
  destruct (by_relative folder_root current_file path_part) as [rel2|].
  - destruct (tbl !! rel2) eqn:H2; [done|]. intros H. by rewrite Hrest.
  - intros H. by rewrite Hrest.
Qed.

Lemma find_slug_total (path_part : list ascii) :
  exists o, find_slug tbl folder_root current_file path_part = Ok o.
Proof. unfold find_slug. rewrite try_relative_spec. cbn [res_bind]. eauto. Qed.

(** [repl] in terms of the parts of the link. *)
Lemma repl_unfold (m : rmatch) :
  repl tbl folder_root current_file m
  = if candidate m then
      do linked_slug <- find_slug tbl folder_root current_file (link_path m);
      if truthy linked_slug
      then Ok (py "[" ++ link_label m ++ py "]("
               ++ anchor_of (default [] linked_slug) (link_frag m) ++ py ")")
      else Ok (m_text m)
    else Ok (m_text m).
Proof.
  unfold repl, candidate, link_path, link_frag, link_label.
  fold (link_target m).
  destruct (looks_like_url (link_target m)); [done|]. cbn [negb andb].
  destruct (split_link_target (link_target m)) as [path_part frag]. cbn [fst snd].
  destruct (str_eqb (strip path_part) []); [done|]. cbn [negb andb orb].
  destruct (startswith (strip path_part) (py "#")); [done|]. cbn [negb andb orb].
  destruct (is_md_path (strip path_part)); [|done]. cbn [negb].
  destruct (find_slug_total (strip path_part)) as [o ->]. cbn [res_bind].
  destruct (truthy o); [|done].
  unfold anchor_of. destruct frag; [done|].
  by rewrite <- !app_assoc.
Qed.

Lemma repl_total (m : rmatch) : exists s, repl tbl folder_root current_file m = Ok s.
Proof.
  rewrite repl_unfold. destruct (candidate m); [|eauto].
  destruct (find_slug_total (link_path m)) as [o ->]. cbn [res_bind].
  destruct (truthy o); eauto.
Qed.

End LinkFacts.

(** ** [re.sub] *)

Lemma match_at_text (r : regex) (prev : option ascii) (s : list ascii) (m : rmatch) :
  match_at r prev s = Some m -> exists n, m_text m = take n s.
Proof.
  unfold match_at. destruct (exec _ _ _) as [st|]; [|done].
  intros [= <-]. eauto.
Qed.

Lemma take_then_drop {A : Type} (n : nat) (s : list A) :
  take n s ++ drop (length (take n s)) s = s.
Proof.
  rewrite length_take. destruct (decide (n <= length s)) as [H|H].
  - rewrite Nat.min_l by done. apply take_drop.
  - rewrite Nat.min_r by lia. rewrite take_ge by lia. rewrite drop_all. apply app_nil_r.
Qed.

(** A replacement that never raises makes a substitution that never raises. *)
Lemma sub_from_res_total (r : regex) (f : rmatch -> res (list ascii)) :
  (forall m, exists x, f m = Ok x) ->
  forall s skip prev, exists out, sub_from_res r f skip prev s = Ok out.
Proof.
  intros Hf. induction s as [|c s IH]; intros skip prev; cbn [sub_from_res]; [eauto|].
  destruct skip as [|n]; [|apply IH].
  destruct (match_at r prev (c :: s)) as [m|].
  - destruct (m_text m) as [|c' t].
    + destruct (IH 0 (Some c)) as [out ->]. cbn. eauto.
    + destruct (Hf m) as [x ->]. destruct (IH (length t) (Some c)) as [out ->]. cbn. eauto.
  - destruct (IH 0 (Some c)) as [out ->]. cbn. eauto.
Qed.

(** A replacement that gives every match back leaves the text as it is. *)
Lemma sub_from_res_same (r : regex) (f : rmatch -> res (list ascii)) :
  (forall prev s m, match_at r prev s = Some m -> f m = Ok (m_text m)) ->
  forall s skip prev, sub_from_res r f skip prev s = Ok (drop skip s).
Proof.
  intros Hf. induction s as [|c s IH]; intros skip prev; cbn [sub_from_res].
  - by destruct skip.
  - destruct skip as [|n]; [|by rewrite IH].
    destruct (match_at r prev (c :: s)) as [m|] eqn:Hm.
    + destruct (match_at_text _ _ _ _ Hm) as [k Hk].
      rewrite (Hf _ _ _ Hm).
      destruct (m_text m) as [|c' t] eqn:Ht.
      * rewrite IH. done.
      * rewrite IH. cbn [res_bind]. rewrite drop_0. f_equal.
        destruct k as [|k]; [done|]. cbn [take] in Hk. injection Hk as -> ->.
        cbn [app]. f_equal. apply take_then_drop.
    + rewrite IH. done.
Qed.

(** Rewriting the links of a text never raises. *)
Lemma rewrite_links_total (tbl : gmap (list ascii) (list ascii))
    (folder_root current_file : list (list ascii)) (text : list ascii) :
  exists out, rewrite_links tbl folder_root current_file text = Ok out.
Proof. apply sub_from_res_total. apply repl_total. Qed.

(** ** The table of slugs *)

Lemma slug_of_rel_nonempty (rel : list ascii) : slug_of_rel rel <> [].
Proof.
  unfold slug_of_rel. intros H. apply (f_equal length) in H.
  rewrite !length_app in H. cbn in H. lia.
Qed.

Lemma slugs_nonempty_empty : slugs_nonempty ∅.
Proof. intros rel slug H. by rewrite lookup_empty in H. Qed.

Lemma slugs_nonempty_insert (tbl : gmap (list ascii) (list ascii)) (rel slug : list ascii) :
  slug <> [] -> slugs_nonempty tbl -> slugs_nonempty (<[rel := slug]> tbl).
Proof.
  intros Hs Ht rel' slug' H. destruct (decide (rel = rel')) as [->|Hne].
  - rewrite lookup_insert_eq in H. by injection H as <-.
  - rewrite lookup_insert_ne in H by done. by eapply Ht.
Qed.

Lemma safe_file_slug_nonempty (root p : list (list ascii)) (slug : list ascii) :
  safe_file_slug root p = Ok slug -> slug <> [].
Proof.
  unfold safe_file_slug.
  destruct (resolve p); [|done]. cbn [res_bind].
  destruct (resolve root); [|done]. cbn [res_bind].
  destruct (relative_to _ _); [|done]. cbn [res_bind].
  intros [= <-]. apply slug_of_rel_nonempty.
Qed.

(** The table [main] builds holds non-empty slugs only. *)
Lemma build_index_slugs_nonempty (folder : list (list ascii))
    (md_files : list (list (list ascii))) (tbl tbl' : gmap (list ascii) (list ascii)) :
  slugs_nonempty tbl -> build_index folder md_files tbl = Ok tbl' -> slugs_nonempty tbl'.
Proof.
  revert tbl. induction md_files as [|p rest IH]; intros tbl Hne; cbn [build_index].
  - by intros [= <-].
  - destruct (rel_of folder p) as [rel|]; [|done]. cbn [res_bind].
    destruct (safe_file_slug folder p) as [slug|] eqn:Hs; [|done]. cbn [res_bind].
    apply IH. apply slugs_nonempty_insert; [|done]. by eapply safe_file_slug_nonempty.
Qed.

(** In the table [main] builds, a document is filed under its path from the
    folder with the slug of that path. *)
Lemma build_index_slugs (folder : list (list ascii)) (md_files : list (list (list ascii)))
    (tbl tbl' : gmap (list ascii) (list ascii)) :
  resolve folder = Ok folder ->
  (forall rel slug, tbl !! rel = Some slug -> slug = slug_of_rel rel) ->
  build_index folder md_files tbl = Ok tbl' ->
  forall rel slug, tbl' !! rel = Some slug -> slug = slug_of_rel rel.
Proof.
  intros Hfolder. revert tbl. induction md_files as [|p rest IH]; intros tbl Htbl;
    cbn [build_index].
  - by intros [= <-].
  - unfold rel_of, safe_file_slug. rewrite Hfolder.
    destruct (resolve p) as [r|]; [|done]. cbn [res_bind].
    destruct (relative_to r folder) as [rel0|]; [|done]. cbn [res_bind].
    apply IH. intros rel slug H.
    destruct (decide (as_posix_rel rel0 = rel)) as [<-|Hne].
    + rewrite lookup_insert_eq in H. by injection H as <-.
    + rewrite lookup_insert_ne in H by done. by apply Htbl.
Qed.

(** ** The scan for Mermaid blocks *)

Section RenderFacts.

Variable mmdc : list ascii -> list (list ascii) -> bool.
Variable diagrams_dir : list (list ascii).
Variable diagram_key_prefix : list ascii.
Variable width height : Z.
Variable flow_direction : option direction.

Let loop := render_loop mmdc diagrams_dir diagram_key_prefix width height flow_direction.
Let block_out := render_block mmdc diagrams_dir diagram_key_prefix width height flow_direction.

(** Inside a block the lines are kept up to the closing fence. *)
Lemma render_loop_block (block acc : list (list ascii)) (cls : list ascii)
    (rest out_lines : list (list ascii)) (idx : nat) :
  forallb (fun l => negb (re_test FENCE_END_RE l)) block = true ->
  re_test FENCE_END_RE cls = true ->
  loop (block ++ cls :: rest) (Inside acc) out_lines idx
  = loop rest Outside (out_lines ++ [block_out idx (acc ++ block)]) (idx + 1).
Proof.
  subst loop block_out. revert acc.
  induction block as [|l block IH]; intros acc Hb Hc; cbn [app render_loop].
  - by rewrite Hc, app_nil_r.
  - cbn [forallb] in Hb. apply andb_true_iff in Hb as [Hl Hb].
    apply negb_true_iff in Hl. rewrite Hl, IH by done. by rewrite <- app_assoc.
Qed.

(** A scan that ends inside a block dies. *)
Lemma render_loop_open (lines : list (list ascii)) (st : scan_state)
    (out_lines : list (list ascii)) (idx : nat) :
  fence_left_open (is_inside st) lines = true ->
  loop lines st out_lines idx = die (py "unterminated ```mermaid block").
Proof.
  subst loop. revert st out_lines idx.
  induction lines as [|l lines IH]; intros st out_lines idx H;
    cbn [render_loop fence_left_open] in *.
  - by destruct st.
  - destruct st as [|block]; cbn [is_inside] in H.
    + destruct (re_test MERMAID_FENCE_RE l); by apply IH.
    + destruct (re_test FENCE_END_RE l); by apply IH.
Qed.

(** A scan that ends outside returns, whatever the renderer does. *)
Lemma render_loop_closed (lines : list (list ascii)) (st : scan_state)
    (out_lines : list (list ascii)) (idx : nat) :
  fence_left_open (is_inside st) lines = false ->
  exists out, loop lines st out_lines idx = Ok out.
Proof.
  subst loop. revert st out_lines idx.
  induction lines as [|l lines IH]; intros st out_lines idx H;
    cbn [render_loop fence_left_open] in *.
  - destruct st; [eauto | done].
  - destruct st as [|block]; cbn [is_inside] in H.
    + destruct (re_test MERMAID_FENCE_RE l); by apply IH.
    + destruct (re_test FENCE_END_RE l); by apply IH.
Qed.

End RenderFacts.

(** ** A run that returns *)

Lemma rel_of_in_folder (folder rel : list (list ascii)) :
  forallb plain_part folder = true ->
  forallb plain_part rel = true ->
  rel_of folder (folder ++ rel) = Ok (as_posix_rel rel)
  /\ safe_file_slug folder (folder ++ rel) = Ok (slug_of_rel (as_posix_rel rel)).
Proof.
  intros Hf Hr. unfold rel_of, safe_file_slug.
  rewrite (resolve_plain (folder ++ rel)) by (by apply forallb_app_true).
  rewrite (resolve_plain folder) by done. cbn [res_bind].
  by rewrite relative_to_app.
Qed.

(** The table of a corpus under the folder holds every file of the corpus. *)
Lemma build_index_total (folder : list (list ascii)) (md_files : list (list (list ascii)))
    (tbl : gmap (list ascii) (list ascii)) :
  forallb plain_part folder = true ->
  Forall (in_folder folder) md_files ->
  exists tbl',
    build_index folder md_files tbl = Ok tbl'
    /\ (forall k, is_Some (tbl !! k) -> is_Some (tbl' !! k))
    /\ (forall p rel, p ∈ md_files -> rel_of folder p = Ok rel -> is_Some (tbl' !! rel)).
Proof.
  intros Hf Hfiles. revert tbl.
  induction Hfiles as [|p rest (rel0 & -> & Hrel0) Hrest IH]; intros tbl; cbn [build_index].
  - exists tbl. split; [done|]. split; [done|]. intros p rel Hin. by apply elem_of_nil in Hin.
  - destruct (rel_of_in_folder folder rel0 Hf Hrel0) as [Hrel Hslug].
    rewrite Hrel, Hslug. cbn [res_bind].
    destruct (IH (<[as_posix_rel rel0 := slug_of_rel (as_posix_rel rel0)]> tbl))
      as (tbl' & Hb & Hkeep & Hall).
    exists tbl'. split; [done|]. split.
    + intros k Hk. apply Hkeep. destruct (decide (as_posix_rel rel0 = k)) as [<-|Hne].
      * rewrite lookup_insert_eq. eauto.
      * by rewrite lookup_insert_ne.
    + intros p rel Hin Hp. apply elem_of_cons in Hin as [->|Hin]; [|by eapply Hall].
      rewrite Hrel in Hp. injection Hp as <-. apply Hkeep.
      rewrite lookup_insert_eq. eauto.
Qed.

Section RunReturns.

Variable mmdc : list ascii -> list (list ascii) -> bool.
Variable folder tmpdir : list (list ascii).
Variable scaled_width scaled_height : Z.
Variable flow_direction : option direction.

Lemma process_all_total (tbl : gmap (list ascii) (list ascii)) (docs : list document)
    (idx : nat) :
  forallb plain_part folder = true ->
  Forall (fun d => in_folder folder (md_path d)
                   /\ fence_left_open false (splitlines (md_text d)) = false) docs ->
  (forall d rel, d ∈ docs -> rel_of folder (md_path d) = Ok rel -> is_Some (tbl !! rel)) ->
  exists r, process_all mmdc folder tmpdir scaled_width scaled_height flow_direction
              tbl idx docs = Ok r.
Proof.
  intros Hf Hdocs. revert idx.
  induction Hdocs as [|d rest [(rel0 & Hp & Hrel0) Hclosed] Hrest IH]; intros idx Htbl;
    cbn [process_all]; [eauto|].
  destruct (rel_of_in_folder folder rel0 Hf Hrel0) as [Hrel _].
  unfold process_document. rewrite Hp, Hrel. cbn [res_bind].
  destruct (Htbl d (as_posix_rel rel0)) as [slug Hslug].
  { apply elem_of_cons. by left. }
  { by rewrite Hp. }
  unfold getitem. rewrite Hslug. cbn [res_bind].
  unfold render_mermaid_blocks.
  destruct (render_loop_closed mmdc (tmpdir ++ [py "diagrams"]) slug scaled_width
              scaled_height flow_direction (splitlines (md_text d)) Outside [] 0 Hclosed)
    as [out ->].
  cbn [res_bind]. unfold add_ids_and_rewrite_links.
  destruct (rewrite_links_total tbl folder (folder ++ rel0)
              (join [nl] (heading_pass slug (splitlines (join [nl] out ++ [nl]))) ++ [nl]))
    as [text ->].
  cbn [res_bind].
  destruct (IH (idx + 1)) as [rs ->].
  { intros d' rel Hin. apply Htbl. apply elem_of_cons. by right. }
  cbn [res_bind]. eauto.
Qed.

(** A corpus under the folder whose blocks are all closed is combined,
    whatever the renderer does. *)
Lemma combined_md_total (docs : list document) :
  forallb plain_part folder = true ->
  Forall (fun d => in_folder folder (md_path d)
                   /\ fence_left_open false (splitlines (md_text d)) = false) docs ->
  exists out, combined_md mmdc folder tmpdir scaled_width scaled_height flow_direction docs
              = Ok out.
Proof.
  intros Hf Hdocs. unfold combined_md, run.
  destruct (build_index_total folder (map md_path docs) ∅ Hf) as (tbl & -> & _ & Hall).
  { apply Forall_fmap. eapply Forall_impl; [exact Hdocs|]. by intros d [H _]. }
  cbn [res_bind].
  destruct (process_all_total tbl docs 0 Hf Hdocs) as [r ->]; [|cbn [res_bind]; eauto].
  intros d rel Hin. apply Hall. apply list_elem_of_fmap. eauto.
Qed.

End RunReturns.

(** ** C5: a block that fails to render *)

Section CallFacts.

Variable mmdc : list ascii -> list (list ascii) -> call.
Variable returns : list ascii -> list (list ascii) -> bool.

(** [mmdc] raises no exception but [CalledProcessError]. *)
Hypothesis no_escape : forall file cmd, mmdc file cmd = call_of (returns file cmd).

Lemma calls_render_loop (diagrams_dir : list (list ascii)) (diagram_key_prefix : list ascii)
    (width height : Z) (flow_direction : option direction)
    (lines : list (list ascii)) (st : scan_state) (out_lines : list (list ascii))
    (idx : nat) :
  Calls.render_loop mmdc diagrams_dir diagram_key_prefix width height flow_direction
    lines st out_lines idx
  = render_loop returns diagrams_dir diagram_key_prefix width height flow_direction
      lines st out_lines idx.
Proof.
  revert st out_lines idx. induction lines as [|l lines IH]; intros st out_lines idx; [done|].
  cbn [Calls.render_loop render_loop]. destruct st as [|block].
  - destruct (re_test MERMAID_FENCE_RE l); apply IH.
  - destruct (re_test FENCE_END_RE l); [|apply IH].
    unfold Calls.render_block, render_block, renders. cbv zeta. rewrite no_escape.
    destruct (returns _ _); cbn [call_of res_bind]; apply IH.
Qed.

Lemma calls_render_mermaid_blocks (diagrams_dir : list (list ascii))
    (diagram_key_prefix : list ascii) (width height : Z)
    (flow_direction : option direction) (md_text : list ascii) :
  Calls.render_mermaid_blocks mmdc diagrams_dir diagram_key_prefix width height
    flow_direction md_text
  = render_mermaid_blocks returns diagrams_dir diagram_key_prefix width height
      flow_direction md_text.
Proof. unfold Calls.render_mermaid_blocks, render_mermaid_blocks. by rewrite calls_render_loop. Qed.

Lemma calls_process_all (folder tmpdir : list (list ascii)) (scaled_width scaled_height : Z)
    (flow_direction : option direction) (tbl : gmap (list ascii) (list ascii))
    (docs : list document) (idx : nat) :
  Calls.process_all mmdc folder tmpdir scaled_width scaled_height flow_direction tbl idx docs
  = process_all returns folder tmpdir scaled_width scaled_height flow_direction tbl idx docs.
Proof.
  revert idx. induction docs as [|d docs IH]; intros idx; [done|].
  cbn [Calls.process_all process_all]. unfold Calls.process_document, process_document.
  destruct (rel_of folder (md_path d)) as [rel|]; [|done]. cbn [res_bind].
  destruct (getitem tbl rel) as [slug|]; [|done]. cbn [res_bind].
  by rewrite calls_render_mermaid_blocks, IH.
Qed.

Lemma calls_combined_md (folder tmpdir : list (list ascii)) (scaled_width scaled_height : Z)
    (flow_direction : option direction) (docs : list document) :
  Calls.combined_md mmdc folder tmpdir scaled_width scaled_height flow_direction docs
  = combined_md returns folder tmpdir scaled_width scaled_height flow_direction docs.
Proof.
  unfold Calls.combined_md, combined_md, Calls.run, run.
  destruct (build_index folder (map md_path docs) ∅) as [tbl|]; [|done]. cbn [res_bind].
  by rewrite calls_process_all.
Qed.

End CallFacts.

(** Once the table is built, every document has its entry. *)
Lemma build_index_entries (folder : list (list ascii)) (md_files : list (list (list ascii)))
    (tbl tbl' : gmap (list ascii) (list ascii)) :
  build_index folder md_files tbl = Ok tbl' ->
  (forall k, is_Some (tbl !! k) -> is_Some (tbl' !! k))
  /\ forall p, p ∈ md_files -> exists rel, rel_of folder p = Ok rel /\ is_Some (tbl' !! rel).
Proof.
  revert tbl. induction md_files as [|p rest IH]; intros tbl; cbn [build_index].
  - intros [= <-]. split; [done|]. intros p Hin. by apply elem_of_nil in Hin.
  - destruct (rel_of folder p) as [rel|] eqn:Hrel; [|done]. cbn [res_bind].
    destruct (safe_file_slug folder p) as [slug|]; [|done]. cbn [res_bind].
    intros Hb. destruct (IH _ Hb) as [Hkeep Hall].
    assert (Hold : forall k, is_Some (tbl !! k) -> is_Some (tbl' !! k)).
    { intros k Hk. apply Hkeep. destruct (decide (rel = k)) as [<-|Hne].
      - rewrite lookup_insert_eq. eauto.
      - by rewrite lookup_insert_ne. }
    split; [done|]. intros q [->|Hin]%elem_of_cons; [|by apply Hall].
    exists rel. split; [done|]. apply Hkeep. rewrite lookup_insert_eq. eauto.
Qed.

(** With every document in the table and every block closed, the documents
    are processed to the last, whatever the exits of the renderer. *)
Lemma process_all_built (returns : list ascii -> list (list ascii) -> bool)
    (folder tmpdir : list (list ascii)) (scaled_width scaled_height : Z)
    (flow_direction : option direction) (tbl : gmap (list ascii) (list ascii))
    (docs : list document) (idx : nat) :
  (forall d, d ∈ docs ->
             exists rel, rel_of folder (md_path d) = Ok rel /\ is_Some (tbl !! rel)) ->
  Forall (fun d => fence_left_open false (splitlines (md_text d)) = false) docs ->
  exists r, process_all returns folder tmpdir scaled_width scaled_height flow_direction
              tbl idx docs = Ok r.
Proof.
  intros Htbl Hdocs. revert idx.
  induction Hdocs as [|d rest Hclosed Hrest IH]; intros idx; cbn [process_all]; [eauto|].
  destruct (Htbl d) as (rel & Hrel & slug & Hslug); [apply elem_of_cons; by left|].
  unfold process_document. rewrite Hrel. cbn [res_bind].
  unfold getitem. rewrite Hslug. cbn [res_bind].
  unfold render_mermaid_blocks.
  destruct (render_loop_closed returns (tmpdir ++ [py "diagrams"]) slug scaled_width
              scaled_height flow_direction (splitlines (md_text d)) Outside [] 0 Hclosed)
    as [out ->].
  cbn [res_bind]. unfold add_ids_and_rewrite_links.
  destruct (rewrite_links_total tbl folder (md_path d)
              (join [nl] (heading_pass slug (splitlines (join [nl] out ++ [nl]))) ++ [nl]))
    as [text ->].
  cbn [res_bind].
  destruct (IH ltac:(intros d' Hin; apply Htbl, elem_of_cons; by right) (idx + 1))
    as [rs ->].
  cbn [res_bind]. eauto.
Qed.




(** ** C9: a block that is never closed *)

Lemma nonzero_bind {A B : Type} (m : res A) (f : A -> res B) :
  nonzero m -> (forall a, nonzero (f a)) -> nonzero (res_bind m f).
Proof.
  intros Hm Hf e. destruct m as [a|e']; cbn [res_bind].
  - apply Hf.
  - intros [= <-]. by apply Hm.
Qed.

Lemma nonzero_Ok {A : Type} (a : A) : nonzero (Ok a).
Proof. intros e. done. Qed.

Lemma nonzero_resolve (p : list (list ascii)) : nonzero (resolve p).
Proof. intros e H. apply resolve_raises in H. by destruct e. Qed.

Lemma nonzero_relative_to (p root : list (list ascii)) : nonzero (relative_to p root).
Proof. intros e H. apply relative_to_raises in H. by destruct e. Qed.

Lemma nonzero_rel_of (folder p : list (list ascii)) : nonzero (rel_of folder p).
Proof.
  unfold rel_of. apply nonzero_bind; [apply nonzero_resolve|]. intros r.
  apply nonzero_bind; [apply nonzero_relative_to|]. intros rel. apply nonzero_Ok.
Qed.

Lemma nonzero_safe_file_slug (root p : list (list ascii)) : nonzero (safe_file_slug root p).
Proof.
  unfold safe_file_slug. apply nonzero_bind; [apply nonzero_resolve|]. intros r.
  apply nonzero_bind; [apply nonzero_resolve|]. intros r'.
  apply nonzero_bind; [apply nonzero_relative_to|]. intros rel. apply nonzero_Ok.
Qed.

Lemma nonzero_build_index (folder : list (list ascii)) (md_files : list (list (list ascii)))
    (tbl : gmap (list ascii) (list ascii)) :
  nonzero (build_index folder md_files tbl).
Proof.
  revert tbl. induction md_files as [|p rest IH]; intros tbl; cbn [build_index].
  - apply nonzero_Ok.
  - apply nonzero_bind; [apply nonzero_rel_of|]. intros rel.
    apply nonzero_bind; [apply nonzero_safe_file_slug|]. intros slug. apply IH.
Qed.

Lemma nonzero_getitem (d : gmap (list ascii) (list ascii)) (key : list ascii) :
  nonzero (getitem d key).
Proof. unfold getitem. destruct (d !! key); intros e; [done | by intros [= <-]]. Qed.

Section RunFacts.

Variable mmdc : list ascii -> list (list ascii) -> bool.
Variable folder tmpdir : list (list ascii).
Variable scaled_width scaled_height : Z.
Variable flow_direction : option direction.

Lemma nonzero_render_mermaid_blocks (dir : list (list ascii)) (prefix md_text : list ascii) :
  nonzero (render_mermaid_blocks mmdc dir prefix scaled_width scaled_height
             flow_direction md_text).
Proof.
  unfold render_mermaid_blocks. apply nonzero_bind; [|intros; apply nonzero_Ok].
  destruct (fence_left_open (is_inside Outside) (splitlines md_text)) eqn:H.
  - rewrite render_loop_open by done. intros e [= <-]. done.
  - destruct (render_loop_closed mmdc dir prefix scaled_width scaled_height
                flow_direction _ Outside [] 0 H) as [out ->].
    apply nonzero_Ok.
Qed.

Lemma nonzero_add_ids (tbl : gmap (list ascii) (list ascii)) (root cur : list (list ascii))
    (md_text file_slug : list ascii) :
  nonzero (add_ids_and_rewrite_links tbl root cur md_text file_slug).
Proof.
  unfold add_ids_and_rewrite_links.
  destruct (rewrite_links_total tbl root cur
              (join [nl] (heading_pass file_slug (splitlines md_text)) ++ [nl]))
    as [out ->].
  apply nonzero_Ok.
Qed.

Lemma nonzero_process_document (tbl : gmap (list ascii) (list ascii)) (d : document) :
  nonzero (process_document mmdc folder tmpdir scaled_width scaled_height
             flow_direction tbl d).
Proof.
  unfold process_document. apply nonzero_bind; [apply nonzero_rel_of|]. intros rel.
  apply nonzero_bind; [apply nonzero_getitem|]. intros file_slug.
  apply nonzero_bind; [apply nonzero_render_mermaid_blocks|]. intros text.
  apply nonzero_bind; [apply nonzero_add_ids|]. intros out. apply nonzero_Ok.
Qed.

Lemma nonzero_process_all (tbl : gmap (list ascii) (list ascii)) (docs : list document)
    (idx : nat) :
  nonzero (process_all mmdc folder tmpdir scaled_width scaled_height
             flow_direction tbl idx docs).
Proof.
  revert idx. induction docs as [|d rest IH]; intros idx; cbn [process_all].
  - apply nonzero_Ok.
  - apply nonzero_bind; [apply nonzero_process_document|]. intros r.
    apply nonzero_bind; [apply IH|]. intros rs. apply nonzero_Ok.
Qed.

Lemma nonzero_combined_md (docs : list document) :
  nonzero (combined_md mmdc folder tmpdir scaled_width scaled_height flow_direction docs).
Proof.
  unfold combined_md, run. apply nonzero_bind; [|intros; apply nonzero_Ok].
  apply nonzero_bind; [apply nonzero_build_index|]. intros tbl. apply nonzero_process_all.
Qed.

(** A document with an open block dies in the first pass. *)
Lemma open_block_dies (dir : list (list ascii)) (prefix md_text : list ascii) :
  fence_left_open false (splitlines md_text) = true ->
  render_mermaid_blocks mmdc dir prefix scaled_width scaled_height flow_direction md_text
  = Raise (SystemExit 2 (py "error: unterminated ```mermaid block")).
Proof.
  intros H. unfold render_mermaid_blocks.
  by rewrite (render_loop_open mmdc dir prefix scaled_width scaled_height
                flow_direction _ Outside [] 0 H).
Qed.

Lemma process_all_open_block (tbl : gmap (list ascii) (list ascii)) (docs : list document)
    (d : document) (idx : nat) :
  d ∈ docs ->
  fence_left_open false (splitlines (md_text d)) = true ->
  exists e, process_all mmdc folder tmpdir scaled_width scaled_height
              flow_direction tbl idx docs = Raise e.
Proof.
  intros Hin Hopen. revert idx.
  induction docs as [|d' rest IH]; intros idx; [by apply elem_of_nil in Hin|].
  cbn [process_all].
  destruct (process_document _ _ _ _ _ _ tbl d') as [r|e] eqn:Hd; [|cbn; eauto].
  cbn [res_bind]. apply elem_of_cons in Hin as [<-|Hin].
  - exfalso. unfold process_document in Hd.
    destruct (rel_of folder (md_path d)); [|done]. cbn [res_bind] in Hd.
    destruct (getitem tbl _); [|done]. cbn [res_bind] in Hd.
    by rewrite open_block_dies in Hd.
  - destruct (IH Hin (idx + 1)) as [e ->]. cbn. eauto.
Qed.

End RunFacts.

(** C9: a document with a diagram fence that is opened and not closed
    makes the first pass exit with status 2, and a run over a corpus that
    has such a document ends with an exception and a status other than
    zero instead of a combined text. *)
Theorem unterminated_block_is_fatal
    (mmdc : list ascii -> list (list ascii) -> bool)
    (folder tmpdir : list (list ascii)) (scaled_width scaled_height : Z)
    (flow_direction : option direction) (docs : list document) (d : document) :
  d ∈ docs ->
  fence_left_open false (splitlines (md_text d)) = true ->
  (forall dir prefix,
     render_mermaid_blocks mmdc dir prefix scaled_width scaled_height flow_direction
       (md_text d)
     = Raise (SystemExit 2 (py "error: unterminated ```mermaid block")))
  /\ exists e,
       combined_md mmdc folder tmpdir scaled_width scaled_height flow_direction docs
       = Raise e
       /\ exit_status e <> 0%Z.
Proof.
  intros Hin Hopen. split.
  - intros dir prefix. by apply open_block_dies.
  - assert (H : exists e, combined_md mmdc folder tmpdir scaled_width scaled_height
                            flow_direction docs = Raise e).
    { unfold combined_md, run.
      destruct (build_index folder (map md_path docs) ∅) as [tbl|e]; [|cbn; eauto].
      cbn [res_bind].
      destruct (process_all_open_block mmdc folder tmpdir scaled_width scaled_height
                  flow_direction tbl docs d 0 Hin Hopen) as [e ->].
      cbn. eauto. }
    destruct H as [e He]. exists e. split; [done|].
    by apply (nonzero_combined_md mmdc folder tmpdir scaled_width scaled_height
                flow_direction docs).
Qed.

(** A corpus of two documents, the second with a block left open: its
    closing fence has four backquotes. *)
Lemma unterminated_block_is_fatal_witness :
  let folder := [py "home"; py "docs"] in
  let d := Document (folder ++ [py "b.md"])
             (unlines [py "# B"; py "```mermaid"; py "graph TD"; py "````"; []]) in
  let docs := [Document (folder ++ [py "a.md"]) (unlines [py "# A"; []]); d] in
  (forall dir prefix,
     render_mermaid_blocks (fun _ _ => true) dir prefix 800 600 None (md_text d)
     = Raise (SystemExit 2 (py "error: unterminated ```mermaid block")))
  /\ exists e,
       combined_md (fun _ _ => true) folder [py "tmp"] 800 600 None docs = Raise e
       /\ exit_status e <> 0%Z.
Proof.
  cbv zeta. apply unterminated_block_is_fatal.
  - apply elem_of_cons. right. apply elem_of_cons. by left.
  - vm_compute. reflexivity.
Defined.

(** ** The matcher *)

Lemma prev_after_cons (prev : option ascii) (c : ascii) (w : list ascii) :
  prev_after (Some c) w = prev_after prev (c :: w).
Proof.
  unfold prev_after. destruct w as [|d w]; [done|]. cbn [last].
  destruct (last (d :: w)) eqn:E; [done|]. by apply last_None in E.
Qed.

(** A greedy quantifier reads the whole run of its class when the rest of
    the pattern matches after it. *)
Lemma rep_greedy_run {R : Type} (p : ascii -> bool) (w s : list ascii) (lo : nat)
    (hi : option nat) (prev : option ascii)
    (k : option ascii -> list ascii -> option R) (x : R) :
  forallb p w = true ->
  match s with c :: _ => p c = false | [] => True end ->
  lo <= length w ->
  match hi with Some h => length w <= h | None => True end ->
  k (prev_after prev w) s = Some x ->
  rep true p lo hi prev (w ++ s) k = Some x.
Proof.
  revert lo hi prev. induction w as [|c w IH]; intros lo hi prev Hw Hs Hlo Hhi Hk.
  - cbn [app]. cbn in Hlo. assert (lo = 0) as -> by lia.
    change (prev_after prev []) with prev in Hk.
    destruct s as [|c s]; cbn [rep rep_stop]; [done|]. by rewrite Hs.
  - cbn [forallb] in Hw. apply andb_true_iff in Hw as [Hc Hw].
    cbn [app rep]. rewrite Hc.
    assert (hi_allows hi = true) as ->.
    { destruct hi as [h|]; [|done]. cbn [length] in Hhi. cbn [hi_allows].
      apply Nat.ltb_lt. lia. }
    cbn [andb]. rewrite (IH (Nat.pred lo) (hi_pred hi) (Some c)); try done.
    + cbn [length] in Hlo. lia.
    + destruct hi as [h|]; [|done]. cbn [length] in Hhi. cbn [hi_pred fmap option_fmap option_map].
      lia.
    + by rewrite prev_after_cons with (prev := prev).
Qed.

(** A quantifier fails when the rest of the pattern fails wherever the
    quantifier may stop. *)
Lemma rep_fails {R : Type} (g : bool) (p : ascii -> bool) (s : list ascii) (lo : nat)
    (hi : option nat) (prev : option ascii)
    (k : option ascii -> list ascii -> option R) :
  (forall s1 s2 pv, s = s1 ++ s2 -> forallb p s1 = true -> lo <= length s1 ->
                    k pv s2 = None) ->
  rep g p lo hi prev s k = None.
Proof.
  revert lo hi prev. induction s as [|c s IH]; intros lo hi prev H.
  - cbn [rep rep_stop]. destruct lo; [|done]. by apply (H [] []).
  - assert (Hstop : rep_stop lo prev (c :: s) k = None).
    { unfold rep_stop. destruct lo; [|done]. by apply (H [] (c :: s)). }
    cbn [rep]. destruct (p c) eqn:Hc; [|done].
    destruct (hi_allows hi); [|done]. cbn [andb].
    assert (Hin : rep g p (Nat.pred lo) (hi_pred hi) (Some c) s k = None).
    { apply IH. intros s1 s2 pv -> H1 Hlo. apply (H (c :: s1) s2); [done | |].
      - cbn [forallb]. by rewrite Hc.
      - cbn [length]. lia. }
    destruct g; by rewrite Hin, Hstop.
Qed.

(** A lazy quantifier stops at the first place where the rest of the
    pattern matches. *)
Lemma rep_lazy_first {R : Type} (p : ascii -> bool) (w s : list ascii) (lo : nat)
    (prev : option ascii) (k : option ascii -> list ascii -> option R) (x : R) :
  forallb p w = true ->
  lo <= length w ->
  k (prev_after prev w) s = Some x ->
  (forall w1 w2, w = w1 ++ w2 -> w2 <> [] -> k (prev_after prev w1) (w2 ++ s) = None) ->
  rep false p lo None prev (w ++ s) k = Some x.
Proof.
  revert lo prev. induction w as [|c w IH]; intros lo prev Hw Hlo Hk Hnone.
  - cbn [app]. cbn in Hlo. assert (lo = 0) as -> by lia.
    change (prev_after prev []) with prev in Hk.
    destruct s as [|c s]; cbn [rep rep_stop]; [done|].
    destruct (p c); cbn [andb hi_allows]; by rewrite Hk.
  - cbn [forallb] in Hw. apply andb_true_iff in Hw as [Hc Hw].
    cbn [app rep]. rewrite Hc. cbn [hi_allows andb].
    assert (rep_stop lo prev (c :: w ++ s) k = None) as ->.
    { unfold rep_stop. destruct lo; [|done]. by apply (Hnone [] (c :: w)). }
    apply IH; try done.
    + cbn in Hlo. lia.
    + by rewrite prev_after_cons with (prev := prev).
    + intros w1 w2 -> Hw2. rewrite prev_after_cons with (prev := prev).
      by apply (Hnone (c :: w1) w2).
Qed.

Lemma take_consumed (w s : list ascii) : take (length (w ++ s) - length s) (w ++ s) = w.
Proof.
  rewrite length_app. replace (length w + length s - length s) with (length w) by lia.
  by rewrite take_app_length.
Qed.

Lemma take_consumed_eq (a w s : list ascii) :
  a = w ++ s -> take (length a - length s) a = w.
Proof. intros ->. apply take_consumed. Qed.

Lemma head_not_space (title ws' : list ascii) :
  option_map is_space (head title) = Some false ->
  match title ++ ws' with c :: _ => is_space c = false | [] => True end.
Proof. destruct title as [|c t]; [done|]. cbn. by intros [= ->]. Qed.

(** [\s*$] fails on a text with a character that is not a space. *)
Lemma spaces_eol_fails (w2 s : list ascii) (c : ascii) (prev : option ascii)
    (caps : list (nat * list ascii)) :
  is_space c = false ->
  rep true is_space 0 None prev (w2 ++ c :: s)
    (fun pv s' => if at_eol (MState pv s' caps) then Some (MState pv s' caps) else None)
  = None.
Proof.
  intros Hc. apply rep_fails. intros s1 s2 pv Heq Hs1 _.
  assert (Hin : exists a b, s2 = a ++ c :: b).
  { revert w2 Heq. induction s1 as [|d s1 IH]; intros w2 Heq.
    - cbn [app] in Heq. subst s2. eauto.
    - cbn [forallb] in Hs1. apply andb_true_iff in Hs1 as [Hd Hs1].
      destruct w2 as [|e w2]; cbn [app] in Heq.
      + injection Heq as <- _. congruence.
      + injection Heq as _ Heq. by apply (IH Hs1 w2). }
  destruct Hin as (a & b & ->). unfold at_eol. cbn [ms_rest].
  destruct a as [|a0 [|a1 a]]; cbn [app].
  - destruct b; [|done].
    assert (chr_eqb c nl = false) as ->; [|done].
    apply not_true_iff_false. intros ->%chr_eqb_eq. done.
  - done.
  - done.
Qed.

(** A line made of 1 to 6 [#], spaces, and a title between characters that
    are not spaces matches the heading pattern, with these groups. *)
Lemma atx_match (n : nat) (ws title ws' : list ascii) :
  1 <= n <= 6 ->
  ws <> [] ->
  forallb is_space ws = true ->
  forallb is_space ws' = true ->
  forallb dot title = true ->
  option_map is_space (head title) = Some false ->
  option_map is_space (last title) = Some false ->
  re_match ATX_HEADING_RE (repeat "#"%char n ++ ws ++ title ++ ws')
  = Some (RMatch (repeat "#"%char n ++ ws ++ title ++ ws')
            [(2, title); (1, repeat "#"%char n)]).
Proof.
  intros Hn Hws Hsp Hsp' Hdot Hhead Hlast.
  assert (Hex : exists pv,
    exec ATX_HEADING_RE (MState None (repeat "#"%char n ++ ws ++ title ++ ws') []) Some
    = Some (MState pv [] [(2, title); (1, repeat "#"%char n)])).
  { eexists. unfold ATX_HEADING_RE, plus, star, lazy_plus. cbn [rseq exec].
    cbn [at_bol ms_prev ms_rest ms_caps].
    apply rep_greedy_run.
    { clear. induction n; [done|]. cbn. done. }
    { destruct ws as [|c ws]; [done|]. cbn. cbn in Hsp.
      apply andb_true_iff in Hsp as [Hc _]. destruct (chr_eqb "#" c) eqn:E; [|done].
      apply chr_eqb_eq in E as <-. done. }
    { rewrite repeat_length. lia. }
    { rewrite repeat_length. lia. }
    cbn [set_cap ms_prev ms_rest ms_caps].
    apply rep_greedy_run; [done | by apply head_not_space | | done |].
    { destruct ws; [done|]. cbn. lia. }
    cbn [set_cap ms_prev ms_rest ms_caps].
    apply rep_lazy_first; [done | | |].
    { destruct title; [done|]. cbn. lia. }
    { cbn [set_cap ms_prev ms_rest ms_caps].
      rewrite <- (app_nil_r ws') at 1.
      apply rep_greedy_run; [done | done | lia | done |].
      unfold at_eol. cbn [ms_rest]. unfold consumed. cbn [ms_rest].
      rewrite !take_consumed. reflexivity. }
    intros w1 w2 Hw Hw2. cbn [set_cap ms_prev ms_rest ms_caps].
    destruct (last title) as [c|] eqn:Hl; [|done]. injection Hlast as Hc.
    apply last_Some in Hl as [t' Ht].
    assert (Hw2' : exists u, w2 = u ++ [c]).
    { destruct (last w2) as [c2|] eqn:Hl2.
      - apply last_Some in Hl2 as [u Hu]. exists u.
        rewrite Hw, Hu, app_assoc in Ht. apply app_inj_tail in Ht as [_ ->]. done.
      - apply last_None in Hl2. done. }
    destruct Hw2' as [u ->]. rewrite <- app_assoc. cbn [app].
    by apply spaces_eol_fails. }
  destruct Hex as [pv Hex]. unfold re_match, match_at. rewrite Hex. cbn [ms_rest ms_caps].
  by rewrite Nat.sub_0_r, take_ge by lia.
Qed.

(** ** C10: heading lines in any context *)

Lemma strip_clean (t : list ascii) :
  option_map is_space (head t) = Some false ->
  option_map is_space (last t) = Some false ->
  strip t = t.
Proof.
  intros Hh Hl. unfold strip, strip_by, rstrip_by.
  assert (lstrip_by is_space t = t) as ->.
  { destruct t as [|c t]; [done|]. cbn in Hh. injection Hh as Hc. cbn. by rewrite Hc. }
  destruct (last t) as [c|] eqn:E; [|done]. cbn in Hl. injection Hl as Hc.
  apply last_Some in E as [u ->]. rewrite rev_app_distr. cbn [rev app lstrip_by].
  rewrite Hc. cbn [rev]. by rewrite rev_involutive.
Qed.

(** The id [make_unique_id] gives is the base, or the base with a number
    from 2 on. *)
Lemma make_unique_id_shape (counts : gmap (list ascii) nat) (base : list ascii) :
  (make_unique_id counts base).2 = base
  \/ exists k, 2 <= k /\ (make_unique_id counts base).2 = base ++ py "-" ++ str_of_nat k.
Proof.
  unfold make_unique_id. cbn [snd].
  destruct (default 0 (counts !! base) + 1 =? 1) eqn:E; [by left|].
  right. exists (default 0 (counts !! base) + 1). split; [|done].
  apply Nat.eqb_neq in E. lia.
Qed.

(** The line at a position of the output comes from the line at that
    position of the input, with the counters the lines before it left. *)
Lemma rewrite_headings_at (file_slug : list ascii) (pre post : list (list ascii))
    (line : list ascii) (counts : gmap (list ascii) nat) :
  exists counts',
    rewrite_headings file_slug counts (pre ++ line :: post) !! length pre
    = Some (rewrite_heading_line file_slug counts' line).2.
Proof.
  revert counts. induction pre as [|l pre IH]; intros counts; cbn [app rewrite_headings length].
  - exists counts. by destruct (rewrite_heading_line file_slug counts line).
  - destruct (rewrite_heading_line file_slug counts l) as [counts1 out].
    destruct (IH counts1) as [counts' H]. exists counts'. done.
Qed.

(** A line made of 1 to 6 [#], spaces and a title without [{#] is
    rewritten with an id: the slug, the slugified title and, for a repeated
    base, a number. *)
Lemma annotated_line (file_slug : list ascii) (counts : gmap (list ascii) nat)
    (n : nat) (ws title ws' : list ascii) :
  1 <= n <= 6 ->
  ws <> [] ->
  forallb is_space ws = true ->
  forallb is_space ws' = true ->
  forallb dot title = true ->
  option_map is_space (head title) = Some false ->
  option_map is_space (last title) = Some false ->
  contains title (py "{#") = false ->
  exists hid,
    (rewrite_heading_line file_slug counts (repeat "#"%char n ++ ws ++ title ++ ws')).2
    = repeat "#"%char n ++ py " " ++ title ++ py " {#" ++ hid ++ py "}"
    /\ (hid = file_slug ++ py "-" ++ slugify title
        \/ exists k, 2 <= k
             /\ hid = (file_slug ++ py "-" ++ slugify title) ++ py "-" ++ str_of_nat k).
Proof.
  intros Hn Hws Hsp Hsp' Hdot Hhead Hlast Hid.
  unfold rewrite_heading_line. rewrite atx_match by done.
  unfold group_str, group. cbn [m_caps assoc Nat.eqb default]. unfold id.
  rewrite Hid, strip_clean by done.
  pose proof (make_unique_id_shape counts (file_slug ++ py "-" ++ slugify title)) as Hshape.
  destruct (make_unique_id counts (file_slug ++ py "-" ++ slugify title)) as [counts' hid].
  cbn [snd] in *. exists hid. split; [done|]. exact Hshape.
Qed.

(** ** Patterns that do not look behind *)

Lemma same_result_refl (a : option mstate) : same_result a a.
Proof. destruct a; cbn; [split|]; done. Qed.

Lemma rep_prev_free (g : bool) (p : ascii -> bool) (s : list ascii) (lo : nat)
    (hi : option nat) (prev1 prev2 : option ascii)
    (k1 k2 : option ascii -> list ascii -> option mstate) :
  (forall pv1 pv2 s', same_result (k1 pv1 s') (k2 pv2 s')) ->
  same_result (rep g p lo hi prev1 s k1) (rep g p lo hi prev2 s k2).
Proof.
  intros Hk. revert lo hi prev1 prev2.
  induction s as [|c s IH]; intros lo hi prev1 prev2.
  - cbn [rep rep_stop]. destruct lo; [apply Hk | done].
  - assert (Hstop : same_result (rep_stop lo prev1 (c :: s) k1)
                                (rep_stop lo prev2 (c :: s) k2)).
    { unfold rep_stop. destruct lo; [apply Hk | done]. }
    cbn [rep]. destruct (p c && hi_allows hi); [|done].
    pose proof (IH (Nat.pred lo) (hi_pred hi) (Some c) (Some c)) as Hin.
    destruct g.
    + destruct (rep true p _ _ _ s k1), (rep true p _ _ _ s k2); done.
    + destruct (rep_stop lo prev1 (c :: s) k1), (rep_stop lo prev2 (c :: s) k2); done.
Qed.

Lemma exec_prev_free (r : regex) :
  prev_free r = true ->
  forall st1 st2 k1 k2,
    same_state st1 st2 ->
    (forall a b, same_state a b -> same_result (k1 a) (k2 b)) ->
    same_result (exec r st1 k1) (exec r st2 k2).
Proof.
  induction r as [|p|r1 IH1 r2 IH2|r1 IH1 r2 IH2|g p lo hi|r1 IH1|i r1 IH1|m| |];
    intros Hr st1 st2 k1 k2 [Hrest Hcaps] Hk; cbn [exec prev_free] in *; try done.
  - by apply Hk.
  - rewrite Hrest, Hcaps. destruct (ms_rest st2) as [|c s']; [done|].
    destruct (p c); [|done]. by apply Hk.
  - apply andb_true_iff in Hr as [Hr1 Hr2]. apply IH1; [done | done |].
    intros a b Hab. by apply IH2.
  - apply andb_true_iff in Hr as [Hr1 Hr2].
    pose proof (IH1 Hr1 st1 st2 k1 k2 (conj Hrest Hcaps) Hk) as H1.
    destruct (exec r1 st1 k1), (exec r1 st2 k2); try done.
    by apply IH2.
  - rewrite Hrest, Hcaps. apply rep_prev_free. intros pv1 pv2 s'. by apply Hk.
  - pose proof (IH1 Hr st1 st2 k1 k2 (conj Hrest Hcaps) Hk) as H1.
    destruct (exec r1 st1 k1), (exec r1 st2 k2); try done.
    by apply Hk.
  - apply IH1; [done | done |]. intros a b [Hab1 Hab2]. apply Hk.
    unfold set_cap, consumed. cbn [ms_rest ms_caps]. by rewrite Hrest, Hab1, Hab2.
  - assert (Hss : same_state st1 st2) by done.
    unfold at_eol. rewrite Hrest. destruct (ms_rest st2) as [|c [|d s']]; try done.
    + by apply Hk.
    + destruct (chr_eqb c nl); [by apply Hk | done].
Qed.

Lemma match_at_prev_free (r : regex) (prev1 prev2 : option ascii) (s : list ascii) :
  prev_free r = true -> match_at r prev1 s = match_at r prev2 s.
Proof.
  intros Hr. unfold match_at.
  pose proof (exec_prev_free r Hr (MState prev1 s []) (MState prev2 s []) Some Some) as H.
  destruct (exec r (MState prev1 s []) Some) as [a|], (exec r (MState prev2 s []) Some) as [b|].
  - destruct H as [H1 H2]; [done | by intros a' b' Hab |]. cbn in H1, H2. by rewrite H1, H2.
  - destruct H; [done | by intros a' b' Hab].
  - destruct H; [done | by intros a' b' Hab].
  - done.
Qed.

Lemma sub_from_prev_free (r : regex) (f : rmatch -> list ascii) (s : list ascii) (skip : nat)
    (prev1 prev2 : option ascii) :
  prev_free r = true -> sub_from r f skip prev1 s = sub_from r f skip prev2 s.
Proof.
  intros Hr. revert skip prev1 prev2.
  induction s as [|c s IH]; intros skip prev1 prev2; cbn [sub_from]; [done|].
  destruct skip; [|done].
  by rewrite (match_at_prev_free r prev1 prev2).
Qed.

(** After a match the substitution goes on behind its text. *)
Lemma sub_from_skip (r : regex) (f : rmatch -> list ascii) (t s : list ascii)
    (prev : option ascii) :
  prev_free r = true ->
  sub_from r f (length t) prev (t ++ s) = sub_from r f 0 None s.
Proof.
  intros Hr. revert prev. induction t as [|c t IH]; intros prev; cbn [length app sub_from].
  - by apply sub_from_prev_free.
  - apply IH.
Qed.

Lemma sub_from_match (r : regex) (f : rmatch -> list ascii) (m : rmatch) (s : list ascii)
    (prev : option ascii) :
  prev_free r = true ->
  m_text m <> [] ->
  match_at r prev (m_text m ++ s) = Some m ->
  sub_from r f 0 prev (m_text m ++ s) = f m ++ sub_from r f 0 None s.
Proof.
  intros Hr Hne Hm. destruct (m_text m) as [|c t] eqn:Ht; [done|].
  cbn [app sub_from]. cbn [app] in Hm. rewrite Hm, Ht. by rewrite sub_from_skip.
Qed.

Lemma sub_from_no_match (r : regex) (f : rmatch -> list ascii) (c : ascii) (s : list ascii)
    (prev : option ascii) :
  prev_free r = true ->
  match_at r prev (c :: s) = None ->
  sub_from r f 0 prev (c :: s) = c :: sub_from r f 0 None s.
Proof.
  intros Hr Hm. cbn [sub_from]. rewrite Hm. f_equal. by apply sub_from_prev_free.
Qed.

(** ** C7: edge labels *)

Lemma chr_eqb_neq (a b : ascii) : a <> b -> chr_eqb a b = false.
Proof. intros H. apply not_true_iff_false. by intros ?%chr_eqb_eq. Qed.

Lemma has_char_cons (c d : ascii) (s : list ascii) :
  has_char c (d :: s) = false -> c <> d /\ has_char c s = false.
Proof.
  unfold has_char. cbn [existsb]. intros H. apply orb_false_iff in H as [H1 H2].
  split; [|done]. intros ->. by rewrite chr_eqb_refl in H1.
Qed.

Lemma has_char_not (c : ascii) (s : list ascii) :
  has_char c s = false -> forallb (not_chr c) s = true.
Proof.
  induction s as [|d s IH]; [done|]. intros H. apply has_char_cons in H as [Hd H].
  cbn [forallb]. rewrite IH by done. unfold not_chr.
  rewrite chr_eqb_neq by congruence. done.
Qed.

Lemma dashes_all (n : nat) : forallb (chr_eqb "-") (repeat "-"%char n) = true.
Proof. induction n; [done|]. cbn. done. Qed.

(** An arrow of two dashes or more and a label between bars match the edge
    pattern from their first character on. *)
Lemma edge_match (prev : option ascii) (n : nat) (gt : bool) (label post : list ascii) :
  2 <= n ->
  label <> [] ->
  has_char "|" label = false ->
  match_at EDGE_RE prev (arrow n gt ++ py "|" ++ label ++ py "|" ++ post)
  = Some (RMatch (arrow n gt ++ py "|" ++ label ++ py "|") [(2, label); (1, arrow n gt)]).
Proof.
  intros Hn Hne Hbar.
  assert (Hlabel : forall pv (k : option ascii -> list ascii -> option mstate) x,
    k (prev_after pv label) ("|"%char :: post) = Some x ->
    rep true (not_chr "|") 1 None pv (label ++ "|"%char :: post) k = Some x).
  { intros pv k x Hk. apply rep_greedy_run; [by apply has_char_not | done | | done | done].
    destruct label; [done|]. cbn [length]. lia. }
  assert (Hex :
    exec EDGE_RE (MState prev (arrow n gt ++ py "|" ++ label ++ py "|" ++ post) []) Some
    = Some (MState (Some "|"%char) post [(2, label); (1, arrow n gt)])).
  { destruct n as [|[|m]]; [lia | lia |]. unfold arrow.
    unfold EDGE_RE, plus, chr. cbn [repeat app rseq exec ms_rest ms_caps ms_prev].
    rewrite chr_eqb_refl. cbn [set_cap ms_prev ms_rest ms_caps].
    rewrite <- !app_assoc.
    change ("-"%char :: repeat "-"%char m ++ ?s) with (("-"%char :: repeat "-"%char m) ++ s).
    apply rep_greedy_run.
    { apply (dashes_all (S m)). }
    { by destruct gt. }
    { cbn [length]. lia. }
    { done. }
    destruct gt; cbn [app py list_ascii_of_string is_arrow_end chr_eqb Ascii.eqb
                        Bool.eqb orb andb].
    - erewrite Hlabel; [reflexivity|].
      cbn [chr_eqb Ascii.eqb Bool.eqb andb]. unfold consumed. cbn [ms_rest].
      rewrite (take_consumed label ("|"%char :: post)).
      rewrite (take_consumed_eq _ ("-"%char :: "-"%char :: repeat "-"%char m ++ [">"%char])
                 ("|"%char :: label ++ "|"%char :: post))
        by (cbn [app]; by rewrite <- app_assoc).
      reflexivity.
    - erewrite Hlabel; [reflexivity|].
      cbn [chr_eqb Ascii.eqb Bool.eqb andb]. unfold consumed. cbn [ms_rest].
      rewrite (take_consumed label ("|"%char :: post)).
      rewrite (take_consumed_eq _ ("-"%char :: "-"%char :: repeat "-"%char m ++ [])
                 ("|"%char :: label ++ "|"%char :: post))
        by (cbn [app]; by rewrite <- app_assoc).
      reflexivity. }
  unfold match_at. rewrite Hex. cbn [ms_rest ms_caps].
  f_equal. f_equal.
  replace (arrow n gt ++ py "|" ++ label ++ py "|" ++ post)
    with ((arrow n gt ++ py "|" ++ label ++ py "|") ++ post) by (by rewrite <- !app_assoc).
  apply take_consumed.
Qed.

(** The dashes of an arrow cannot stop before a text whose first two
    characters are no bar: the rest of the edge pattern fails there. *)
Lemma rep_blocked (K : option ascii -> list ascii -> option mstate)
    (u rest : list ascii) (x : ascii) (lo : nat) (pv : option ascii) :
  (forall pv' a b s, a <> "|"%char -> b <> "|"%char -> K pv' (a :: b :: s) = None) ->
  has_char "|" u = false ->
  x <> "|"%char ->
  x <> "-"%char ->
  rep true (chr_eqb "-") lo None pv (u ++ x :: "-"%char :: rest) K = None.
Proof.
  intros HK Hu Hx Hx'. revert lo pv. induction u as [|c u IH]; intros lo pv.
  - cbn [app rep]. rewrite (chr_eqb_neq "-" x) by congruence. cbn [andb].
    unfold rep_stop. destruct lo; [|done]. by apply HK.
  - apply has_char_cons in Hu as [Hc Hu].
    assert (Hstop : rep_stop lo pv (c :: u ++ x :: "-"%char :: rest) K = None).
    { unfold rep_stop. destruct lo; [|done].
      destruct u as [|d u]; cbn [app].
      - apply HK; congruence.
      - apply has_char_cons in Hu as [Hd _]. apply HK; congruence. }
    cbn [app rep]. destruct (chr_eqb "-" c); cbn [andb hi_allows]; [|done].
    by rewrite IH, Hstop.
Qed.

Lemma edge_no_match (prev : option ascii) (u rest : list ascii) (x : ascii) :
  has_char "|" u = false ->
  x <> "|"%char ->
  x <> "-"%char ->
  match_at EDGE_RE prev ("-"%char :: u ++ x :: "-"%char :: rest) = None.
Proof.
  intros Hu Hx Hx'. unfold match_at, EDGE_RE, plus, chr.
  cbn [rseq exec ms_rest ms_caps ms_prev]. rewrite chr_eqb_refl.
  cbn [set_cap ms_prev ms_rest ms_caps].
  rewrite rep_blocked; try done.
  intros pv' a b s Ha Hb.
  rewrite (chr_eqb_neq "|" a), (chr_eqb_neq "|" b) by congruence.
  by destruct (is_arrow_end a).
Qed.

Lemma edge_no_dash (prev : option ascii) (c : ascii) (s : list ascii) :
  c <> "-"%char -> match_at EDGE_RE prev (c :: s) = None.
Proof.
  intros Hc. unfold match_at, EDGE_RE, plus, chr.
  cbn [rseq exec ms_rest ms_caps ms_prev]. by rewrite (chr_eqb_neq "-" c) by congruence.
Qed.

Lemma has_char_app (c : ascii) (a b : list ascii) :
  has_char c (a ++ b) = false -> has_char c a = false /\ has_char c b = false.
Proof. unfold has_char. rewrite existsb_app. apply orb_false_iff. Qed.

(** A text is made of dashes, or it has a last character that is no dash. *)
Lemma dashes_or_not (l : list ascii) :
  l = repeat "-"%char (length l)
  \/ exists u x k, l = u ++ x :: repeat "-"%char k /\ x <> "-"%char.
Proof.
  induction l as [|c l IH]; [by left|].
  destruct IH as [IH|(u & x & k & -> & Hx)].
  - destruct (decide (c = "-"%char)) as [->|Hc].
    + left. cbn [length repeat]. by rewrite <- IH.
    + right. exists [], c, (length l). cbn [app]. by rewrite <- IH.
  - right. exists (c :: u), x, k. done.
Qed.

Lemma quote_edge_label_arrow (n : nat) (gt : bool) (label : list ascii) :
  quote_edge_label
    (RMatch (arrow n gt ++ py "|" ++ label ++ py "|") [(2, label); (1, arrow n gt)])
  = arrow n gt ++ py "|" ++ quoted label ++ py "|".
Proof.
  unfold quote_edge_label, quoted, group_str, group.
  cbn [m_caps m_text assoc Nat.eqb default]. unfold id.
  destruct (startswith label [dquote] || negb (has_paren label)); [done|].
  by rewrite <- !app_assoc.
Qed.

(** The substitution at an arrow with its label. *)
Lemma edge_sub_here (n : nat) (gt : bool) (label post : list ascii) (prev : option ascii) :
  2 <= n ->
  label <> [] ->
  has_char "|" label = false ->
  sub_from EDGE_RE quote_edge_label 0 prev (arrow n gt ++ py "|" ++ label ++ py "|" ++ post)
  = arrow n gt ++ py "|" ++ quoted label ++ py "|"
    ++ sub_from EDGE_RE quote_edge_label 0 None post.
Proof.
  intros Hn Hne Hbar.
  pose (m := RMatch (arrow n gt ++ py "|" ++ label ++ py "|") [(2, label); (1, arrow n gt)]).
  replace (arrow n gt ++ py "|" ++ label ++ py "|" ++ post) with (m_text m ++ post)
    by (subst m; cbn [m_text]; by rewrite <- !app_assoc).
  rewrite (sub_from_match EDGE_RE quote_edge_label m post prev); [| done | |].
  - subst m. rewrite quote_edge_label_arrow. by rewrite <- !app_assoc.
  - subst m. cbn [m_text]. unfold arrow. destruct n; [lia|]. done.
  - subst m. cbn [m_text]. rewrite <- !app_assoc. by apply edge_match.
Qed.

(** The substitution through a text without bar in front of the arrow. *)
Lemma edge_sub_after (pre : list ascii) (n : nat) (gt : bool) (label post : list ascii)
    (prev : option ascii) :
  has_char "|" pre = false ->
  2 <= n ->
  label <> [] ->
  has_char "|" label = false ->
  sub_from EDGE_RE quote_edge_label 0 prev
    (pre ++ arrow n gt ++ py "|" ++ label ++ py "|" ++ post)
  = pre ++ arrow n gt ++ py "|" ++ quoted label ++ py "|"
    ++ sub_from EDGE_RE quote_edge_label 0 None post.
Proof.
  intros Hpre Hn Hne Hbar. revert prev.
  induction pre as [|c pre IH]; intros prev; [by apply edge_sub_here|].
  apply has_char_cons in Hpre as [Hc Hpre]. cbn [app].
  destruct (decide (c = "-"%char)) as [->|Hdash].
  - destruct (dashes_or_not pre) as [Hall|(u & x & k & Hpre' & Hx)].
    + replace ("-"%char :: pre ++ arrow n gt ++ py "|" ++ label ++ py "|" ++ post)
        with (arrow (S (length pre) + n) gt ++ py "|" ++ label ++ py "|" ++ post).
      2:{ unfold arrow. rewrite repeat_app. cbn [repeat app]. rewrite <- Hall.
          by rewrite <- !app_assoc. }
      rewrite edge_sub_here by (done || lia).
      unfold arrow. rewrite repeat_app. cbn [repeat app]. rewrite <- Hall.
      by rewrite <- !app_assoc.
    + assert (Htail : exists rest,
                repeat "-"%char k ++ arrow n gt ++ py "|" ++ label ++ py "|" ++ post
                = "-"%char :: rest).
      { destruct k; cbn [repeat app]; [|eauto].
        unfold arrow. destruct n; [lia|]. cbn [repeat app]. eauto. }
      destruct Htail as [rest Htail].
      rewrite sub_from_no_match; [by rewrite IH | done |].
      rewrite Hpre'. rewrite <- app_assoc. cbn [app]. rewrite Htail.
      rewrite Hpre' in Hpre. apply has_char_app in Hpre as [Hu Hx'].
      apply has_char_cons in Hx' as [Hx' _].
      apply edge_no_match; [done | congruence | done].
  - rewrite sub_from_no_match; [by rewrite IH | done |].
    by apply edge_no_dash.
Qed.

(** The rule on its own: in a text where an arrow of two dashes or more,
    with or without [>], is followed by a label between bars, and no bar
    stands before the arrow, the label is quoted as [quoted] tells, the text
    before it is kept, and the rule goes on after the label. *)
Lemma quote_edge_labels_at_arrow (pre : list ascii) (n : nat) (gt : bool)
    (label post : list ascii) :
  has_char "|" pre = false ->
  2 <= n ->
  label <> [] ->
  has_char "|" label = false ->
  quote_edge_labels (pre ++ arrow n gt ++ py "|" ++ label ++ py "|" ++ post)
  = pre ++ arrow n gt ++ py "|" ++ quoted label ++ py "|" ++ quote_edge_labels post.
Proof.
  intros Hpre Hn Hne Hbar. unfold quote_edge_labels, re_sub.
  by rewrite edge_sub_after.
Qed.

(** ** Links in a text *)

Lemma sub_from_res_pure (r : regex) (g : rmatch -> res (list ascii))
    (f : rmatch -> list ascii) :
  (forall m, g m = Ok (f m)) ->
  forall s skip prev, sub_from_res r g skip prev s = Ok (sub_from r f skip prev s).
Proof.
  intros Hg. induction s as [|c s IH]; intros skip prev; cbn [sub_from_res sub_from]; [done|].
  destruct skip; [|apply IH].
  destruct (match_at r prev (c :: s)) as [m|].
  - destruct (m_text m); rewrite ?Hg, IH; done.
  - by rewrite IH.
Qed.

Lemma rewrite_links_pure (tbl : gmap (list ascii) (list ascii))
    (folder_root current_file : list (list ascii)) (text : list ascii) :
  rewrite_links tbl folder_root current_file text
  = Ok (re_sub MD_LINK_RE (repl_text tbl folder_root current_file) text).
Proof.
  unfold rewrite_links, re_sub_res, re_sub. apply sub_from_res_pure.
  intros m. unfold repl_text.
  by destruct (repl_total tbl folder_root current_file m) as [s ->].
Qed.

(** A label and a target match the link pattern from the bracket on. *)
Lemma link_match (prev : option ascii) (label target post : list ascii) :
  label <> [] ->
  has_char "]" label = false ->
  target <> [] ->
  has_char ")" target = false ->
  match_at MD_LINK_RE prev (link_text label target ++ post) = Some (link_of label target).
Proof.
  intros Hl Hl' Ht Ht'.
  assert (Hex : exec MD_LINK_RE (MState prev (link_text label target ++ post) []) Some
                = Some (MState (Some ")"%char) post [(2, target); (1, label)])).
  { unfold link_text, MD_LINK_RE, plus, chr. rewrite <- !app_assoc.
    cbn [app py list_ascii_of_string rseq exec ms_rest ms_caps ms_prev].
    cbn [chr_eqb Ascii.eqb Bool.eqb andb].
    apply rep_greedy_run; [by apply has_char_not | done | | done |].
    { destruct label; [done|]. cbn [length]. lia. }
    cbn [set_cap ms_prev ms_rest ms_caps chr_eqb Ascii.eqb Bool.eqb andb].
    apply rep_greedy_run; [by apply has_char_not | done | | done |].
    { destruct target; [done|]. cbn [length]. lia. }
    cbn [set_cap ms_prev ms_rest ms_caps chr_eqb Ascii.eqb Bool.eqb andb].
    unfold consumed. cbn [ms_rest]. by rewrite !take_consumed. }
  unfold match_at. rewrite Hex. cbn [ms_rest ms_caps]. unfold link_of.
  by rewrite take_consumed.
Qed.

Lemma prev_free_link : prev_free MD_LINK_RE = true.
Proof. reflexivity. Qed.

Lemma prev_free_edge : prev_free EDGE_RE = true.
Proof. reflexivity. Qed.

(** A run without [s1]'s forbidden character splits inside the run. *)
Lemma split_in_run (c : ascii) (s1 s2 w t : list ascii) :
  s1 ++ s2 = w ++ c :: t ->
  forallb (not_chr c) s1 = true ->
  exists w2, w = s1 ++ w2 /\ s2 = w2 ++ c :: t.
Proof.
  revert w. induction s1 as [|a s1 IH]; intros w Heq Hs1.
  - exists w. done.
  - cbn [forallb] in Hs1. apply andb_true_iff in Hs1 as [Ha Hs1].
    destruct w as [|b w]; cbn [app] in Heq.
    + injection Heq as -> _. unfold not_chr in Ha. by rewrite chr_eqb_refl in Ha.
    + injection Heq as -> Heq. destruct (IH w Heq Hs1) as (w2 & -> & ->). by exists w2.
Qed.

(** No link starts at a bracket that is closed as [bracket_closed] says. *)
Lemma link_no_match (prev : option ascii) (u rest : list ascii) :
  bracket_closed u false = true ->
  match_at MD_LINK_RE prev ("["%char :: u ++ rest) = None.
Proof.
  intros Hu.
  assert (Hrun : forall seen, bracket_closed u seen = true ->
            exists w v, u = w ++ "]"%char :: v
                        /\ forallb (not_chr "]") w = true
                        /\ ((seen = false /\ w = [])
                            \/ exists d v', v = d :: v' /\ d <> "("%char)).
  { clear. induction u as [|c u IH]; intros seen H; [done|]. cbn [bracket_closed] in H.
    destruct (chr_eqb c "]") eqn:Hc.
    - apply chr_eqb_eq in Hc as ->. exists [], u. split; [done|]. split; [done|].
      apply orb_true_iff in H as [H|H].
      + left. by destruct seen.
      + right. destruct u as [|d v']; [done|]. exists d, v'. split; [done|].
        intros ->. done.
    - destruct (IH true H) as (w & v & -> & Hw & Hv). exists (c :: w), v.
      split; [done|]. split.
      + cbn [forallb]. unfold not_chr at 1. by rewrite Hc.
      + destruct Hv as [[? _]|Hv]; [done|]. by right. }
  destruct (Hrun false Hu) as (w & v & -> & Hw & Hv).
  unfold match_at, MD_LINK_RE, plus, chr.
  cbn [rseq exec ms_rest ms_caps ms_prev]. rewrite chr_eqb_refl.
  rewrite rep_fails; [done|].
  intros s1 s2 pv Heq Hs1 Hlo. rewrite <- app_assoc in Heq. cbn [app] in Heq.
  symmetry in Heq.
  destruct (split_in_run _ _ _ _ _ Heq Hs1) as (w2 & -> & ->).
  cbn [set_cap ms_prev ms_rest ms_caps].
  destruct w2 as [|a w2]; cbn [app].
  - rewrite chr_eqb_refl.
    destruct Hv as [[_ Hnil]|(d & v' & -> & Hd)].
    + apply app_eq_nil in Hnil as [-> _]. cbn [length] in Hlo. lia.
    + cbn [app]. by rewrite (chr_eqb_neq "(" d) by congruence.
  - cbn [forallb] in Hw. rewrite forallb_app in Hw. cbn [forallb] in Hw.
    apply andb_true_iff in Hw as [_ Hw]. apply andb_true_iff in Hw as [Ha _].
    unfold not_chr in Ha. apply negb_true_iff in Ha.
    rewrite (chr_eqb_neq "]" a); [done|]. intros <-. by rewrite chr_eqb_refl in Ha.
Qed.

Lemma link_no_bracket (prev : option ascii) (c : ascii) (s : list ascii) :
  c <> "["%char -> match_at MD_LINK_RE prev (c :: s) = None.
Proof.
  intros Hc. unfold match_at, MD_LINK_RE, plus, chr.
  cbn [rseq exec ms_rest ms_caps ms_prev]. by rewrite (chr_eqb_neq "[" c) by congruence.
Qed.

(** The substitution through a text where no link starts, up to a link. *)
Lemma link_sub_after (f : rmatch -> list ascii) (pre label target post : list ascii)
    (prev : option ascii) :
  no_link_start pre = true ->
  label <> [] ->
  has_char "]" label = false ->
  target <> [] ->
  has_char ")" target = false ->
  sub_from MD_LINK_RE f 0 prev (pre ++ link_text label target ++ post)
  = pre ++ f (link_of label target) ++ sub_from MD_LINK_RE f 0 None post.
Proof.
  intros Hpre Hl Hl' Ht Ht'. revert prev.
  induction pre as [|c pre IH]; intros prev.
  - cbn [app].
    change (link_text label target) with (m_text (link_of label target)).
    apply sub_from_match; [done | | by apply link_match].
    unfold link_of, link_text. cbn [m_text]. done.
  - cbn [no_link_start] in Hpre. apply andb_true_iff in Hpre as [Hc Hpre].
    cbn [app]. rewrite sub_from_no_match; [by rewrite IH | done |].
    destruct (chr_eqb c "[") eqn:E.
    + apply chr_eqb_eq in E as ->. by apply link_no_match.
    + apply link_no_bracket. intros ->. by rewrite chr_eqb_refl in E.
Qed.

(** [rewrite_links] at a link of the text: what is before the link is
    kept, the link is replaced by what [repl] returns for it, and the
    rewriting goes on after it. *)
Lemma rewrite_links_at_link (tbl : gmap (list ascii) (list ascii))
    (folder_root current_file : list (list ascii)) (pre label target post : list ascii)
    (new : list ascii) :
  no_link_start pre = true ->
  label <> [] ->
  has_char "]" label = false ->
  target <> [] ->
  has_char ")" target = false ->
  repl tbl folder_root current_file (link_of label target) = Ok new ->
  exists tl,
    rewrite_links tbl folder_root current_file post = Ok tl
    /\ rewrite_links tbl folder_root current_file (pre ++ link_text label target ++ post)
       = Ok (pre ++ new ++ tl).
Proof.
  intros Hpre Hl Hl' Ht Ht' Hnew.
  exists (re_sub MD_LINK_RE (repl_text tbl folder_root current_file) post).
  split; [apply rewrite_links_pure|].
  rewrite rewrite_links_pure. unfold re_sub. rewrite link_sub_after by done.
  unfold repl_text at 1. by rewrite Hnew.
Qed.

(** ** C4: links that resolve to nothing *)

(** C4: rewriting the links of a text never raises.  A link whose path
    finds no document under any of the four strategies is replaced by its
    own text: in a text, what stands before the link, the link itself and
    what follows the rewriting of the rest are put together unchanged; and
    a text none of whose paths finds a document comes out as it went in. *)
Theorem unresolved_link_is_left_alone
    (tbl : gmap (list ascii) (list ascii)) (folder_root current_file : list (list ascii)) :
  (forall text, exists out, rewrite_links tbl folder_root current_file text = Ok out)
  /\ (forall m, first_match tbl folder_root current_file (link_path m) = None ->
                repl tbl folder_root current_file m = Ok (m_text m))
  /\ (forall pre label target post,
        no_link_start pre = true ->
        label <> [] -> has_char "]" label = false ->
        target <> [] -> has_char ")" target = false ->
        first_match tbl folder_root current_file (link_path (link_of label target)) = None ->
        exists tl,
          rewrite_links tbl folder_root current_file post = Ok tl
          /\ rewrite_links tbl folder_root current_file
               (pre ++ link_text label target ++ post)
             = Ok (pre ++ link_text label target ++ tl))
  /\ (forall text, (forall p, first_match tbl folder_root current_file p = None) ->
                   rewrite_links tbl folder_root current_file text = Ok text).
Proof.
  assert (Hrepl : forall m, first_match tbl folder_root current_file (link_path m) = None ->
                            repl tbl folder_root current_file m = Ok (m_text m)).
  { intros m H. rewrite repl_unfold. destruct (candidate m); [|done].
    by rewrite find_slug_unresolved. }
  split; [|split; [|split]].
  - apply rewrite_links_total.
  - exact Hrepl.
  - intros pre label target post Hpre Hl Hl' Ht Ht' Hnone.
    apply rewrite_links_at_link; try done. by rewrite Hrepl.
  - intros text H. unfold rewrite_links, re_sub_res.
    rewrite sub_from_res_same; [by rewrite drop_0|].
    intros prev s m _. by apply Hrepl.
Qed.

(** A link to [c.md] in a document of a corpus that has [a.md] only. *)
Lemma unresolved_link_is_left_alone_witness :
  let tbl : gmap (list ascii) (list ascii) := {[ py "a.md" := slug_of_rel (py "a.md") ]} in
  let folder_root := [py "home"; py "docs"] in
  let current_file := [py "home"; py "docs"; py "b.md"] in
  first_match tbl folder_root current_file (link_path (link_of (py "v") (py "c.md"))) = None
  /\ rewrite_links tbl folder_root current_file
       (py "[]{#bmd-1}: see " ++ link_text (py "v") (py "c.md") ++ py " and more")
     = Ok (py "[]{#bmd-1}: see [v](c.md) and more").
Proof.
  cbv zeta. split.
  - vm_compute. reflexivity.
  - destruct (proj1 (proj2 (proj2 (unresolved_link_is_left_alone
                {[ py "a.md" := slug_of_rel (py "a.md") ]}
                [py "home"; py "docs"] [py "home"; py "docs"; py "b.md"])))
                (py "[]{#bmd-1}: see ") (py "v") (py "c.md") (py " and more"))
      as (tl & Htl & H);
      [reflexivity | discriminate | reflexivity | discriminate | reflexivity
      | vm_compute; reflexivity |].
    rewrite H. f_equal.
    assert (tl = py " and more") as ->; [|reflexivity].
    assert (Hpost : rewrite_links {[ py "a.md" := slug_of_rel (py "a.md") ]}
                      [py "home"; py "docs"] [py "home"; py "docs"; py "b.md"]
                      (py " and more") = Ok (py " and more")) by (vm_compute; reflexivity).
    rewrite Hpost in Htl. by injection Htl.
Defined.

(** ** C2: links that resolve to a document *)



(** * Further properties *)

(** ** Characters *)

Ltac by_chars c :=
  destruct c as [[] [] [] [] [] [] [] []]; vm_compute; intros; congruence.

Lemma lower_slug_out (c : ascii) : slug_out c = true -> lower_char c = c.
Proof. by_chars c. Qed.

Lemma slug_out_facts (c : ascii) :
  slug_out c = true ->
  is_space c = false /\ is_markup c = false /\ is_slug_char c = true
  /\ chr_eqb "<" c = false.
Proof.
  destruct c as [[] [] [] [] [] [] [] []]; vm_compute; intros; repeat split; congruence.
Qed.

Lemma slug_char_not_gap (c : ascii) :
  is_slug_char c = true -> is_gap c = false -> slug_out c = true.
Proof. by_chars c. Qed.

Lemma gap_slug_out (c : ascii) : slug_out c = true -> is_gap c = chr_eqb c "-".
Proof. by_chars c. Qed.

Lemma dash_is_gap (c : ascii) : is_gap c = false -> chr_eqb c "-" = false.
Proof. by_chars c. Qed.

Lemma lower_char_space (c : ascii) : is_space (lower_char c) = is_space c.
Proof. by_chars c. Qed.

Lemma lower_char_idem (c : ascii) : lower_char (lower_char c) = lower_char c.
Proof. by_chars c. Qed.

(** ** Substitutions of one kind *)

Lemma forallb_cons_true {A : Type} (f : A -> bool) (x : A) (l : list A) :
  forallb f (x :: l) = true <-> f x = true /\ forallb f l = true.
Proof. cbn [forallb]. apply andb_true_iff. Qed.

(** A substitution by the empty text keeps what holds of every character. *)
Lemma sub_from_erase_forall (r : regex) (Q : ascii -> bool) (s : list ascii) (skip : nat)
    (prev : option ascii) :
  forallb Q s = true -> forallb Q (sub_from r (fun _ => []) skip prev s) = true.
Proof.
  revert skip prev. induction s as [|c s IH]; intros skip prev H; cbn [sub_from]; [done|].
  apply forallb_cons_true in H as [Hc H].
  destruct skip; [|by apply IH].
  destruct (match_at r prev (c :: s)) as [m|].
  - destruct (m_text m); cbn [app forallb]; rewrite ?Hc; by apply IH.
  - cbn [forallb]. rewrite Hc. by apply IH.
Qed.

(** The characters a substitution leaves and those it brings. *)
Lemma sub_from_forall (r : regex) (f : rmatch -> list ascii) (P Q : ascii -> bool) :
  (forall m, forallb Q (f m) = true) ->
  (forall prev c s', P c = true -> match_at r prev (c :: s') = None -> Q c = true) ->
  (forall prev c s' m, match_at r prev (c :: s') = Some m -> m_text m <> []) ->
  forall s skip prev,
    forallb P s = true -> forallb Q (sub_from r f skip prev s) = true.
Proof.
  intros Hf Hnone Hsome. induction s as [|c s IH]; intros skip prev H; cbn [sub_from]; [done|].
  apply forallb_cons_true in H as [Hc H].
  destruct skip; [|by apply IH].
  destruct (match_at r prev (c :: s)) as [m|] eqn:Hm.
  - destruct (m_text m) eqn:Ht; [by destruct (Hsome _ _ _ _ Hm)|].
    rewrite forallb_app, Hf. by apply IH.
  - cbn [forallb]. rewrite (Hnone _ _ _ Hc Hm). by apply IH.
Qed.

(** A substitution whose pattern starts nowhere leaves the text. *)
Lemma sub_from_id (r : regex) (f : rmatch -> list ascii) (P : ascii -> bool) :
  (forall prev c s', P c = true -> match_at r prev (c :: s') = None) ->
  forall s prev, forallb P s = true -> sub_from r f 0 prev s = s.
Proof.
  intros Hnone. induction s as [|c s IH]; intros prev H; cbn [sub_from]; [done|].
  apply forallb_cons_true in H as [Hc H].
  by rewrite (Hnone _ _ _ Hc), IH.
Qed.

Lemma cls_match (p : ascii -> bool) (prev : option ascii) (c : ascii) (s : list ascii) :
  match_at (Cls p) prev (c :: s) = if p c then Some (RMatch [c] []) else None.
Proof.
  unfold match_at. cbn [exec ms_rest ms_caps]. destruct (p c); [|done].
  cbn [ms_rest ms_caps length]. replace (S (length s) - length s) with 1 by lia. done.
Qed.

(** Every text splits into its first run of a class and the rest. *)
Lemma run_split (p : ascii -> bool) (s : list ascii) :
  exists w rest,
    s = w ++ rest /\ forallb p w = true
    /\ match rest with c :: _ => p c = false | [] => True end.
Proof.
  induction s as [|c s (w & rest & -> & Hw & Hrest)]; [by exists [], []|].
  destruct (p c) eqn:Hc.
  - exists (c :: w), rest. cbn [forallb app]. by rewrite Hc.
  - by exists [], (c :: w ++ rest).
Qed.

Lemma plus_match (p : ascii -> bool) (prev : option ascii) (w rest : list ascii) :
  forallb p w = true ->
  w <> [] ->
  match rest with c :: _ => p c = false | [] => True end ->
  match_at (plus p) prev (w ++ rest) = Some (RMatch w []).
Proof.
  intros Hw Hne Hrest. unfold match_at, plus. cbn [exec ms_rest ms_caps ms_prev].
  erewrite rep_greedy_run; [| done | done | | done | reflexivity].
  - cbn [ms_rest ms_caps]. by rewrite take_consumed.
  - destruct w; [done|]. cbn [length]. lia.
Qed.

Lemma plus_no_match (p : ascii -> bool) (prev : option ascii) (c : ascii) (s : list ascii) :
  p c = false -> match_at (plus p) prev (c :: s) = None.
Proof.
  intros Hc. unfold match_at, plus. cbn [exec ms_rest ms_caps ms_prev rep]. by rewrite Hc.
Qed.

Lemma plus_match_text (p : ascii -> bool) (prev : option ascii) (c : ascii) (s : list ascii)
    (m : rmatch) :
  match_at (plus p) prev (c :: s) = Some m -> m_text m <> [].
Proof.
  destruct (p c) eqn:Hc; [|by rewrite plus_no_match].
  destruct (run_split p s) as (w & rest & -> & Hw & Hrest).
  change (c :: w ++ rest) with ((c :: w) ++ rest).
  rewrite plus_match; [by intros [= <-] | | done | done].
  cbn [forallb]. by rewrite Hc.
Qed.

Lemma prev_free_plus (p : ascii -> bool) : prev_free (plus p) = true.
Proof. reflexivity. Qed.

(** Induction on the length of a text. *)
Lemma length_ind (P : list ascii -> Prop) :
  (forall s, (forall t, length t < length s -> P t) -> P s) -> forall s, P s.
Proof.
  intros H s. assert (Hn : forall n t, length t < n -> P t).
  { induction n as [|n IH]; intros t Ht; [lia|]. apply H. intros u Hu. apply IH. lia. }
  apply (Hn (S (length s))). lia.
Qed.

(** ** Stripping *)

Lemma lstrip_by_split (p : ascii -> bool) (s : list ascii) :
  exists pre, s = pre ++ lstrip_by p s /\ forallb p pre = true.
Proof.
  induction s as [|c s (pre & Hs & Hpre)]; [by exists []|].
  cbn [lstrip_by]. destruct (p c) eqn:Hc; [|by exists []].
  exists (c :: pre). cbn [forallb app]. rewrite Hc, Hpre. by rewrite <- Hs.
Qed.

Lemma lstrip_by_head (p : ascii -> bool) (s : list ascii) :
  match lstrip_by p s with c :: _ => p c = false | [] => True end.
Proof.
  induction s as [|c s IH]; [done|]. cbn [lstrip_by].
  destruct (p c) eqn:Hc; [done|]. by rewrite Hc.
Qed.

Lemma lstrip_by_id (p : ascii -> bool) (s : list ascii) :
  match s with c :: _ => p c = false | [] => True end -> lstrip_by p s = s.
Proof. destruct s as [|c s]; [done|]. cbn [lstrip_by]. by intros ->. Qed.

Lemma rstrip_by_split (p : ascii -> bool) (s : list ascii) :
  exists suf, s = rstrip_by p s ++ suf.
Proof.
  unfold rstrip_by. destruct (lstrip_by_split p (rev s)) as (pre & Hs & _).
  exists (rev pre). rewrite <- rev_app_distr, <- Hs. by rewrite rev_involutive.
Qed.

(** What is left of a text stripped on both sides starts and ends with a
    character that is kept. *)
Lemma strip_by_ends (p : ascii -> bool) (s : list ascii) :
  match strip_by p s with c :: _ => p c = false | [] => True end
  /\ match rev (strip_by p s) with c :: _ => p c = false | [] => True end.
Proof.
  unfold strip_by. split.
  - pose proof (lstrip_by_head p s) as Hh.
    destruct (rstrip_by_split p (lstrip_by p s)) as (suf & Hs).
    destruct (rstrip_by p (lstrip_by p s)) as [|c t]; [done|].
    rewrite Hs in Hh. exact Hh.
  - unfold rstrip_by. rewrite rev_involutive. apply lstrip_by_head.
Qed.

Lemma strip_by_id (p : ascii -> bool) (s : list ascii) :
  match s with c :: _ => p c = false | [] => True end ->
  match rev s with c :: _ => p c = false | [] => True end ->
  strip_by p s = s.
Proof.
  intros Hh Hl. unfold strip_by, rstrip_by.
  rewrite (lstrip_by_id p s Hh), (lstrip_by_id p (rev s) Hl). apply rev_involutive.
Qed.

Lemma strip_by_idem (p : ascii -> bool) (s : list ascii) :
  strip_by p (strip_by p s) = strip_by p s.
Proof. destruct (strip_by_ends p s). by apply strip_by_id. Qed.

Lemma strip_by_sub (p : ascii -> bool) (s : list ascii) :
  exists pre suf, s = pre ++ strip_by p s ++ suf.
Proof.
  unfold strip_by. destruct (lstrip_by_split p s) as (pre & Hs & _).
  destruct (rstrip_by_split p (lstrip_by p s)) as (suf & Ht).
  exists pre, suf. by rewrite <- Ht.
Qed.

Lemma startswith_nil (s : list ascii) : startswith s [] = true.
Proof. by destruct s. Qed.

Lemma startswith_app (a b p : list ascii) :
  startswith a p = true -> startswith (a ++ b) p = true.
Proof.
  revert a. induction p as [|x p IH]; intros a; [by destruct (a ++ b), a|].
  destruct a as [|c a]; cbn [startswith app]; [done|].
  intros [-> H]%andb_true_iff. by rewrite (IH _ H).
Qed.

Lemma contains_app_l (a b p : list ascii) :
  contains (a ++ b) p = false -> contains a p = false.
Proof.
  induction a as [|c a IH]; cbn [app].
  - destruct p; cbn; [|done]. by destruct b.
  - cbn [contains]. intros [H1 H2]%orb_false_iff.
    rewrite (IH H2), orb_false_r.
    destruct (startswith (c :: a) p) eqn:E; [|done].
    apply (startswith_app _ b) in E. cbn [app] in E. congruence.
Qed.

Lemma contains_app_r (a b p : list ascii) :
  contains (a ++ b) p = false -> contains b p = false.
Proof.
  induction a as [|c a IH]; cbn [app]; [done|].
  cbn [contains]. intros [_ H]%orb_false_iff. by apply IH.
Qed.

Lemma forallb_app_l {A : Type} (f : A -> bool) (a b : list A) :
  forallb f (a ++ b) = true -> forallb f a = true.
Proof. rewrite forallb_app. by intros [? _]%andb_true_iff. Qed.

Lemma forallb_app_r {A : Type} (f : A -> bool) (a b : list A) :
  forallb f (a ++ b) = true -> forallb f b = true.
Proof. rewrite forallb_app. by intros [_ ?]%andb_true_iff. Qed.

Lemma forallb_rev_true {A : Type} (f : A -> bool) (l : list A) :
  forallb f l = true -> forallb f (rev l) = true.
Proof.
  induction l as [|x l IH]; [done|]. cbn [rev forallb].
  intros [Hx Hl]%andb_true_iff. rewrite forallb_app, (IH Hl). cbn. by rewrite Hx.
Qed.

(** ** The slug of a heading *)

Lemma gap_match_none (prev : option ascii) (c : ascii) (s : list ascii) :
  match_at (plus is_gap) prev (c :: s) = None -> is_gap c = false.
Proof.
  intros H. destruct (is_gap c) eqn:Hc; [|done].
  destruct (run_split is_gap s) as (w & rest & -> & Hw & Hrest).
  change (c :: w ++ rest) with ((c :: w) ++ rest) in H.
  rewrite plus_match in H; [done| |done|done]. cbn [forallb]. by rewrite Hc.
Qed.

(** After the runs of white space and hyphens are replaced, only letters,
    digits and hyphens are left. *)
Lemma collapse_chars (s : list ascii) (prev : option ascii) :
  forallb is_slug_char s = true ->
  forallb slug_out (sub_from (plus is_gap) (fun _ => py "-") 0 prev s) = true.
Proof.
  apply sub_from_forall with (P := is_slug_char).
  - done.
  - intros pv c s' Hc Hm. apply slug_char_not_gap; [done|]. by apply gap_match_none in Hm.
  - intros pv c s' m. apply plus_match_text.
Qed.

Lemma collapse_keep (c : ascii) (s : list ascii) (prev : option ascii) :
  is_gap c = false ->
  sub_from (plus is_gap) (fun _ => py "-") 0 prev (c :: s)
  = c :: sub_from (plus is_gap) (fun _ => py "-") 0 None s.
Proof.
  intros Hc. apply sub_from_no_match; [done|]. by apply plus_no_match.
Qed.

Lemma collapse_run (w rest : list ascii) (prev : option ascii) :
  forallb is_gap w = true ->
  w <> [] ->
  match rest with c :: _ => is_gap c = false | [] => True end ->
  sub_from (plus is_gap) (fun _ => py "-") 0 prev (w ++ rest)
  = "-"%char :: sub_from (plus is_gap) (fun _ => py "-") 0 None rest.
Proof.
  intros Hw Hne Hrest.
  apply (sub_from_match (plus is_gap) (fun _ => py "-") (RMatch w []) rest prev);
    [done|done|]. by apply plus_match.
Qed.

Lemma collapse_head (s : list ascii) :
  match s with c :: _ => is_gap c = false | [] => True end ->
  startswith (sub_from (plus is_gap) (fun _ => py "-") 0 None s) (py "-") = false.
Proof.
  destruct s as [|c s]; [done|]. intros Hc. rewrite collapse_keep by done.
  cbn [py list_ascii_of_string startswith].
  apply dash_is_gap in Hc. unfold chr_eqb in *. rewrite Ascii.eqb_sym, Hc. done.
Qed.

(** No two hyphens follow one another once the runs are replaced. *)
Lemma collapse_no_double (s : list ascii) (prev : option ascii) :
  contains (sub_from (plus is_gap) (fun _ => py "-") 0 prev s) (py "--") = false.
Proof.
  revert prev. induction s as [s IH] using length_ind. intros prev.
  destruct s as [|c s]; [done|].
  destruct (is_gap c) eqn:Hc.
  - destruct (run_split is_gap s) as (w & rest & -> & Hw & Hrest).
    change (c :: w ++ rest) with ((c :: w) ++ rest).
    rewrite collapse_run; [| by cbn [forallb]; rewrite Hc | done | done].
    cbn [contains]. rewrite IH by (cbn [length]; rewrite length_app; lia).
    rewrite orb_false_r.
    change (startswith ("-"%char :: ?t) (py "--")) with (chr_eqb "-" "-" && startswith t (py "-")).
    rewrite collapse_head by done. done.
  - rewrite collapse_keep by done. cbn [contains].
    rewrite IH by (cbn [length]; lia). rewrite orb_false_r.
    apply dash_is_gap in Hc.
    change (startswith (c :: ?t) (py "--")) with (chr_eqb "-" c && startswith t (py "-")).
    unfold chr_eqb in *. rewrite Ascii.eqb_sym, Hc. done.
Qed.

(** A text of letters, digits and single hyphens has no run to replace. *)
Lemma collapse_id (t : list ascii) (prev : option ascii) :
  forallb slug_out t = true ->
  contains t (py "--") = false ->
  sub_from (plus is_gap) (fun _ => py "-") 0 prev t = t.
Proof.
  revert prev. induction t as [|c t IH]; intros prev Ht Hdd; [done|].
  apply forallb_cons_true in Ht as [Hc Ht].
  cbn [contains] in Hdd. apply orb_false_iff in Hdd as [Hst Hdd].
  destruct (is_gap c) eqn:Hg.
  - rewrite gap_slug_out in Hg by done. apply chr_eqb_eq in Hg as ->.
    assert (Hrest : match t with c :: _ => is_gap c = false | [] => True end).
    { destruct t as [|d t]; [done|]. apply forallb_cons_true in Ht as [Hd _].
      rewrite gap_slug_out by done.
      change (chr_eqb "-" "-" && (chr_eqb "-" d && startswith t []) = false) in Hst.
      rewrite startswith_nil, andb_true_r in Hst. cbn [andb] in Hst.
      unfold chr_eqb in *. by rewrite Ascii.eqb_sym. }
    change ("-"%char :: t) with (["-"%char] ++ t).
    rewrite collapse_run by done. by rewrite IH.
  - rewrite collapse_keep by done. by rewrite IH.
Qed.

Lemma is_slug_intro (t : list ascii) :
  t <> [] ->
  forallb slug_out t = true ->
  match t with c :: _ => chr_eqb "-" c = false | [] => True end ->
  match rev t with c :: _ => chr_eqb "-" c = false | [] => True end ->
  contains t (py "--") = false ->
  is_slug t = true.
Proof.
  intros Hne Hall Hh Hl Hdd. unfold is_slug, endswith. rewrite Hall, Hdd.
  change (rev (py "-")) with (py "-").
  destruct t as [|c t]; [done|].
  change (startswith (c :: t) (py "-")) with (chr_eqb "-" c && startswith t []).
  rewrite Hh. destruct (rev (c :: t)) as [|d u]; [done|].
  change (startswith (d :: u) (py "-")) with (chr_eqb "-" d && startswith u []).
  by rewrite Hl.
Qed.

Lemma is_slug_elim (t : list ascii) :
  is_slug t = true ->
  t <> []
  /\ forallb slug_out t = true
  /\ match t with c :: _ => chr_eqb "-" c = false | [] => True end
  /\ match rev t with c :: _ => chr_eqb "-" c = false | [] => True end
  /\ contains t (py "--") = false.
Proof.
  unfold is_slug, endswith. change (rev (py "-")) with (py "-").
  intros ((((Hne & Hall)%andb_true_iff & Hh)%andb_true_iff & Hl)%andb_true_iff
            & Hdd)%andb_true_iff.
  apply negb_true_iff in Hh, Hl, Hdd.
  destruct t as [|c t]; [done|]. repeat split; try done.
  - change (startswith (c :: t) (py "-")) with (chr_eqb "-" c && startswith t []) in Hh.
    by rewrite startswith_nil, andb_true_r in Hh.
  - destruct (rev (c :: t)) as [|d u]; [done|].
    change (startswith (d :: u) (py "-")) with (chr_eqb "-" d && startswith u []) in Hl.
    by rewrite startswith_nil, andb_true_r in Hl.
Qed.

Lemma forallb_const_true (s : list ascii) : forallb (fun _ => true) s = true.
Proof. by induction s. Qed.

Lemma slugify_shape (s : list ascii) : is_slug (slugify s) = true.
Proof.
  unfold slugify. cbv zeta.
  set (s2 := re_sub (Cls is_markup) _ _).
  assert (H3 : forallb is_slug_char
                 (re_sub (Cls (fun c => negb (is_slug_char c))) (fun _ => []) s2) = true).
  { apply sub_from_forall with (P := fun _ => true).
    - done.
    - intros pv c s' _. rewrite cls_match. by destruct (is_slug_char c).
    - intros pv c s' m. rewrite cls_match.
      destruct (negb (is_slug_char c)); [by intros [= <-]|done].
    - apply forallb_const_true. }
  set (s3 := re_sub (Cls _) _ s2) in *.
  pose proof (collapse_chars s3 None H3) as H4.
  pose proof (collapse_no_double s3 None) as Hdd.
  fold (re_sub (plus is_gap) (fun _ => py "-") s3) in H4, Hdd.
  set (s4 := re_sub (plus is_gap) _ s3) in *.
  destruct (strip_by_sub (chr_eqb "-") s4) as (pre & suf & Hs4).
  destruct (strip_by_ends (chr_eqb "-") s4) as [Hh Hl].
  rewrite Hs4 in H4, Hdd.
  apply forallb_app_r, forallb_app_l in H4.
  apply contains_app_r, contains_app_l in Hdd.
  destruct (strip_by (chr_eqb "-") s4) as [|c t] eqn:E; [by vm_compute|].
  by apply is_slug_intro.
Qed.

Lemma lower_id (t : list ascii) : forallb slug_out t = true -> lower t = t.
Proof.
  induction t as [|c t IH]; [done|]. intros [Hc Ht]%forallb_cons_true.
  unfold lower in *. cbn [map]. by rewrite lower_slug_out, IH.
Qed.

Lemma slug_ends_kept (p : ascii -> bool) (t : list ascii) :
  (forall c, slug_out c = true -> chr_eqb "-" c = false -> p c = false) ->
  is_slug t = true ->
  strip_by p t = t.
Proof.
  intros Hp (Hne & Hall & Hh & Hl & _)%is_slug_elim.
  apply strip_by_id.
  - destruct t as [|c t]; [done|]. apply forallb_cons_true in Hall as [Hc _]. by apply Hp.
  - apply forallb_rev_true in Hall. destruct (rev t) as [|c u]; [done|].
    apply forallb_cons_true in Hall as [Hc _]. by apply Hp.
Qed.

Lemma slugify_of_slug (t : list ascii) : is_slug t = true -> slugify t = t.
Proof.
  intros Ht. pose proof (is_slug_elim t Ht) as (Hne & Hall & Hh & Hl & Hdd).
  unfold slugify. cbv zeta. unfold strip.
  rewrite (slug_ends_kept is_space t) by
    (done || intros c Hc _; by destruct (slug_out_facts c Hc)).
  rewrite lower_id by done.
  unfold re_sub.
  rewrite (sub_from_id (rseq [chr "<"; plus (not_chr ">"); chr ">"]) _ slug_out) by
    (done || intros pv c s' Hc; destruct (slug_out_facts c Hc) as (_ & _ & _ & Hlt);
     unfold match_at, chr; cbn [rseq exec ms_rest ms_caps]; by rewrite Hlt).
  rewrite (sub_from_id (Cls is_markup) _ slug_out) by
    (done || intros pv c s' Hc; destruct (slug_out_facts c Hc) as (_ & Hm & _);
     by rewrite cls_match, Hm).
  rewrite (sub_from_id (Cls (fun c => negb (is_slug_char c))) _ slug_out) by
    (done || intros pv c s' Hc; destruct (slug_out_facts c Hc) as (_ & _ & Hk & _);
     by rewrite cls_match, Hk).
  rewrite collapse_id by done.
  rewrite (slug_ends_kept (chr_eqb "-") t) by done.
  by destruct t.
Qed.

Lemma lstrip_lower (s : list ascii) :
  lstrip_by is_space (lower s) = lower (lstrip_by is_space s).
Proof.
  unfold lower. induction s as [|c s IH]; [done|]. cbn [map lstrip_by].
  rewrite lower_char_space. by destruct (is_space c).
Qed.

Lemma strip_lower (s : list ascii) : strip (lower s) = lower (strip s).
Proof.
  unfold strip, strip_by, rstrip_by. rewrite lstrip_lower.
  unfold lower at 1. rewrite <- map_rev. fold (lower (rev (lstrip_by is_space s))).
  rewrite lstrip_lower. unfold lower. by rewrite map_rev.
Qed.

Lemma lower_idem (s : list ascii) : lower (lower s) = lower s.
Proof.
  unfold lower. induction s as [|c s IH]; [done|]. cbn [map].
  by rewrite lower_char_idem, IH.
Qed.

(** X1.  Whatever the heading, [slugify] returns a text that is not empty,
    is made of the letters a to z, the digits and the hyphen only, neither
    starts nor ends with a hyphen and has no two hyphens in a row. *)
Theorem slugify_returns_slug (s : list ascii) : is_slug (slugify s) = true.
Proof. apply slugify_shape. Qed.

(** X2.  A text that already has the form of a slug is its own slug. *)
Theorem slug_is_its_own_slug (t : list ascii) : is_slug t = true -> slugify t = t.
Proof. apply slugify_of_slug. Qed.

Lemma slug_is_its_own_slug_witness :
  is_slug (py "getting-started-2") = true
  /\ slugify (py "getting-started-2") = py "getting-started-2".
Proof.
  split; [reflexivity|]. apply (slug_is_its_own_slug (py "getting-started-2")). reflexivity.
Defined.

(** X3.  [slugify] is idempotent, and the slug of a heading depends neither
    on its case nor on the white space around it. *)
Theorem slugify_idempotent_and_insensitive (s : list ascii) :
  slugify (slugify s) = slugify s
  /\ slugify (lower s) = slugify s
  /\ slugify (strip s) = slugify s.
Proof.
  split; [apply slugify_of_slug, slugify_shape|]. split.
  - unfold slugify. cbv zeta. by rewrite strip_lower, lower_idem.
  - unfold slugify. cbv zeta. unfold strip. by rewrite strip_by_idem.
Qed.

(** ** The ids of the headings *)

Lemma heading_ids_issue (file_slug : list ascii) (lines : list (list ascii))
    (counts : gmap (list ascii) nat) :
  heading_ids file_slug counts lines = issue_ids counts (heading_bases file_slug lines).
Proof.
  revert counts. induction lines as [|line rest IH]; intros counts; [done|].
  cbn [heading_ids heading_bases].
  destruct (re_match ATX_HEADING_RE line) as [m|]; [|apply IH].
  destruct (contains (group_str m 2) (py "{#")); [apply IH|].
  cbn [issue_ids]. unfold make_unique_id. cbv zeta. by rewrite IH.
Qed.

Lemma str_eqb_neq (a b : list ascii) : a <> b -> str_eqb a b = false.
Proof.
  intros H. destruct (str_eqb a b) eqn:E; [|done]. by apply str_eqb_eq in E.
Qed.

Lemma issue_ids_at (bases : list (list ascii)) (counts : gmap (list ascii) nat)
    (i : nat) (b : list ascii) :
  bases !! i = Some b ->
  issue_ids counts bases !! i
  = Some (nth_id b (default 0 (counts !! b) + 1 + occurrences b (take i bases))).
Proof.
  revert counts i. induction bases as [|b0 rest IH]; intros counts i Hi; [done|].
  cbn [issue_ids]. unfold make_unique_id. cbv zeta.
  destruct i as [|i].
  - injection Hi as ->. cbn [take occurrences]. by rewrite Nat.add_0_r.
  - change ((?x :: ?l) !! S i) with (l !! i). change ((b0 :: rest) !! S i) with (rest !! i) in Hi.
    rewrite (IH _ _ Hi). cbn [take occurrences]. do 2 f_equal.
    destruct (decide (b0 = b)) as [->|Hne].
    + rewrite lookup_insert_eq, str_eqb_refl. cbn [default]. unfold id. lia.
    + rewrite lookup_insert_ne by done. rewrite (str_eqb_neq b b0) by congruence. lia.
Qed.

Lemma to_uint_not_nil (n : nat) : Nat.to_uint n <> Decimal.Nil.
Proof.
  intros E. pose proof (DecimalNat.Unsigned.to_of (Nat.to_uint n)) as H.
  rewrite DecimalNat.Unsigned.of_to, E in H. discriminate H.
Qed.

Lemma str_of_nat_inj (n m : nat) : str_of_nat n = str_of_nat m -> n = m.
Proof.
  unfold str_of_nat, py. intros H.
  apply (f_equal string_of_list_ascii) in H.
  rewrite !string_of_list_ascii_of_string in H.
  apply (f_equal NilZero.uint_of_string) in H.
  rewrite !NilZero.usu in H by apply to_uint_not_nil. injection H as H.
  by apply DecimalNat.Unsigned.to_uint_inj.
Qed.

Lemma nth_id_inj (b : list ascii) (n m : nat) :
  1 <= n -> 1 <= m -> nth_id b n = nth_id b m -> n = m.
Proof.
  intros Hn Hm. unfold nth_id.
  destruct (Nat.eqb_spec n 1) as [->|Hn1], (Nat.eqb_spec m 1) as [->|Hm1]; [done| | |].
  - intros H. apply (f_equal length) in H. rewrite length_app in H. cbn [py list_ascii_of_string app length] in H. lia.
  - intros H. apply (f_equal length) in H. rewrite length_app in H. cbn [py list_ascii_of_string app length] in H. lia.
  - intros H%app_inv_head. injection H as H. by apply str_of_nat_inj.
Qed.

Lemma occurrences_take_lt (b : list ascii) (bases : list (list ascii)) (i j : nat) :
  i < j -> bases !! i = Some b ->
  occurrences b (take i bases) < occurrences b (take j bases).
Proof.
  revert i j. induction bases as [|b0 rest IH]; intros i j Hij Hi; [done|].
  destruct j as [|j]; [lia|]. destruct i as [|i].
  - injection Hi as ->. cbn [take occurrences]. rewrite str_eqb_refl. lia.
  - cbn [take occurrences]. apply Nat.add_lt_mono_l. apply IH; [lia|done].
Qed.

(** X4.  Within one document the [k]-th heading whose base id is [b] (the
    slug of the file, a hyphen and the slug of the title) gets the id [b]
    when [k] is 1 and [b-k] otherwise, whatever headings stand in between. *)
Theorem heading_ids_number_the_repeats (file_slug : list ascii) (lines : list (list ascii))
    (i : nat) (b : list ascii) :
  heading_bases file_slug lines !! i = Some b ->
  heading_ids file_slug ∅ lines !! i
  = Some (nth_id b (1 + occurrences b (take i (heading_bases file_slug lines)))).
Proof.
  intros Hi. rewrite heading_ids_issue, (issue_ids_at _ _ _ _ Hi).
  by rewrite lookup_empty.
Qed.

Lemma heading_ids_number_the_repeats_witness :
  heading_ids (py "f") ∅ [py "# A"; py "text"; py "## B"; py "# A"] !! 2
  = Some (py "f-a-2").
Proof.
  apply (heading_ids_number_the_repeats (py "f")
           [py "# A"; py "text"; py "## B"; py "# A"] 2 (py "f-a")).
  vm_compute. reflexivity.
Defined.

(** X5.  Two headings of one document with the same base id never get the
    same id. *)
Theorem same_base_ids_differ (file_slug : list ascii) (lines : list (list ascii))
    (i j : nat) (b : list ascii) :
  i <> j ->
  heading_bases file_slug lines !! i = Some b ->
  heading_bases file_slug lines !! j = Some b ->
  heading_ids file_slug ∅ lines !! i <> heading_ids file_slug ∅ lines !! j.
Proof.
  intros Hij Hi Hj. rewrite heading_ids_issue.
  rewrite (issue_ids_at _ _ _ _ Hi), (issue_ids_at _ _ _ _ Hj).
  intros [= H]. apply nth_id_inj in H; [|lia|lia].
  destruct (Nat.lt_total i j) as [Hlt|[->|Hlt]]; [|done|].
  - pose proof (occurrences_take_lt b _ i j Hlt Hi). lia.
  - pose proof (occurrences_take_lt b _ j i Hlt Hj). lia.
Qed.

Lemma same_base_ids_differ_witness :
  heading_ids (py "f") ∅ [py "# A"; py "## a"; py "# A"] !! 0
  <> heading_ids (py "f") ∅ [py "# A"; py "## a"; py "# A"] !! 2.
Proof.
  apply (same_base_ids_differ (py "f") [py "# A"; py "## a"; py "# A"] 0 2 (py "f-a"));
    [lia | vm_compute; reflexivity | vm_compute; reflexivity].
Defined.

(** ** The target of a link *)

Lemma split_once_parts (t : list ascii) :
  has_char "#" t = true ->
  has_char "#" (split_once "#" t).1 = false
  /\ t = (split_once "#" t).1 ++ py "#" ++ (split_once "#" t).2.
Proof.
  induction t as [|c t IH]; [done|]. unfold has_char in *. cbn [existsb split_once].
  destruct (chr_eqb c "#") eqn:Hc.
  - apply chr_eqb_eq in Hc as ->. by intros _.
  - unfold chr_eqb in *. rewrite Ascii.eqb_sym, Hc. cbn [orb]. intros Ht.
    destruct (IH Ht) as [H1 H2]. destruct (split_once "#" t) as [a b].
    cbn [fst snd existsb] in *. rewrite Ascii.eqb_sym, Hc, H1. split; [done|].
    by rewrite H2 at 1.
Qed.

(** X6.  [split_link_target] cuts a target at its first [#]: the path part
    holds no [#], the target is the path, the [#] and the fragment put
    together, and a target without [#] is all path. *)
Theorem split_link_target_parts (target : list ascii) :
  has_char "#" (split_link_target target).1 = false
  /\ (if has_char "#" target
      then target = (split_link_target target).1 ++ py "#" ++ (split_link_target target).2
      else split_link_target target = (target, [])).
Proof.
  unfold split_link_target. destruct (has_char "#" target) eqn:H; [|done].
  by apply split_once_parts.
Qed.

(** What a quantified class read when the pattern went on to succeed. *)
Lemma rep_some {R : Type} (g : bool) (p : ascii -> bool) (s : list ascii) (lo : nat)
    (hi : option nat) (prev : option ascii)
    (k : option ascii -> list ascii -> option R) (x : R) :
  rep g p lo hi prev s k = Some x ->
  exists s1 s2 pv,
    s = s1 ++ s2 /\ forallb p s1 = true /\ lo <= length s1 /\ k pv s2 = Some x.
Proof.
  revert lo hi prev. induction s as [|c s IH]; intros lo hi prev; cbn [rep].
  - destruct lo; [|done]. cbn [rep_stop]. intros H. exists [], [], prev. by cbn; auto with lia.
  - assert (Hstop : rep_stop lo prev (c :: s) k = Some x ->
                    exists s1 s2 pv, c :: s = s1 ++ s2 /\ forallb p s1 = true
                                     /\ lo <= length s1 /\ k pv s2 = Some x).
    { destruct lo; [|done]. cbn [rep_stop]. intros H. exists [], (c :: s), prev.
      by cbn; auto with lia. }
    assert (Hgo : rep g p (Nat.pred lo) (hi_pred hi) (Some c) s k = Some x -> p c = true ->
                  exists s1 s2 pv, c :: s = s1 ++ s2 /\ forallb p s1 = true
                                   /\ lo <= length s1 /\ k pv s2 = Some x).
    { intros (s1 & s2 & pv & -> & Hs1 & Hlo & Hk)%IH Hc. exists (c :: s1), s2, pv.
      cbn [forallb length app]. rewrite Hc, Hs1. repeat split; [lia|done]. }
    destruct (p c) eqn:Hc; [|done]. destruct (hi_allows hi); [|done]. cbn [andb].
    destruct g.
    + destruct (rep true p (Nat.pred lo) (hi_pred hi) (Some c) s k) eqn:E; [|done].
      intros [= ->]. by apply Hgo.
    + destruct (rep_stop lo prev (c :: s) k) eqn:E; [intros [= ->]; by apply Hstop|].
      intros H. by apply Hgo.
Qed.

Lemma url_match (prev : option ascii) (c : ascii) (scheme rest : list ascii) :
  is_alpha_az c = true ->
  forallb is_scheme_char scheme = true ->
  re_test URL_RE (c :: scheme ++ py "://" ++ rest) = true.
Proof.
  intros Hc Hs. unfold re_test, re_match, match_at, URL_RE, star, lit, chr.
  cbn [rseq map py list_ascii_of_string exec at_bol ms_prev ms_rest ms_caps].
  rewrite Hc.
  erewrite rep_greedy_run; [done | done | | cbn; lia | done | ].
  - cbn [app]. reflexivity.
  - cbn [app exec ms_rest ms_caps]. rewrite !chr_eqb_refl. reflexivity.
Qed.

Lemma url_match_inv (s : list ascii) :
  re_test URL_RE s = true ->
  exists c scheme rest,
    is_alpha_az c = true /\ forallb is_scheme_char scheme = true
    /\ s = c :: scheme ++ py "://" ++ rest.
Proof.
  unfold re_test, re_match, match_at, URL_RE, star, lit, chr.
  cbn [rseq map py list_ascii_of_string exec at_bol ms_prev ms_rest ms_caps].
  destruct s as [|c s]; [done|]. destruct (is_alpha_az c) eqn:Hc; [|done].
  cbn [ms_prev ms_rest ms_caps].
  destruct (rep _ _ _ _ _ _ _) as [st|] eqn:E; [|done]. intros _.
  apply rep_some in E as (s1 & s2 & pv & -> & Hs1 & _ & Hk).
  exists c, s1. cbn [exec ms_rest ms_caps] in Hk.
  destruct s2 as [|a s2]; [done|]. destruct (chr_eqb ":" a) eqn:Ha; [|done].
  cbn [ms_rest] in Hk.
  destruct s2 as [|b s2]; [done|]. destruct (chr_eqb "/" b) eqn:Hb; [|done].
  cbn [ms_rest] in Hk.
  destruct s2 as [|d s2]; [done|]. destruct (chr_eqb "/" d) eqn:Hd; [|done].
  apply chr_eqb_eq in Ha as <-, Hb as <-, Hd as <-. by exists s2.
Qed.

Lemma startswith_iff (s p : list ascii) :
  startswith s p = true <-> exists rest, s = p ++ rest.
Proof.
  revert s. induction p as [|x p IH]; intros s.
  - rewrite startswith_nil. split; [by exists s|done].
  - destruct s as [|c s]; cbn [startswith].
    + split; [done|]. by intros [rest [=]].
    + rewrite andb_true_iff, IH. split.
      * intros [->%chr_eqb_eq [rest ->]]. by exists rest.
      * intros [rest [= -> ->]]. rewrite chr_eqb_refl. eauto.
Qed.

(** X7.  [looks_like_url] accepts exactly the targets that start with a
    letter, then letters, digits, [+], [-] or [.], then [://], and the
    targets that start with [mailto:]. *)
Theorem looks_like_url_iff (s : list ascii) :
  looks_like_url s = true
  <-> (exists c scheme rest,
         is_alpha_az c = true /\ forallb is_scheme_char scheme = true
         /\ s = c :: scheme ++ py "://" ++ rest)
      \/ (exists rest, s = py "mailto:" ++ rest).
Proof.
  unfold looks_like_url. rewrite orb_true_iff, startswith_iff. split.
  - intros [H|H]; [left; by apply url_match_inv | by right].
  - intros [(c & scheme & rest & Hc & Hs & ->)|H]; [left; by apply (url_match None) | by right].
Qed.

(** X8.  A link that is no candidate for resolution (its target is a URL,
    starts with [#], has no path, or the path does not end in [.md] or
    [.markdown]) is left as it was written, whatever the table holds, and
    the rewriting goes on after it. *)
Theorem other_link_is_left_alone
    (tbl : gmap (list ascii) (list ascii)) (folder_root current_file : list (list ascii))
    (pre label target post : list ascii) :
  no_link_start pre = true ->
  label <> [] ->
  has_char "]" label = false ->
  target <> [] ->
  has_char ")" target = false ->
  candidate (link_of label target) = false ->
  exists tl,
    rewrite_links tbl folder_root current_file post = Ok tl
    /\ rewrite_links tbl folder_root current_file (pre ++ link_text label target ++ post)
       = Ok (pre ++ link_text label target ++ tl).
Proof.
  intros Hpre Hl1 Hl2 Ht1 Ht2 Hc.
  apply rewrite_links_at_link; try done.
  by rewrite repl_unfold, Hc.
Qed.

Lemma other_link_is_left_alone_witness :
  exists tl,
    rewrite_links (<[py "b.md" := py "bmd-bb801cb4"]> ∅) [py "docs"] [py "docs"; py "a.md"]
      (py " and [b](b.md).") = Ok tl
    /\ rewrite_links (<[py "b.md" := py "bmd-bb801cb4"]> ∅) [py "docs"] [py "docs"; py "a.md"]
         (py "See " ++ link_text (py "site") (py "https://example.org/b.md")
          ++ py " and [b](b.md).")
       = Ok (py "See " ++ link_text (py "site") (py "https://example.org/b.md") ++ tl).
Proof.
  apply (other_link_is_left_alone (<[py "b.md" := py "bmd-bb801cb4"]> ∅) [py "docs"]
           [py "docs"; py "a.md"] (py "See ") (py "site") (py "https://example.org/b.md")
           (py " and [b](b.md).")); try done; vm_compute; reflexivity.
Defined.

(** ** Texts without diagrams, and the names of the diagrams *)

Lemma render_loop_plain (mmdc : list ascii -> list (list ascii) -> bool)
    (diagrams_dir : list (list ascii)) (diagram_key_prefix : list ascii)
    (width height : Z) (flow_direction : option direction)
    (lines out_lines : list (list ascii)) (mermaid_idx : nat) :
  forallb (fun l => negb (re_test MERMAID_FENCE_RE l)) lines = true ->
  render_loop mmdc diagrams_dir diagram_key_prefix width height flow_direction
    lines Outside out_lines mermaid_idx
  = Ok (out_lines ++ lines).
Proof.
  revert out_lines. induction lines as [|l lines IH]; intros out_lines H; cbn [render_loop].
  - by rewrite app_nil_r.
  - apply forallb_cons_true in H as [Hl H]. apply negb_true_iff in Hl. rewrite Hl.
    rewrite IH by done. by rewrite <- app_assoc.
Qed.

Lemma splitlines_from_line (line more cur : list ascii) :
  existsb is_linebreak line = false ->
  splitlines_from cur (line ++ nl :: more) = rev (rev line ++ cur) :: splitlines_from [] more.
Proof.
  revert cur. induction line as [|c line IH]; intros cur H.
  - cbn [app rev splitlines_from].
    change (is_linebreak nl) with true. cbn [code].
    change (nat_of_ascii nl =? 13) with false. cbn [andb].
    by destruct more.
  - cbn [existsb] in H. apply orb_false_iff in H as [Hc H].
    cbn [app splitlines_from]. rewrite Hc, IH by done.
    cbn [rev]. by rewrite <- app_assoc.
Qed.

Lemma splitlines_join (lines : list (list ascii)) :
  lines <> [] ->
  forallb (fun l => negb (existsb is_linebreak l)) lines = true ->
  splitlines (join [nl] lines ++ [nl]) = lines.
Proof.
  unfold splitlines. induction lines as [|l lines IH]; [done|]. intros _ H.
  apply forallb_cons_true in H as [Hl H]. apply negb_true_iff in Hl.
  destruct lines as [|l2 lines].
  - cbn [join]. rewrite splitlines_from_line by done.
    by rewrite app_nil_r, rev_involutive.
  - change (join [nl] (l :: l2 :: lines)) with (l ++ [nl] ++ join [nl] (l2 :: lines)).
    rewrite <- !app_assoc. cbn [app].
    rewrite splitlines_from_line by done.
    rewrite app_nil_r, rev_involutive. f_equal. by apply IH.
Qed.

(** X9.  A text without the opening fence of a diagram, given as lines that
    each end with a line feed, comes out of [render_mermaid_blocks] as it
    went in, whatever the renderer would answer: it is not consulted. *)
Theorem text_without_diagram_is_kept (mmdc : list ascii -> list (list ascii) -> bool)
    (diagrams_dir : list (list ascii)) (diagram_key_prefix : list ascii)
    (width height : Z) (flow_direction : option direction) (lines : list (list ascii)) :
  lines <> [] ->
  forallb (fun l => negb (existsb is_linebreak l)) lines = true ->
  forallb (fun l => negb (re_test MERMAID_FENCE_RE l)) lines = true ->
  render_mermaid_blocks mmdc diagrams_dir diagram_key_prefix width height flow_direction
    (join [nl] lines ++ [nl])
  = Ok (join [nl] lines ++ [nl]).
Proof.
  intros Hne Hlb Hf. unfold render_mermaid_blocks.
  rewrite splitlines_join, render_loop_plain by done. done.
Qed.

Lemma text_without_diagram_is_kept_witness :
  render_mermaid_blocks (fun _ _ => false) [py "tmp"] (py "k") 800 600 None
    (join [nl] [py "# Title"; py "```python"; py "x = 1"; py "```"] ++ [nl])
  = Ok (join [nl] [py "# Title"; py "```python"; py "x = 1"; py "```"] ++ [nl]).
Proof.
  apply (text_without_diagram_is_kept (fun _ _ => false) [py "tmp"] (py "k") 800 600 None
           [py "# Title"; py "```python"; py "x = 1"; py "```"]);
    [done | vm_compute; reflexivity | vm_compute; reflexivity].
Defined.

Lemma string_of_uint_digits (d : Decimal.uint) :
  forallb is_digit (py (NilZero.string_of_uint d)) = true.
Proof.
  assert (H : forall u, forallb is_digit (py (NilEmpty.string_of_uint u)) = true).
  { unfold py. induction u; [done|..];
      cbn [NilEmpty.string_of_uint list_ascii_of_string forallb]; by rewrite IHu. }
  destruct d; [done|..]; apply H.
Qed.

Lemma str_of_nat_no_dash (n : nat) : has_char "-" (str_of_nat n) = false.
Proof.
  unfold str_of_nat. pose proof (string_of_uint_digits (Nat.to_uint n)) as H.
  induction (py (NilZero.string_of_uint (Nat.to_uint n))) as [|c s IH]; [done|].
  apply forallb_cons_true in H as [Hc H]. unfold has_char in *. cbn [existsb].
  rewrite (IH H), orb_false_r. revert Hc. by_chars c.
Qed.

Lemma has_char_cons_same (c : ascii) (s : list ascii) : has_char c (c :: s) = true.
Proof. unfold has_char. cbn [existsb]. by rewrite chr_eqb_refl. Qed.

Lemma last_dash_split (p1 p2 n1 n2 : list ascii) :
  has_char "-" n1 = false ->
  has_char "-" n2 = false ->
  p1 ++ "-"%char :: n1 = p2 ++ "-"%char :: n2 ->
  p1 = p2 /\ n1 = n2.
Proof.
  intros H1 H2. revert p2. induction p1 as [|c p1 IH]; intros [|d p2]; cbn [app].
  - by intros [= ->].
  - intros [= <- ->]. apply has_char_app in H1 as [_ H1]. by rewrite has_char_cons_same in H1.
  - intros [= -> <-]. apply has_char_app in H2 as [_ H2]. by rewrite has_char_cons_same in H2.
  - intros [= -> H]. destruct (IH _ H) as [-> ->]. done.
Qed.

Lemma block_stem_inj (prefix1 prefix2 : list ascii) (idx1 idx2 : nat)
    (src1 src2 : list ascii) :
  block_stem prefix1 idx1 src1 = block_stem prefix2 idx2 src2 ->
  prefix1 = prefix2 /\ idx1 = idx2.
Proof.
  unfold block_stem. cbv zeta. intros H%app_inv_head.
  assert (H' : (prefix1 ++ "-"%char :: str_of_nat idx1)
               ++ "-"%char :: take 12 (SHA1.hexdigest src1)
               = (prefix2 ++ "-"%char :: str_of_nat idx2)
                 ++ "-"%char :: take 12 (SHA1.hexdigest src2))
    by (rewrite <- !app_assoc; exact H).
  apply app_inj_2 in H' as [H' _];
    [|by cbn [length]; rewrite !length_take, !hexdigest_length].
  apply last_dash_split in H' as [-> H']; [|apply str_of_nat_no_dash..].
  split; [done|]. by apply str_of_nat_inj.
Qed.

(** X10.  The file name of a diagram tells the key of its document and the
    ordinal of the block: two blocks with different ordinals, or of
    documents with different keys, never share the name of a file, whatever
    their texts. *)
Theorem block_stems_differ (prefix1 prefix2 : list ascii) (idx1 idx2 : nat)
    (src1 src2 : list ascii) :
  prefix1 <> prefix2 \/ idx1 <> idx2 ->
  block_stem prefix1 idx1 src1 <> block_stem prefix2 idx2 src2.
Proof. intros Hne H. apply block_stem_inj in H as [? ?]. by destruct Hne. Qed.

Lemma block_stems_differ_witness :
  block_stem (py "a-1") 0 (py "graph TD") <> block_stem (py "a-1") 1 (py "graph TD").
Proof.
  apply (block_stems_differ (py "a-1") (py "a-1") 0 1 (py "graph TD") (py "graph TD")).
  right. lia.
Defined.

(** ** The repairs of a diagram *)

Lemma esc_match (prev : option ascii) (s : list ascii) :
  match_at (lit (backslash :: py "n")) prev (backslash :: "n"%char :: s)
  = Some (RMatch [backslash; "n"%char] []).
Proof.
  unfold match_at, lit, chr. cbn [py list_ascii_of_string map rseq exec ms_rest ms_caps].
  rewrite !chr_eqb_refl. cbn [ms_rest ms_caps length].
  replace (S (S (length s)) - length s) with 2 by lia. done.
Qed.

Lemma esc_no_match (prev : option ascii) (c : ascii) (s : list ascii) :
  c <> backslash \/ match s with d :: _ => d <> "n"%char | [] => True end ->
  match_at (lit (backslash :: py "n")) prev (c :: s) = None.
Proof.
  intros H. unfold match_at, lit, chr.
  cbn [py list_ascii_of_string map rseq exec ms_rest ms_caps].
  destruct (chr_eqb backslash c) eqn:Hc; [|done]. apply chr_eqb_eq in Hc as <-.
  destruct H as [H|H]; [done|]. cbn [ms_rest].
  destruct s as [|d s]; [done|]. by rewrite (chr_eqb_neq "n" d).
Qed.

Lemma esc_sub_inv (f : rmatch -> list ascii) (s : list ascii) (prev : option ascii) :
  (exists s', s = backslash :: "n"%char :: s'
              /\ sub_from (lit (backslash :: py "n")) f 0 prev s
                 = f (RMatch [backslash; "n"%char] [])
                   ++ sub_from (lit (backslash :: py "n")) f 0 None s')
  \/ (exists c s', s = c :: s'
                   /\ (c <> backslash
                       \/ match s' with d :: _ => d <> "n"%char | [] => True end)
                   /\ sub_from (lit (backslash :: py "n")) f 0 prev s
                      = c :: sub_from (lit (backslash :: py "n")) f 0 None s')
  \/ s = [].
Proof.
  destruct s as [|c s]; [by right; right|].
  destruct (decide (c = backslash)) as [->|Hc].
  - destruct s as [|d s].
    + right. left. exists backslash, []. split; [done|]. split; [by right|].
      apply sub_from_no_match; [done|]. apply esc_no_match. by right.
    + destruct (decide (d = "n"%char)) as [->|Hd].
      * left. exists s. split; [done|].
        apply (sub_from_match _ f (RMatch [backslash; "n"%char] []) s prev); [done|done|].
        apply esc_match.
      * right. left. exists backslash, (d :: s). split; [done|]. split; [by right|].
        apply sub_from_no_match; [done|]. apply esc_no_match. by right.
  - right. left. exists c, s. split; [done|]. split; [by left|].
    apply sub_from_no_match; [done|]. apply esc_no_match. by left.
Qed.

Lemma esc_sub_clean (s : list ascii) (prev : option ascii) :
  contains (sub_from (lit (backslash :: py "n")) (fun _ => py " ") 0 prev s)
    (backslash :: py "n") = false
  /\ (match s with d :: _ => d <> "n"%char | [] => True end ->
      startswith (sub_from (lit (backslash :: py "n")) (fun _ => py " ") 0 prev s) (py "n")
      = false).
Proof.
  revert prev. induction s as [s IH] using length_ind. intros prev.
  destruct (esc_sub_inv (fun _ => py " ") s prev)
    as [(s' & -> & ->)|[(c & s' & -> & Hc & ->)| ->]]; [| |done].
  - destruct (IH s' ltac:(cbn [length]; lia) None) as [IH1 _].
    change (py " " ++ ?t) with (" "%char :: t). split; [|done].
    cbn [contains]. rewrite IH1, orb_false_r. done.
  - destruct (IH s' ltac:(cbn [length]; lia) None) as [IH1 IH2]. split.
    + cbn [contains]. rewrite IH1, orb_false_r.
      change (startswith (c :: ?t) (backslash :: py "n"))
        with (chr_eqb backslash c && startswith t (py "n")).
      destruct Hc as [Hc|Hc]; [rewrite chr_eqb_neq; [done|congruence]|].
      by rewrite IH2, andb_false_r.
    + intros Hn. change (startswith (c :: ?t) (py "n")) with (chr_eqb "n" c && startswith t []).
      rewrite chr_eqb_neq; [done|congruence].
Qed.

(** X11.  After the escapes are replaced, the text of a diagram holds no
    backslash followed by the letter n anywhere. *)
Theorem replace_escapes_leaves_none (mermaid_src : list ascii) :
  contains (replace_escapes mermaid_src) (backslash :: py "n") = false.
Proof. unfold replace_escapes. cbv zeta. apply esc_sub_clean. Qed.

Lemma word_run_split (p : ascii -> bool) (x : ascii) (s1 s2 w t : list ascii) :
  s1 ++ s2 = w ++ x :: t ->
  forallb p s1 = true ->
  p x = false ->
  exists w2, w = s1 ++ w2 /\ s2 = w2 ++ x :: t.
Proof.
  revert w. induction s1 as [|a s1 IH]; intros w Heq Hs1 Hx.
  - by exists w.
  - apply forallb_cons_true in Hs1 as [Ha Hs1].
    destruct w as [|b w]; cbn [app] in Heq.
    + injection Heq as -> _. congruence.
    + injection Heq as -> Heq. destruct (IH w Heq Hs1 Hx) as (w2 & -> & ->). by exists w2.
Qed.

Lemma node_no_match (prev : option ascii) (u rest : list ascii) (x : ascii) :
  has_char "[" (u ++ [x]) = false ->
  is_word x = false ->
  match_at NODE_RE prev (u ++ x :: rest) = None.
Proof.
  intros Hu Hx. unfold match_at, NODE_RE, plus, chr.
  cbn [rseq exec ms_rest ms_caps ms_prev]. rewrite rep_fails.
  - destruct u as [|c u]; cbn [app] in *.
    + apply has_char_cons in Hu as [Hu _]. by rewrite chr_eqb_neq.
    + apply has_char_cons in Hu as [Hu _]. by rewrite chr_eqb_neq.
  - intros s1 s2 pv Heq Hs1 Hlo. symmetry in Heq.
    destruct (word_run_split _ _ _ _ _ _ Heq Hs1 Hx) as (w2 & -> & ->).
    cbn [set_cap ms_rest ms_caps ms_prev].
    rewrite <- app_assoc in Hu. apply has_char_app in Hu as [_ Hu].
    destruct w2 as [|a w2]; cbn [app] in *;
      apply has_char_cons in Hu as [Hu _]; by rewrite chr_eqb_neq.
Qed.

Lemma node_match (prev : option ascii) (ident label post : list ascii) :
  ident <> [] ->
  forallb is_word ident = true ->
  label <> [] ->
  has_char "]" label = false ->
  match_at NODE_RE prev (ident ++ py "[" ++ label ++ py "]" ++ post)
  = Some (RMatch (ident ++ py "[" ++ label ++ py "]") [(2, label); (1, ident)]).
Proof.
  intros Hi Hw Hl Hl'.
  assert (Hex : exec NODE_RE (MState prev (ident ++ py "[" ++ label ++ py "]" ++ post) [])
                  Some
                = Some (MState (Some "]"%char) post [(2, label); (1, ident)])).
  { unfold NODE_RE, plus, chr. cbn [rseq exec ms_rest ms_caps ms_prev].
    erewrite rep_greedy_run; [reflexivity | done | done | | done |].
    { destruct ident; [done|]. cbn [length]. lia. }
    cbn [py list_ascii_of_string app set_cap ms_prev ms_rest ms_caps].
    rewrite chr_eqb_refl.
    erewrite rep_greedy_run; [reflexivity | by apply has_char_not | | | done |].
    { cbn [app]. unfold not_chr. by rewrite chr_eqb_refl. }
    { destruct label; [done|]. cbn [length]. lia. }
    cbn [app set_cap ms_prev ms_rest ms_caps]. rewrite chr_eqb_refl.
    unfold consumed. cbn [ms_rest].
    by rewrite !take_consumed. }
  unfold match_at. rewrite Hex. cbn [ms_rest ms_caps].
  by rewrite (take_consumed_eq _ (ident ++ py "[" ++ label ++ py "]"))
    by (by rewrite <- !app_assoc).
Qed.

Lemma node_sub_skip (f : rmatch -> list ascii) (u rest : list ascii) (x : ascii)
    (prev : option ascii) :
  has_char "[" (u ++ [x]) = false ->
  is_word x = false ->
  sub_from NODE_RE f 0 prev (u ++ x :: rest) = u ++ x :: sub_from NODE_RE f 0 None rest.
Proof.
  revert prev. induction u as [|c u IH]; intros prev Hu Hx; cbn [app].
  - apply sub_from_no_match; [done|]. by apply (node_no_match prev []).
  - rewrite sub_from_no_match; [|done|by apply (node_no_match prev (c :: u))].
    rewrite IH; [done| |done]. cbn [app] in Hu. by apply has_char_cons in Hu as [_ Hu].
Qed.

(** X12.  A node label between square brackets that follows an identifier
    is put between double quotes when it has a parenthesis and does not start
    with a double quote, and is left as it is otherwise; the identifier and
    the text before it are kept, and the rule goes on after the label. *)
Theorem node_label_is_quoted (pre ident label post : list ascii) :
  has_char "[" pre = false ->
  match rev pre with c :: _ => is_word c = false | [] => True end ->
  ident <> [] ->
  forallb is_word ident = true ->
  label <> [] ->
  has_char "]" label = false ->
  quote_node_labels (pre ++ ident ++ py "[" ++ label ++ py "]" ++ post)
  = pre ++ ident ++ py "[" ++ quoted label ++ py "]" ++ quote_node_labels post.
Proof.
  intros Hpre Hlast Hi Hw Hl Hl'. unfold quote_node_labels, re_sub.
  assert (Hhere : forall prev,
            sub_from NODE_RE quote_node_label 0 prev
              (ident ++ py "[" ++ label ++ py "]" ++ post)
            = ident ++ py "[" ++ quoted label ++ py "]"
              ++ sub_from NODE_RE quote_node_label 0 None post).
  { intros prev.
    pose (m := RMatch (ident ++ py "[" ++ label ++ py "]") [(2, label); (1, ident)]).
    replace (ident ++ py "[" ++ label ++ py "]" ++ post) with (m_text m ++ post)
      by (subst m; cbn [m_text]; by rewrite <- !app_assoc).
    rewrite (sub_from_match NODE_RE quote_node_label m post prev); [| done | |].
    - subst m. unfold quote_node_label, quoted, group_str, group.
      cbn [m_caps m_text assoc Nat.eqb default format_opt]. unfold id.
      destruct (startswith label [dquote]); cbn [orb]; [by rewrite <- !app_assoc|].
      destruct (has_paren label); cbn [negb]; by rewrite <- !app_assoc.
    - subst m. cbn [m_text]. by destruct ident.
    - subst m. cbn [m_text]. rewrite <- !app_assoc. by apply node_match. }
  destruct (rev pre) as [|x ru] eqn:E.
  - apply (f_equal (@rev ascii)) in E. rewrite rev_involutive in E. subst pre. apply Hhere.
  - apply (f_equal (@rev ascii)) in E. rewrite rev_involutive in E. cbn [rev] in E. subst pre.
    rewrite <- !app_assoc. cbn [app]. rewrite node_sub_skip by done. by rewrite Hhere.
Qed.

Lemma node_label_is_quoted_witness :
  quote_node_labels (py "  " ++ py "A1" ++ py "[" ++ py "Start (now)" ++ py "]" ++ py " --> B")
  = py "  " ++ py "A1" ++ py "[" ++ quoted (py "Start (now)") ++ py "]"
    ++ quote_node_labels (py " --> B").
Proof.
  apply (node_label_is_quoted (py "  ") (py "A1") (py "Start (now)") (py " --> B"));
    done || (vm_compute; reflexivity).
Defined.

(** ** The direction of a flowchart *)

Lemma sub_from_skip_prev (r : regex) (f : rmatch -> list ascii) (t s : list ascii)
    (prev : option ascii) :
  sub_from r f (length t) prev (t ++ s) = sub_from r f 0 (prev_after prev t) s.
Proof.
  revert prev. induction t as [|c t IH]; intros prev; [done|].
  cbn [length app sub_from]. by rewrite IH, (prev_after_cons prev).
Qed.

Lemma sub_from_match_prev (r : regex) (f : rmatch -> list ascii) (m : rmatch)
    (s : list ascii) (prev : option ascii) :
  m_text m <> [] ->
  match_at r prev (m_text m ++ s) = Some m ->
  sub_from r f 0 prev (m_text m ++ s) = f m ++ sub_from r f 0 (prev_after prev (m_text m)) s.
Proof.
  intros Hne Hm. destruct (m_text m) as [|c t] eqn:Ht; [done|].
  cbn [app sub_from]. cbn [app] in Hm. rewrite Hm, Ht.
  by rewrite sub_from_skip_prev, (prev_after_cons prev).
Qed.

Lemma exec_rseq_cons (r : regex) (rs : list regex) (st : mstate)
    (k : mstate -> option mstate) :
  exec (rseq (r :: rs)) st k = exec r st (fun st' => exec (rseq rs) st' k).
Proof. by destruct rs. Qed.

Lemma exec_lit (p : list ascii) (pv : option ascii) (s : list ascii)
    (caps : list (nat * list ascii)) (k : mstate -> option mstate) :
  startswith s p = false -> exec (lit p) (MState pv s caps) k = None.
Proof.
  unfold lit. revert pv s. induction p as [|x p IH]; intros pv s H.
  - by rewrite startswith_nil in H.
  - cbn [map]. rewrite exec_rseq_cons. unfold chr at 1. cbn [exec ms_rest ms_caps].
    destruct s as [|c s]; [done|]. cbn [startswith] in H.
    destruct (chr_eqb x c); [|done]. by apply IH.
Qed.

Lemma exec_lit_ok (p : list ascii) (pv : option ascii) (s : list ascii)
    (caps : list (nat * list ascii)) (k : mstate -> option mstate) :
  exec (lit p) (MState pv (p ++ s) caps) k = k (MState (prev_after pv p) s caps).
Proof.
  unfold lit. revert pv. induction p as [|x p IH]; intros pv; [done|].
  cbn [map]. rewrite exec_rseq_cons. unfold chr at 1. cbn [app exec ms_rest ms_caps].
  by rewrite chr_eqb_refl, IH, (prev_after_cons pv).
Qed.

Lemma dir_no_match (prev : option ascii) (s : list ascii) :
  match prev with None => true | Some p => chr_eqb p nl end
  && (startswith s (py "flowchart") || startswith s (py "graph")) = false ->
  match_at DIRECTION_RE prev s = None.
Proof.
  intros H. unfold match_at, DIRECTION_RE. rewrite exec_rseq_cons.
  cbn [exec]. unfold at_bol. cbn [ms_prev]. apply andb_false_iff in H as [H|H].
  - destruct prev as [p|]; [|done]. cbn [andb]. by rewrite H.
  - apply orb_false_iff in H as [H1 H2].
    rewrite exec_rseq_cons. cbn [exec]. rewrite !exec_lit by done.
    by destruct (match prev with Some c => true && chr_eqb c nl | None => true end).
Qed.

Lemma dir_sub_id (f : rmatch -> list ascii) (s : list ascii) (prev : option ascii) :
  no_directive prev s = true -> sub_from DIRECTION_RE f 0 prev s = s.
Proof.
  revert prev. induction s as [|c s IH]; intros prev H; [done|].
  cbn [no_directive] in H. apply andb_true_iff in H as [H1 H2].
  apply negb_true_iff in H1. cbn [sub_from].
  by rewrite dir_no_match, IH.
Qed.

Lemma upper_facts (c : ascii) :
  is_upper_az c = true -> is_space c = false /\ is_word c = true.
Proof. destruct c as [[] [] [] [] [] [] [] []]; vm_compute; intros; split; congruence. Qed.

Lemma not_word_not_upper (c : ascii) : is_word c = false -> is_upper_az c = false.
Proof. by_chars c. Qed.

Lemma dir_tail (prev : option ascii) (ws rest : list ascii) (a b : ascii)
    (caps : list (nat * list ascii)) :
  ws <> [] ->
  forallb is_space ws = true ->
  is_upper_az a = true ->
  is_upper_az b = true ->
  match rest with c :: _ => is_word c = false | [] => True end ->
  exec (rseq [plus is_space; Rep true is_upper_az 2 (Some 2); WordB])
    (MState prev (ws ++ a :: b :: rest) caps) Some
  = Some (MState (Some b) rest caps).
Proof.
  intros Hne Hws Ha Hb Hrest. unfold plus.
  cbn [rseq exec ms_prev ms_rest ms_caps].
  apply rep_greedy_run; [done | by destruct (upper_facts a Ha) | | done |].
  { destruct ws; [done|]. cbn [length]. lia. }
  cbn [ms_prev ms_rest ms_caps].
  apply (rep_greedy_run is_upper_az [a; b] rest).
  - cbn [forallb]. by rewrite Ha, Hb.
  - destruct rest as [|c rest]; [done|]. by apply not_word_not_upper.
  - done.
  - done.
  - unfold at_wordb, prev_after. cbn [last ms_prev ms_rest opt_word].
    destruct (upper_facts b Hb) as [_ ->].
    destruct rest as [|c rest]; cbn [head opt_word]; [done|]. by rewrite Hrest.
Qed.

Lemma dir_match (kw ws rest : list ascii) (a b : ascii) :
  kw = py "flowchart" \/ kw = py "graph" ->
  ws <> [] ->
  forallb is_space ws = true ->
  is_upper_az a = true ->
  is_upper_az b = true ->
  match rest with c :: _ => is_word c = false | [] => True end ->
  match_at DIRECTION_RE None ((kw ++ ws ++ [a; b]) ++ rest)
  = Some (RMatch (kw ++ ws ++ [a; b]) [(1, kw)]).
Proof.
  intros Hkw Hne Hws Ha Hb Hrest.
  pose proof (fun prev caps => dir_tail prev ws rest a b caps Hne Hws Ha Hb Hrest) as Htail.
  assert (Hex : exec DIRECTION_RE (MState None ((kw ++ ws ++ [a; b]) ++ rest) []) Some
                = Some (MState (Some b) rest [(1, kw)])).
  { unfold DIRECTION_RE. rewrite exec_rseq_cons. cbn [exec]. unfold at_bol. cbn [ms_prev].
    rewrite exec_rseq_cons. rewrite <- !app_assoc.
    change (exec (Grp 1 (Alt ?r1 ?r2)) ?st ?k)
      with (match exec r1 st (fun st' => k (set_cap 1 st st')) with
            | Some x => Some x
            | None => exec r2 st (fun st' => k (set_cap 1 st st'))
            end).
    assert (Hcont : forall pv,
              exec (rseq [plus is_space; Rep true is_upper_az 2 (Some 2); WordB])
                (set_cap 1 (MState None (kw ++ ws ++ [a; b] ++ rest) [])
                   (MState pv (ws ++ [a; b] ++ rest) [])) Some
              = Some (MState (Some b) rest [(1, kw)])).
    { intros pv. unfold set_cap, consumed. cbn [ms_prev ms_rest ms_caps].
      rewrite take_consumed. apply Htail. }
    destruct Hkw as [-> | ->].
    - by rewrite exec_lit_ok, Hcont.
    - rewrite exec_lit by reflexivity. by rewrite exec_lit_ok, Hcont. }
  unfold match_at. rewrite Hex. cbn [ms_rest ms_caps]. by rewrite take_consumed.
Qed.

(** X13.  When a direction is given, a diagram that starts with [flowchart]
    or [graph], white space and two capital letters at the end of a word
    gets the given direction after one space in their place; a text in which
    no later line starts with one of the two words is kept as it is after
    that. *)
Theorem direction_is_overridden (d : direction) (kw ws rest : list ascii) (a b : ascii) :
  kw = py "flowchart" \/ kw = py "graph" ->
  ws <> [] ->
  forallb is_space ws = true ->
  is_upper_az a = true ->
  is_upper_az b = true ->
  match rest with c :: _ => is_word c = false | [] => True end ->
  no_directive (Some b) rest = true ->
  rewrite_direction d (kw ++ ws ++ [a; b] ++ rest)
  = kw ++ py " " ++ direction_str d ++ rest.
Proof.
  intros Hkw Hne Hws Ha Hb Hrest Hno. unfold rewrite_direction, re_sub.
  pose (m := RMatch (kw ++ ws ++ [a; b]) [(1, kw)]).
  replace (kw ++ ws ++ [a; b] ++ rest) with (m_text m ++ rest)
    by (subst m; cbn [m_text]; by rewrite <- !app_assoc).
  rewrite (sub_from_match_prev DIRECTION_RE (direction_repl d) m rest None).
  - subst m. cbn [m_text]. unfold direction_repl, group_str, group.
    cbn [m_caps assoc Nat.eqb default]. unfold id.
    replace (prev_after None (kw ++ ws ++ [a; b])) with (Some b).
    + rewrite dir_sub_id by done. by rewrite <- !app_assoc.
    + unfold prev_after. rewrite !app_assoc. change [a; b] with ([a] ++ [b]).
      by rewrite app_assoc, last_snoc.
  - subst m. cbn [m_text]. by destruct Hkw as [-> | ->].
  - subst m. cbn [m_text]. by apply dir_match.
Qed.

Lemma direction_is_overridden_witness :
  rewrite_direction LR (py "flowchart" ++ py " " ++ ["T"%char; "D"%char]
                        ++ nl :: py "  A --> B" ++ [nl])
  = py "flowchart" ++ py " " ++ direction_str LR ++ nl :: py "  A --> B" ++ [nl].
Proof.
  apply (direction_is_overridden LR (py "flowchart") (py " ") (nl :: py "  A --> B" ++ [nl])
           "T" "D"); done || (vm_compute; reflexivity) || (left; reflexivity).
Defined.

(** ** The order of the documents *)

Lemma rotate_loop_found (sr : list (list ascii)) (before after files : list (list (list ascii)))
    (p : list (list ascii)) (i : nat) :
  Forall (fun q => exists r, resolve q = Ok r /\ r <> sr) before ->
  resolve p = Ok sr ->
  rotate_loop sr (before ++ p :: after) files i
  = Ok (Some (drop (i + length before) files ++ take (i + length before) files)).
Proof.
  intros Hb Hp. revert i. induction Hb as [|q before (r & Hq & Hr) _ IH]; intros i.
  - cbn [app rotate_loop length]. rewrite Hp. cbn [res_bind].
    rewrite decide_True by done. by rewrite Nat.add_0_r.
  - cbn [app rotate_loop length]. rewrite Hq. cbn [res_bind].
    rewrite decide_False by done. rewrite IH.
    by replace (S i + length before) with (i + S (length before)) by lia.
Qed.

Lemma rotate_loop_missing (sr : list (list ascii)) (rest files : list (list (list ascii)))
    (i : nat) :
  Forall (fun q => exists r, resolve q = Ok r /\ r <> sr) rest ->
  rotate_loop sr rest files i = Ok None.
Proof.
  intros Hb. revert i. induction Hb as [|q rest (r & Hq & Hr) _ IH]; intros i; [done|].
  cbn [rotate_loop]. rewrite Hq. cbn [res_bind]. by rewrite decide_False.
Qed.

(** X14.  [rotate_start] puts the first file that resolves to the start
    file in front, followed by the files after it and then by the files
    before it, in their order. *)
Theorem rotate_start_puts_start_first (before after : list (list (list ascii)))
    (p start sr : list (list ascii)) :
  resolve start = Ok sr ->
  resolve p = Ok sr ->
  Forall (fun q => exists r, resolve q = Ok r /\ r <> sr) before ->
  rotate_start (before ++ p :: after) start = Ok (p :: after ++ before).
Proof.
  intros Hs Hp Hb. unfold rotate_start. rewrite Hs. cbn [res_bind].
  rewrite (rotate_loop_found sr before after _ p 0 Hb Hp). cbn [res_bind Nat.add].
  by rewrite drop_app_length, take_app_length.
Qed.

Lemma rotate_start_puts_start_first_witness :
  rotate_start ([[py "d"; py "a.md"]] ++ [py "d"; py "b.md"] :: [[py "d"; py "c.md"]])
    [py "d"; py "x"; py ".."; py "b.md"]
  = Ok ([py "d"; py "b.md"] :: [[py "d"; py "c.md"]] ++ [[py "d"; py "a.md"]]).
Proof.
  apply (rotate_start_puts_start_first [[py "d"; py "a.md"]] [[py "d"; py "c.md"]]
           [py "d"; py "b.md"] [py "d"; py "x"; py ".."; py "b.md"] [py "d"; py "b.md"]).
  - reflexivity.
  - reflexivity.
  - constructor; [|constructor]. exists [py "d"; py "a.md"]. split; [reflexivity|discriminate].
Defined.

(** X15.  When no file of the scan resolves to the start file,
    [rotate_start] ends the run with status 2 and names the start file on
    the error stream. *)
Theorem rotate_start_without_start (files : list (list (list ascii)))
    (start sr : list (list ascii)) :
  resolve start = Ok sr ->
  Forall (fun q => exists r, resolve q = Ok r /\ r <> sr) files ->
  rotate_start files start
  = Raise (SystemExit 2 (py "error: start file not found in folder scan: "
                         ++ as_posix_abs start)).
Proof.
  intros Hs Hf. unfold rotate_start. rewrite Hs. cbn [res_bind].
  by rewrite (rotate_loop_missing sr files files 0 Hf).
Qed.

Lemma rotate_start_without_start_witness :
  rotate_start [[py "d"; py "a.md"]] [py "e"; py "b.md"]
  = Raise (SystemExit 2 (py "error: start file not found in folder scan: "
                         ++ as_posix_abs [py "e"; py "b.md"])).
Proof.
  apply (rotate_start_without_start [[py "d"; py "a.md"]] [py "e"; py "b.md"]
           [py "e"; py "b.md"]).
  - reflexivity.
  - constructor; [|constructor]. exists [py "d"; py "a.md"]. split; [reflexivity|discriminate].
Defined.

Lemma str_ltb_asym (a b : list ascii) : str_ltb a b = true -> str_ltb b a = false.
Proof.
  revert b. induction a as [|x a IH]; intros [|y b]; cbn [str_ltb]; try done.
  intros [H|[H1 H2]%andb_true_iff]%orb_true_iff.
  - apply Nat.ltb_lt in H. apply orb_false_iff. split; [apply Nat.ltb_ge; lia|].
    apply andb_false_iff. left. apply Nat.eqb_neq. lia.
  - apply Nat.eqb_eq in H1. rewrite (IH _ H2), andb_false_r, orb_false_r.
    apply Nat.ltb_ge. lia.
Qed.

Lemma str_le_trans (a b c : list ascii) :
  str_ltb b a = false -> str_ltb c b = false -> str_ltb c a = false.
Proof.
  revert b c. induction a as [|x a IH]; intros b c H1 H2; [by destruct c|].
  destruct b as [|y b]; [done|]. destruct c as [|z c]; [done|].
  cbn [str_ltb] in *.
  apply orb_false_iff in H1 as [H1 H1']. apply orb_false_iff in H2 as [H2 H2'].
  apply Nat.ltb_ge in H1, H2. apply orb_false_iff. split; [apply Nat.ltb_ge; lia|].
  destruct (Nat.eqb_spec (code z) (code x)) as [Hzx|Hzx]; [|done]. cbn [andb].
  assert (code y = code x) as Hyx by lia. assert (code z = code y) as Hzy by lia.
  rewrite Hyx, Nat.eqb_refl in H1'. rewrite Hzy, Nat.eqb_refl in H2'.
  cbn [andb] in H1', H2'. by apply (IH b).
Qed.

Lemma forallb_insert_by (P : list (list ascii) -> bool) (key : list (list ascii) -> list ascii)
    (x : list (list ascii)) (l : list (list (list ascii))) :
  forallb P (insert_by key x l) = P x && forallb P l.
Proof.
  induction l as [|y l IH]; [done|]. cbn [insert_by].
  destruct (str_ltb (key y) (key x)); [|done]. cbn [forallb]. rewrite IH.
  by destruct (P x), (P y).
Qed.

Lemma forallb_impl {A : Type} (P Q : A -> bool) (l : list A) :
  (forall x, P x = true -> Q x = true) -> forallb P l = true -> forallb Q l = true.
Proof.
  intros H. induction l as [|x l IH]; [done|].
  intros [Hx Hl]%forallb_cons_true. cbn [forallb]. by rewrite (H _ Hx), IH.
Qed.

Lemma insert_by_ordered (key : list (list ascii) -> list ascii) (x : list (list ascii))
    (l : list (list (list ascii))) :
  ordered key l = true -> ordered key (insert_by key x l) = true.
Proof.
  induction l as [|y l IH]; [done|]. cbn [ordered insert_by].
  intros [Hy Hl]%andb_true_iff. destruct (str_ltb (key y) (key x)) eqn:E.
  - cbn [ordered]. rewrite forallb_insert_by, Hy, (IH Hl).
    by rewrite (str_ltb_asym _ _ E).
  - cbn [ordered forallb]. rewrite E, Hy, Hl. cbn [negb andb]. rewrite !andb_true_r.
    eapply forallb_impl; [|exact Hy]. cbn beta. intros z Hz.
    apply negb_true_iff in Hz. apply negb_true_iff. by apply (str_le_trans _ (key y)).
Qed.

Lemma insert_by_perm (key : list (list ascii) -> list ascii) (x : list (list ascii))
    (l : list (list (list ascii))) :
  insert_by key x l ≡ₚ x :: l.
Proof.
  induction l as [|y l IH]; [done|]. cbn [insert_by].
  destruct (str_ltb (key y) (key x)); [|done]. rewrite IH. apply Permutation_swap.
Qed.

Lemma sorted_ordered (key : list (list ascii) -> list ascii) (l : list (list (list ascii))) :
  ordered key (sorted key l) = true /\ sorted key l ≡ₚ l.
Proof.
  unfold sorted. induction l as [|x l [IH1 IH2]]; [done|]. cbn [foldr]. split.
  - by apply insert_by_ordered.
  - by rewrite insert_by_perm, IH2.
Qed.

(** X16.  [find_all_markdowns] returns the Markdown files of the scan, each
    as often as the scan has it and nothing else, in the order of their
    paths in lower case. *)
Theorem find_all_markdowns_sorted (is_file : list (list ascii) -> bool)
    (rglob : list (list ascii) -> list (list (list ascii))) (folder : list (list ascii)) :
  ordered sort_key (find_all_markdowns is_file rglob folder) = true
  /\ find_all_markdowns is_file rglob folder
     ≡ₚ List.filter (is_markdown is_file) (rglob folder)
  /\ forall p, p ∈ find_all_markdowns is_file rglob folder
               <-> p ∈ rglob folder /\ is_markdown is_file p = true.
Proof.
  unfold find_all_markdowns. cbv zeta.
  destruct (sorted_ordered sort_key (List.filter (is_markdown is_file) (rglob folder)))
    as [H1 H2].
  split; [done|]. split; [done|]. intros p. rewrite H2.
  rewrite !list_elem_of_In. apply filter_In.
Qed.

(** ** Markdown files *)

Lemma rfind_none (c : ascii) (s : list ascii) : has_char c s = false -> rfind c s = None.
Proof.
  induction s as [|x s IH]; [done|]. intros [Hx Hs]%has_char_cons.
  cbn [rfind]. rewrite (IH Hs). rewrite chr_eqb_neq; [done|congruence].
Qed.

Lemma rfind_last (c : ascii) (a b : list ascii) :
  has_char c b = false -> rfind c (a ++ c :: b) = Some (length a).
Proof.
  intros Hb. induction a as [|x a IH]; cbn [app rfind length].
  - by rewrite (rfind_none _ _ Hb), chr_eqb_refl.
  - by rewrite IH.
Qed.

Lemma rfind_lt (c : ascii) (s : list ascii) (i : nat) : rfind c s = Some i -> i < length s.
Proof.
  revert i. induction s as [|x s IH]; intros i; [done|]. cbn [rfind length].
  destruct (rfind c s) as [j|].
  - intros [= <-]. specialize (IH j eq_refl). lia.
  - destruct (chr_eqb x c); [|done]. intros [= <-]. lia.
Qed.

Lemma lower_char_dot (c : ascii) : chr_eqb "." (lower_char c) = chr_eqb "." c.
Proof. by_chars c. Qed.

Lemma has_dot_lower (s : list ascii) : has_char "." (lower s) = has_char "." s.
Proof.
  unfold has_char, lower. induction s as [|c s IH]; [done|].
  cbn [map existsb]. by rewrite lower_char_dot, IH.
Qed.

Lemma suffix_of_ext (stem ext : list ascii) :
  stem <> [] ->
  lower ext = py ".md" \/ lower ext = py ".markdown" ->
  suffix (stem ++ ext) = ext.
Proof.
  intros Hstem Hext.
  assert (exists e, ext = "."%char :: e /\ has_char "." e = false /\ 0 < length e)
    as (e & -> & He & Hlen).
  { destruct ext as [|c0 e]; [by destruct Hext|]. exists e.
    assert (chr_eqb "." c0 = true /\ has_char "." (lower e) = false /\ 0 < length (lower e))
      as (Hc0 & He & Hlen).
    { rewrite <- lower_char_dot. unfold lower in *. cbn [map] in Hext.
      destruct Hext as [[= -> ->] | [= -> ->]]; by cbn; auto with lia. }
    apply chr_eqb_eq in Hc0 as <-. rewrite has_dot_lower in He.
    unfold lower in Hlen. rewrite length_map in Hlen. done. }
  unfold suffix. rewrite rfind_last by done.
  destruct stem as [|x stem]; [done|]. cbn [length app].
  replace (0 <? S (length stem)) with true by done.
  replace (S (length stem) <? S (length (stem ++ "."%char :: e)) - 1) with true.
  - cbn [andb]. change (x :: stem ++ ?t) with ((x :: stem) ++ t).
    change (S (length stem)) with (length (x :: stem)). by rewrite drop_app_length.
  - symmetry. apply Nat.ltb_lt. rewrite length_app. cbn [length]. lia.
Qed.

(** X17.  [is_markdown] accepts exactly the regular files whose name is a
    stem that is not empty followed by [.md] or [.markdown] in any case. *)
Theorem is_markdown_iff (is_file : list (list ascii) -> bool) (p : list (list ascii)) :
  is_markdown is_file p = true
  <-> is_file p = true
      /\ exists stem ext,
           parts_name p = stem ++ ext /\ stem <> []
           /\ (lower ext = py ".md" \/ lower ext = py ".markdown").
Proof.
  unfold is_markdown. cbv zeta. rewrite andb_true_iff, orb_true_iff, !str_eqb_eq.
  split; intros [Hf H]; (split; [done|]).
  - unfold suffix in H. destruct (rfind "." (parts_name p)) as [i|] eqn:E;
      [|by destruct H].
    destruct ((0 <? i) && (i <? length (parts_name p) - 1)) eqn:Hi; [|by destruct H].
    apply andb_true_iff in Hi as [Hi _]. apply Nat.ltb_lt in Hi.
    apply rfind_lt in E.
    exists (take i (parts_name p)), (drop i (parts_name p)).
    rewrite take_drop. split; [done|]. split; [|done].
    intros Hnil%(f_equal length). rewrite length_take in Hnil. cbn [length] in Hnil. lia.
  - destruct H as (stem & ext & -> & Hstem & Hext). by rewrite suffix_of_ext.
Qed.

(** ** Fences and rendered blocks *)

Lemma exec_lit_nocase_ok (p w : list ascii) (pv : option ascii) (s : list ascii)
    (caps : list (nat * list ascii)) (k : mstate -> option mstate) :
  lower w = p ->
  exec (lit_nocase p) (MState pv (w ++ s) caps) k = k (MState (prev_after pv w) s caps).
Proof.
  unfold lit_nocase, lower. intros <-. revert pv. induction w as [|c w IH]; intros pv; [done|].
  cbn [map]. rewrite exec_rseq_cons. cbn [app exec ms_rest ms_caps].
  by rewrite chr_eqb_refl, IH, (prev_after_cons pv).
Qed.

Lemma exec_lit_nocase_inv (p : list ascii) (pv : option ascii) (s : list ascii)
    (caps : list (nat * list ascii)) (k : mstate -> option mstate) (x : mstate) :
  exec (lit_nocase p) (MState pv s caps) k = Some x ->
  exists w rest pv',
    s = w ++ rest /\ lower w = p /\ k (MState pv' rest caps) = Some x.
Proof.
  unfold lit_nocase, lower. revert pv s. induction p as [|a p IH]; intros pv s.
  - cbn [map rseq exec]. intros H. by exists [], s, pv.
  - cbn [map]. rewrite exec_rseq_cons. cbn [exec ms_rest ms_caps].
    destruct s as [|c s]; [done|]. destruct (chr_eqb (lower_char c) a) eqn:Hc; [|done].
    apply chr_eqb_eq in Hc as <-.
    intros (w & rest & pv' & -> & <- & Hk)%IH. by exists (c :: w), rest, pv'.
Qed.

Lemma exec_lit_inv (p : list ascii) (pv : option ascii) (s : list ascii)
    (caps : list (nat * list ascii)) (k : mstate -> option mstate) (x : mstate) :
  exec (lit p) (MState pv s caps) k = Some x ->
  exists rest pv', s = p ++ rest /\ k (MState pv' rest caps) = Some x.
Proof.
  intros H. destruct (startswith s p) eqn:E; [|by rewrite exec_lit in H].
  apply startswith_iff in E as [rest ->]. rewrite exec_lit_ok in H. eauto.
Qed.

Lemma spaces_to_eol_ok (ws : list ascii) (pv : option ascii) (caps : list (nat * list ascii)) :
  forallb is_space ws = true ->
  exec (rseq [star is_space; Eol]) (MState pv ws caps) Some
  = Some (MState (prev_after pv ws) [] caps).
Proof.
  intros Hws. unfold star. cbn [rseq exec ms_prev ms_rest ms_caps].
  rewrite <- (app_nil_r ws) at 1.
  by apply rep_greedy_run; [done | done | lia | done | ].
Qed.

Lemma spaces_to_eol_inv (s : list ascii) (pv : option ascii) (caps : list (nat * list ascii))
    (x : mstate) :
  exec (rseq [star is_space; Eol]) (MState pv s caps) Some = Some x ->
  forallb is_space s = true.
Proof.
  unfold star. cbn [rseq exec ms_prev ms_rest ms_caps].
  intros (s1 & s2 & pv' & -> & Hs1 & _ & Hk)%rep_some.
  rewrite forallb_app, Hs1. unfold at_eol in Hk. cbn [ms_rest] in Hk.
  destruct s2 as [|c [|d s2]]; [done| |done].
  destruct (chr_eqb c nl) eqn:Hc; [|done]. by apply chr_eqb_eq in Hc as ->.
Qed.

Lemma lower_char_tick (c : ascii) : lower_char c = "`"%char -> c = "`"%char.
Proof. by_chars c. Qed.

Lemma lower_fence (w : list ascii) :
  lower w = py "```mermaid" <-> exists m, w = py "```" ++ m /\ lower m = py "mermaid".
Proof.
  unfold lower. split.
  - destruct w as [|a [|b [|c m]]]; try done. cbn [map].
    intros [= Ha%lower_char_tick Hb%lower_char_tick Hc%lower_char_tick Hm]. subst.
    by exists m.
  - intros (m & -> & Hm). cbn [py list_ascii_of_string app map] in *. by rewrite Hm.
Qed.

Lemma re_test_true (r : regex) (s : list ascii) :
  re_test r s = true <-> exists st, exec r (MState None s []) Some = Some st.
Proof.
  unfold re_test, re_match, match_at.
  destruct (exec r (MState None s []) Some) as [st|]; split; eauto; try done.
  by intros [st [=]].
Qed.

(** X18.  A line of three backquotes, the word [mermaid] with its letters
    in upper or lower case and nothing but white space after it opens a
    diagram; a line that opens one is three backquotes, seven characters
    and nothing but white space; a line closes a diagram exactly when it is
    three backquotes and nothing but white space after them. *)
Theorem fence_lines (line : list ascii) :
  (forall m ws,
     lower m = py "mermaid" -> forallb is_space ws = true ->
     re_test MERMAID_FENCE_RE (py "```" ++ m ++ ws) = true)
  /\ (re_test MERMAID_FENCE_RE line = true ->
      exists m ws,
        line = py "```" ++ m ++ ws /\ length m = 7 /\ forallb is_space ws = true)
  /\ (re_test FENCE_END_RE line = true
      <-> exists ws, line = py "```" ++ ws /\ forallb is_space ws = true).
Proof.
  split; [|split].
  - intros m ws Hm Hws. apply re_test_true. unfold MERMAID_FENCE_RE. eexists.
    rewrite exec_rseq_cons. cbn [exec at_bol ms_prev]. rewrite exec_rseq_cons.
    rewrite app_assoc.
    rewrite exec_lit_nocase_ok by (apply lower_fence; eauto).
    by apply spaces_to_eol_ok.
  - rewrite re_test_true. unfold MERMAID_FENCE_RE.
    intros [st H]. rewrite exec_rseq_cons in H. cbn [exec at_bol ms_prev] in H.
    rewrite exec_rseq_cons in H.
    apply exec_lit_nocase_inv in H as (w & rest & pv & -> & Hw & H).
    apply lower_fence in Hw as (m & -> & Hm). apply spaces_to_eol_inv in H.
    exists m, rest. rewrite <- app_assoc. split; [done|]. split; [|done].
    apply (f_equal length) in Hm. unfold lower in Hm. by rewrite length_map in Hm.
  - rewrite re_test_true. unfold FENCE_END_RE. split.
    + intros [st H]. rewrite exec_rseq_cons in H. cbn [exec at_bol ms_prev] in H.
      rewrite exec_rseq_cons in H.
      apply exec_lit_inv in H as (rest & pv & -> & H). apply spaces_to_eol_inv in H.
      by exists rest.
    + intros (ws & -> & Hws). eexists.
      rewrite exec_rseq_cons. cbn [exec at_bol ms_prev]. rewrite exec_rseq_cons.
      rewrite exec_lit_ok. by apply spaces_to_eol_ok.
Qed.

(** X19.  When the renderer succeeds on a closed block, the scan goes on
    after the block with one line in its place, an image whose file is in
    the directory of the diagrams and bears the name of the block with the
    extension [.png], and the counter one higher. *)
Theorem rendered_block_leaves_image
    (mmdc : list ascii -> list (list ascii) -> bool)
    (diagrams_dir : list (list ascii)) (diagram_key_prefix : list ascii)
    (width height : Z) (flow_direction : option direction)
    (opn : list ascii) (block : list (list ascii)) (cls : list ascii)
    (rest out_lines : list (list ascii)) (mermaid_idx : nat) :
  re_test MERMAID_FENCE_RE opn = true ->
  forallb (fun l => negb (re_test FENCE_END_RE l)) block = true ->
  re_test FENCE_END_RE cls = true ->
  renders mmdc diagrams_dir diagram_key_prefix width height flow_direction
    mermaid_idx block = true ->
  render_loop mmdc diagrams_dir diagram_key_prefix width height flow_direction
    (opn :: block ++ cls :: rest) Outside out_lines mermaid_idx
  = render_loop mmdc diagrams_dir diagram_key_prefix width height flow_direction
      rest Outside
      (out_lines
       ++ [py "![](" ++ as_posix_abs
                          (joinpath diagrams_dir
                             (block_stem diagram_key_prefix mermaid_idx
                                (normalize_block flow_direction block) ++ py ".png"))
           ++ py ")"])
      (mermaid_idx + 1).
Proof.
  intros Ho Hb Hc Hok. cbn [render_loop]. rewrite Ho.
  rewrite render_loop_block by done. cbn [app].
  unfold render_block. by rewrite Hok.
Qed.

Lemma rendered_block_leaves_image_witness :
  render_loop (fun _ _ => true) [py "tmp"; py "diagrams"] (py "amd-5d48a79a") 800 600 None
    (py "```Mermaid " :: [py "graph TD"; py "A --> B"] ++ py "```" :: [py "after"])
    Outside [py "before"] 0
  = render_loop (fun _ _ => true) [py "tmp"; py "diagrams"] (py "amd-5d48a79a") 800 600 None
      [py "after"] Outside
      ([py "before"]
       ++ [py "![](" ++ as_posix_abs
                          (joinpath [py "tmp"; py "diagrams"]
                             (block_stem (py "amd-5d48a79a") 0
                                (normalize_block None [py "graph TD"; py "A --> B"])
                              ++ py ".png"))
           ++ py ")"])
      (0 + 1).
Proof.
  apply (rendered_block_leaves_image (fun _ _ => true)); reflexivity.
Defined.

(** ** The table of the documents *)

Lemma build_index_keys (folder : list (list ascii)) (md_files : list (list (list ascii)))
    (tbl tbl' : gmap (list ascii) (list ascii)) (k : list ascii) :
  build_index folder md_files tbl = Ok tbl' ->
  is_Some (tbl' !! k) ->
  is_Some (tbl !! k) \/ exists p, p ∈ md_files /\ rel_of folder p = Ok k.
Proof.
  revert tbl. induction md_files as [|p rest IH]; intros tbl; cbn [build_index].
  - intros [= <-]. by left.
  - destruct (rel_of folder p) as [rel|] eqn:Hrel; [|done]. cbn [res_bind].
    destruct (safe_file_slug folder p) as [slug|]; [|done]. cbn [res_bind].
    intros Hb Hk. destruct (IH _ Hb Hk) as [Hin|(q & Hq & Hrq)].
    + destruct (decide (rel = k)) as [->|Hne].
      * right. exists p. split; [apply elem_of_cons; by left|done].
      * left. by rewrite lookup_insert_ne in Hin.
    + right. exists q. split; [apply elem_of_cons; by right|done].
Qed.

(** X20.  When the table of a run is built, every document is filed in
    it under its resolved path from the folder, with the slug of that path,
    and the table holds no other entry. *)
Theorem index_holds_the_documents (folder : list (list ascii))
    (md_files : list (list (list ascii))) (tbl : gmap (list ascii) (list ascii)) :
  resolve folder = Ok folder ->
  build_index folder md_files ∅ = Ok tbl ->
  (forall p, p ∈ md_files ->
             exists rel, rel_of folder p = Ok rel /\ tbl !! rel = Some (slug_of_rel rel))
  /\ (forall k v, tbl !! k = Some v ->
                  v = slug_of_rel k
                  /\ exists p, p ∈ md_files /\ rel_of folder p = Ok k).
Proof.
  intros Hf Hb.
  assert (Hslug : forall rel slug, tbl !! rel = Some slug -> slug = slug_of_rel rel).
  { apply (build_index_slugs folder md_files ∅ tbl); [done| |done].
    intros rel slug H. by rewrite lookup_empty in H. }
  destruct (build_index_entries _ _ _ _ Hb) as [_ Hall]. split.
  - intros p Hp. destruct (Hall p Hp) as (rel & Hrel & v & Hv).
    exists rel. split; [done|]. by rewrite Hv, (Hslug _ _ Hv).
  - intros k v Hk. split; [by apply Hslug|].
    destruct (build_index_keys folder md_files ∅ tbl k Hb ltac:(eauto)) as [H|H]; [|done].
    rewrite lookup_empty in H. by destruct H.
Qed.

Lemma index_holds_the_documents_witness :
  (forall p, p ∈ [[py "docs"; py "a.md"]; [py "docs"; py "sub"; py "b.md"]] ->
             exists rel,
               rel_of [py "docs"] p = Ok rel
               /\ (<[py "sub/b.md" := slug_of_rel (py "sub/b.md")]>
                     (<[py "a.md" := slug_of_rel (py "a.md")]> ∅)
                   : gmap (list ascii) (list ascii)) !! rel
                  = Some (slug_of_rel rel))
  /\ (forall k v,
        (<[py "sub/b.md" := slug_of_rel (py "sub/b.md")]>
           (<[py "a.md" := slug_of_rel (py "a.md")]> ∅)
         : gmap (list ascii) (list ascii)) !! k = Some v ->
        v = slug_of_rel k
        /\ exists p, p ∈ [[py "docs"; py "a.md"]; [py "docs"; py "sub"; py "b.md"]]
                     /\ rel_of [py "docs"] p = Ok k).
Proof.
  apply (index_holds_the_documents [py "docs"]
           [[py "docs"; py "a.md"]; [py "docs"; py "sub"; py "b.md"]]
           (<[py "sub/b.md" := slug_of_rel (py "sub/b.md")]>
              (<[py "a.md" := slug_of_rel (py "a.md")]> ∅))); [reflexivity|].
  vm_compute. reflexivity.
Defined.

(** ** The anchors of a run *)

Lemma hex_digit_alnum (x : Z) :
  is_lower_az (SHA1.hex_digit x) || is_digit (SHA1.hex_digit x) = true.
Proof.
  unfold SHA1.hex_digit. generalize (Z.to_nat x). intros n.
  do 17 (destruct n as [|n]; [done|]). done.
Qed.

Lemma hex_alnum (k : nat) (x : Z) :
  forallb (fun c => is_lower_az c || is_digit c) (SHA1.hex k x) = true.
Proof.
  induction k as [|k IH]; [done|]. cbn [SHA1.hex forallb]. by rewrite hex_digit_alnum, IH.
Qed.

Lemma hexdigest_alnum (s : list ascii) :
  forallb (fun c => is_lower_az c || is_digit c) (SHA1.hexdigest s) = true.
Proof.
  unfold SHA1.hexdigest. induction (SHA1.digest_words (SHA1.utf8 s)) as [|w ws IH]; [done|].
  cbn [flat_map]. by rewrite forallb_app, hex_alnum, IH.
Qed.

Lemma alnum_facts (c : ascii) :
  is_lower_az c || is_digit c = true -> slug_out c = true /\ chr_eqb "-" c = false.
Proof. destruct c as [[] [] [] [] [] [] [] []]; vm_compute; intros; split; congruence. Qed.

Lemma digit_alnum (c : ascii) : is_digit c = true -> is_lower_az c || is_digit c = true.
Proof. intros ->. apply orb_true_r. Qed.

Lemma rev_head_last {P : ascii -> Prop} (t : list ascii) :
  match rev t with c :: _ => P c | [] => True end <-> forall pre c, t = pre ++ [c] -> P c.
Proof.
  split.
  - intros H pre c ->. by rewrite rev_unit in H.
  - intros H. destruct (rev t) as [|c u] eqn:E; [done|].
    apply (H (rev u)). apply (f_equal (@rev ascii)) in E.
    by rewrite rev_involutive in E.
Qed.

Lemma no_double_app (a b : list ascii) :
  contains a (py "--") = false ->
  contains b (py "--") = false ->
  (forall pre c, a = pre ++ [c] -> chr_eqb "-" c = false)
  \/ match b with c :: _ => chr_eqb "-" c = false | [] => True end ->
  contains (a ++ b) (py "--") = false.
Proof.
  intros Ha Hb Hmid. induction a as [|c a IH]; [done|].
  cbn [contains] in Ha. apply orb_false_iff in Ha as [Hst Ha].
  cbn [app contains]. rewrite IH; [| done |].
  - rewrite orb_false_r.
    change (startswith (c :: ?t) (py "--")) with (chr_eqb "-" c && startswith t (py "-")) in *.
    destruct (chr_eqb "-" c) eqn:Hc; [|done]. cbn [andb] in *.
    destruct a as [|d a].
    2:{ change (startswith (d :: a) (py "-")) with (chr_eqb "-" d && startswith a []) in Hst.
        change (startswith ((d :: a) ++ b) (py "-"))
          with (chr_eqb "-" d && startswith (a ++ b) []).
        rewrite startswith_nil, andb_true_r in *. exact Hst. }
    cbn [app].
    destruct Hmid as [H|H]; [by rewrite (H [] c eq_refl) in Hc|].
    destruct b as [|e b]; [done|].
    change (startswith (e :: b) (py "-")) with (chr_eqb "-" e && startswith b []).
    by rewrite H.
  - destruct Hmid as [H|H]; [left|by right]. intros pre x ->. by apply (H (c :: pre)).
Qed.

Lemma alnum_is_slug (b : list ascii) :
  b <> [] -> forallb (fun c => is_lower_az c || is_digit c) b = true -> is_slug b = true.
Proof.
  intros Hne Hb.
  assert (Hall : forall c, In c b -> slug_out c = true /\ chr_eqb "-" c = false).
  { intros c Hc. apply alnum_facts. by apply (proj1 (forallb_forall _ b) Hb). }
  apply is_slug_intro; [done| | | |].
  - apply forallb_forall. intros c Hc. by apply Hall.
  - destruct b as [|c b]; [done|]. apply Hall. by left.
  - apply rev_head_last. intros pre c ->. apply Hall. apply in_or_app. right. by left.
  - clear Hne Hb. induction b as [|c b IH]; [done|]. cbn [contains].
    rewrite IH by (intros x Hx; apply Hall; by right). rewrite orb_false_r.
    change (startswith (c :: b) (py "--")) with (chr_eqb "-" c && startswith b (py "-")).
    by rewrite (proj2 (Hall c ltac:(by left))).
Qed.

Lemma is_slug_join (a b : list ascii) :
  is_slug a = true -> is_slug b = true -> is_slug (a ++ py "-" ++ b) = true.
Proof.
  intros (Ha1 & Ha2 & Ha3 & Ha4 & Ha5)%is_slug_elim (Hb1 & Hb2 & Hb3 & Hb4 & Hb5)%is_slug_elim.
  change (py "-" ++ b) with ("-"%char :: b). apply is_slug_intro.
  - by destruct a.
  - rewrite forallb_app, Ha2. cbn [forallb]. by rewrite Hb2.
  - destruct a as [|c a]; [done|]. exact Ha3.
  - rewrite rev_app_distr. cbn [rev]. destruct (rev b) as [|x rb] eqn:E.
    + apply (f_equal (@rev ascii)) in E. rewrite rev_involutive in E. by subst b.
    + exact Hb4.
  - apply no_double_app; [done| |].
    + cbn [contains]. rewrite Hb5, orb_false_r.
      change (startswith ("-"%char :: b) (py "--"))
        with (chr_eqb "-" "-" && startswith b (py "-")).
      destruct b as [|c b]; [done|].
      change (startswith (c :: b) (py "-")) with (chr_eqb "-" c && startswith b []).
      by rewrite Hb3.
    + left. by apply rev_head_last.
Qed.

Lemma str_of_nat_is_slug (n : nat) : is_slug (str_of_nat n) = true.
Proof.
  apply alnum_is_slug.
  - intros H. unfold str_of_nat, py in H.
    destruct (Nat.to_uint n); cbn in H; discriminate H.
  - eapply forallb_impl; [apply digit_alnum|]. apply string_of_uint_digits.
Qed.

Lemma slug_of_rel_is_slug (rel : list ascii) : is_slug (slug_of_rel rel) = true.
Proof.
  unfold slug_of_rel. cbv zeta. apply is_slug_join; [apply slugify_shape|].
  apply alnum_is_slug.
  - intros H%(f_equal length). by rewrite hash8_length in H.
  - pose proof (hexdigest_alnum rel) as H.
    rewrite <- (take_drop 8 (SHA1.hexdigest rel)) in H. by apply forallb_app_l in H.
Qed.

Lemma issue_ids_are_slugs (bases : list (list ascii)) (counts : gmap (list ascii) nat) :
  Forall (fun b => is_slug b = true) bases ->
  Forall (fun hid => is_slug hid = true) (issue_ids counts bases).
Proof.
  intros Hb. revert counts. induction Hb as [|b bases Hb _ IH]; intros counts; [done|].
  cbn [issue_ids]. destruct (make_unique_id counts b) as [counts' hid] eqn:E.
  constructor; [|apply IH].
  pose proof (make_unique_id_shape counts b) as Hs. rewrite E in Hs. cbn [snd] in Hs.
  destruct Hs as [->|(k & _ & ->)]; [done|].
  apply is_slug_join; [done|apply str_of_nat_is_slug].
Qed.

Lemma heading_bases_are_slugs (file_slug : list ascii) (lines : list (list ascii)) :
  is_slug file_slug = true ->
  Forall (fun b => is_slug b = true) (heading_bases file_slug lines).
Proof.
  intros Hs. induction lines as [|line rest IH]; [done|]. cbn [heading_bases].
  destruct (re_match ATX_HEADING_RE line) as [m|]; [|done].
  destruct (contains (group_str m 2) (py "{#")); [done|].
  constructor; [|done]. apply is_slug_join; [done|apply slugify_shape].
Qed.

(** X21.  Every anchor a document gets in a run, the one at its top and
    those of its headings, has the form of a slug: letters a to z, digits
    and single hyphens between them. *)
Theorem anchors_are_slugs (rel text : list ascii) :
  Forall (fun hid => is_slug hid = true) (anchor_ids (slug_of_rel rel) text).
Proof.
  unfold anchor_ids. constructor; [apply slug_of_rel_is_slug|].
  rewrite heading_ids_issue. apply issue_ids_are_slugs, heading_bases_are_slugs.
  apply slug_of_rel_is_slug.
Qed.

Lemma links_skip (f : rmatch -> list ascii) (pre rest : list ascii) (prev : option ascii) :
  no_link_start pre = true ->
  sub_from MD_LINK_RE f 0 prev (pre ++ rest) = pre ++ sub_from MD_LINK_RE f 0 None rest.
Proof.
  revert prev. induction pre as [|c pre IH]; intros prev Hpre.
  - apply sub_from_prev_free. done.
  - cbn [no_link_start] in Hpre. apply andb_true_iff in Hpre as [Hc Hpre].
    cbn [app]. rewrite sub_from_no_match; [by rewrite IH | done |].
    destruct (chr_eqb c "[") eqn:E.
    + apply chr_eqb_eq in E as ->. by apply link_no_match.
    + apply link_no_bracket. intros ->. by rewrite chr_eqb_refl in E.
Qed.

Lemma no_bracket_no_link (s : list ascii) : has_char "[" s = false -> no_link_start s = true.
Proof.
  induction s as [|c s IH]; [done|]. intros [Hc Hs]%has_char_cons.
  cbn [no_link_start]. rewrite (IH Hs), andb_true_r.
  rewrite chr_eqb_neq; [done|congruence].
Qed.

Lemma slug_no_bracket (t : list ascii) : forallb slug_out t = true -> has_char "[" t = false.
Proof.
  induction t as [|c t IH]; [done|]. intros [Hc Ht]%forallb_cons_true.
  unfold has_char in *. cbn [existsb]. rewrite (IH Ht), orb_false_r. revert Hc. by_chars c.
Qed.

(** X22.  The text a document contributes to a run starts with the empty
    link that bears the slug of the document as anchor, then an empty line:
    the rewriting of the links leaves the anchor as it is. *)
Theorem document_starts_with_its_anchor (tbl : gmap (list ascii) (list ascii))
    (folder_root current_file : list (list ascii)) (md_text rel : list ascii) :
  exists rest,
    add_ids_and_rewrite_links tbl folder_root current_file md_text (slug_of_rel rel)
    = Ok (py "[]{#" ++ slug_of_rel rel ++ py "}" ++ nl :: nl :: rest).
Proof.
  unfold add_ids_and_rewrite_links. cbv zeta. rewrite rewrite_links_pure.
  unfold heading_pass.
  set (hs := rewrite_headings (slug_of_rel rel) ∅ (splitlines md_text)).
  assert (Htext : exists tl,
            join [nl] ([py "[]{#" ++ slug_of_rel rel ++ py "}"; []] ++ hs) ++ [nl]
            = (py "[]{#" ++ slug_of_rel rel ++ py "}" ++ [nl]) ++ nl :: tl).
  { destruct hs as [|h hs].
    - exists []. cbn [app join]. by rewrite <- !app_assoc.
    - exists (join [nl] (h :: hs) ++ [nl]).
      change (join [nl] ([?a; []] ++ h :: hs)) with (a ++ [nl] ++ [] ++ [nl] ++ join [nl] (h :: hs)).
      by rewrite <- !app_assoc. }
  destruct Htext as [tl ->]. unfold re_sub.
  rewrite links_skip.
  - set (f := repl_text tbl folder_root current_file).
    assert (Hnl : sub_from MD_LINK_RE f 0 None (nl :: tl)
                  = nl :: sub_from MD_LINK_RE f 0 None tl).
    { apply sub_from_no_match; [done|]. by apply link_no_bracket. }
    rewrite Hnl. eexists. rewrite <- !app_assoc. reflexivity.
  - pose proof (slug_of_rel_is_slug rel) as (_ & Hall & _)%is_slug_elim.
    apply slug_no_bracket in Hall.
    change (py "[]{#" ++ ?t) with ("["%char :: "]"%char :: "{"%char :: "#"%char :: t).
    cbn [app no_link_start bracket_closed]. rewrite !chr_eqb_refl.
    cbn [chr_eqb Ascii.eqb Bool.eqb andb negb orb].
    apply no_bracket_no_link. unfold has_char in *. rewrite existsb_app, Hall. done.
Qed.

Lemma process_all_parts (mmdc : list ascii -> list (list ascii) -> bool)
    (folder tmpdir : list (list ascii)) (scaled_width scaled_height : Z)
    (flow_direction : option direction) (tbl : gmap (list ascii) (list ascii))
    (docs : list document) (outs : list (list ascii * list (list ascii))) (idx : nat) :
  Forall2 (fun d r => process_document mmdc folder tmpdir scaled_width scaled_height
                        flow_direction tbl d = Ok r) docs outs ->
  process_all mmdc folder tmpdir scaled_width scaled_height flow_direction tbl idx docs
  = Ok ((if 0 <? idx then flat_map (fun u => [page_break; u]) outs.*1
         else with_breaks outs.*1),
        concat outs.*2).
Proof.
  intros H. revert idx. induction H as [|d r docs outs Hd _ IH]; intros idx.
  - cbn [process_all]. by destruct (0 <? idx).
  - cbn [process_all]. rewrite Hd. cbn [res_bind]. rewrite IH. cbn [res_bind fst snd].
    replace (0 <? idx + 1) with true by (symmetry; apply Nat.ltb_lt; lia).
    by destruct (0 <? idx).
Qed.

(** X23.  When every document of the run is processed without error, the
    parts of the combined text are the texts of the documents in their
    order, with a page break before every document but the first, and the
    anchors of the run are those of the documents in the same order. *)
Theorem documents_are_joined_with_page_breaks
    (mmdc : list ascii -> list (list ascii) -> bool)
    (folder tmpdir : list (list ascii)) (scaled_width scaled_height : Z)
    (flow_direction : option direction) (tbl : gmap (list ascii) (list ascii))
    (docs : list document) (outs : list (list ascii * list (list ascii))) :
  Forall2 (fun d r => process_document mmdc folder tmpdir scaled_width scaled_height
                        flow_direction tbl d = Ok r) docs outs ->
  process_all mmdc folder tmpdir scaled_width scaled_height flow_direction tbl 0 docs
  = Ok (with_breaks outs.*1, concat outs.*2).
Proof. intros H. by rewrite (process_all_parts _ _ _ _ _ _ _ _ outs 0 H). Qed.

Lemma documents_are_joined_with_page_breaks_witness :
  let sa := slug_of_rel (py "a.md") in
  let sb := slug_of_rel (py "b.md") in
  process_all (fun _ _ => true) [py "docs"] [py "tmp"] 800 600 None
    (<[py "a.md" := sa]> (<[py "b.md" := sb]> ∅)) 0
    [Document [py "docs"; py "a.md"] (unlines [py "# A"; []]);
     Document [py "docs"; py "b.md"] (unlines [py "B"; []])]
  = Ok (with_breaks
          [unlines [py "[]{#" ++ sa ++ py "}"; []; py "# A {#" ++ sa ++ py "-a}"; []];
           unlines [py "[]{#" ++ sb ++ py "}"; []; py "B"; []]],
        concat [[sa; sa ++ py "-a"]; [sb]]).
Proof.
  cbv zeta.
  apply (documents_are_joined_with_page_breaks (fun _ _ => true) [py "docs"] [py "tmp"]
           800 600 None
           (<[py "a.md" := slug_of_rel (py "a.md")]>
              (<[py "b.md" := slug_of_rel (py "b.md")]> ∅))
           [Document [py "docs"; py "a.md"] (unlines [py "# A"; []]);
            Document [py "docs"; py "b.md"] (unlines [py "B"; []])]
           [(unlines [py "[]{#" ++ slug_of_rel (py "a.md") ++ py "}"; [];
                      py "# A {#" ++ slug_of_rel (py "a.md") ++ py "-a}"; []],
             [slug_of_rel (py "a.md"); slug_of_rel (py "a.md") ++ py "-a"]);
            (unlines [py "[]{#" ++ slug_of_rel (py "b.md") ++ py "}"; []; py "B"; []],
             [slug_of_rel (py "b.md")])]).
  repeat constructor; vm_compute; reflexivity.
Defined.

(** ** Lines that get no id *)

Lemma kept_line_at (file_slug : list ascii) (pre post : list (list ascii)) (line : list ascii) :
  match re_match ATX_HEADING_RE line with
  | None => True
  | Some m => contains (group_str m 2) (py "{#") = true
  end ->
  heading_pass file_slug (pre ++ line :: post) !! (2 + length pre) = Some line
  /\ heading_ids file_slug ∅ (pre ++ line :: post) = heading_ids file_slug ∅ (pre ++ post).
Proof.
  intros Hline. split.
  - unfold heading_pass.
    change (([?a; ?b] ++ ?l) !! (2 + length pre)) with (l !! length pre).
    destruct (rewrite_headings_at file_slug pre post line ∅) as [counts ->].
    unfold rewrite_heading_line. destruct (re_match ATX_HEADING_RE line) as [m|]; [|done].
    cbv zeta. by rewrite Hline.
  - generalize (∅ : gmap (list ascii) nat). induction pre as [|l pre IH]; intros counts.
    + cbn [app heading_ids]. destruct (re_match ATX_HEADING_RE line) as [m|]; [|done].
      by rewrite Hline.
    + cbn [app heading_ids]. destruct (re_match ATX_HEADING_RE l) as [m|]; [|apply IH].
      destruct (contains (group_str m 2) (py "{#")); [apply IH|].
      destruct (make_unique_id counts _) as [counts' hid]. by rewrite IH.
Qed.

Lemma atx_no_hash (line : list ascii) :
  match line with c :: _ => c <> "#"%char | [] => True end ->
  re_match ATX_HEADING_RE line = None.
Proof.
  intros H. unfold re_match, match_at, ATX_HEADING_RE.
  rewrite exec_rseq_cons. cbn [exec at_bol ms_prev]. rewrite exec_rseq_cons.
  cbn [exec ms_prev ms_rest ms_caps]. destruct line as [|c line]; [done|].
  cbn [rep]. rewrite chr_eqb_neq by congruence. done.
Qed.

(** X24.  A line that does not start with [#] is copied to the output as
    it is, at its place, and takes no part in the numbering of the ids:
    the headings of the document get the ids they would get without the
    line. *)
Theorem line_without_hash_is_copied (file_slug : list ascii) (pre post : list (list ascii))
    (line : list ascii) :
  match line with c :: _ => c <> "#"%char | [] => True end ->
  heading_pass file_slug (pre ++ line :: post) !! (2 + length pre) = Some line
  /\ heading_ids file_slug ∅ (pre ++ line :: post) = heading_ids file_slug ∅ (pre ++ post).
Proof. intros H. apply kept_line_at. by rewrite atx_no_hash. Qed.

Lemma line_without_hash_is_copied_witness :
  heading_pass (py "f") ([py "# A"] ++ py "  # A" :: [py "# A"]) !! (2 + length [py "# A"])
  = Some (py "  # A")
  /\ heading_ids (py "f") ∅ ([py "# A"] ++ py "  # A" :: [py "# A"])
     = heading_ids (py "f") ∅ ([py "# A"] ++ [py "# A"]).
Proof.
  apply (line_without_hash_is_copied (py "f") [py "# A"] [py "# A"] (py "  # A")).
  discriminate.
Defined.

(** X25.  A heading whose title already holds [{#] is copied to the output
    as it is, with its own id, and takes no part in the numbering of the
    ids. *)
Theorem heading_with_id_is_kept (file_slug : list ascii) (pre post : list (list ascii))
    (n : nat) (ws title ws' : list ascii) :
  1 <= n <= 6 ->
  ws <> [] ->
  forallb is_space ws = true ->
  forallb is_space ws' = true ->
  forallb dot title = true ->
  option_map is_space (head title) = Some false ->
  option_map is_space (last title) = Some false ->
  contains title (py "{#") = true ->
  heading_pass file_slug (pre ++ (repeat "#"%char n ++ ws ++ title ++ ws') :: post)
    !! (2 + length pre)
  = Some (repeat "#"%char n ++ ws ++ title ++ ws')
  /\ heading_ids file_slug ∅ (pre ++ (repeat "#"%char n ++ ws ++ title ++ ws') :: post)
     = heading_ids file_slug ∅ (pre ++ post).
Proof.
  intros Hn Hws1 Hws2 Hws3 Hdot Hh Hl Hid. apply kept_line_at.
  rewrite atx_match by done. unfold group_str, group. cbn [m_caps assoc Nat.eqb default].
  exact Hid.
Qed.

Lemma heading_with_id_is_kept_witness :
  heading_pass (py "f")
    ([py "# A"] ++ (repeat "#"%char 2 ++ py " " ++ py "A {#mine}" ++ py "  ") :: [py "# A"])
    !! (2 + length [py "# A"])
  = Some (repeat "#"%char 2 ++ py " " ++ py "A {#mine}" ++ py "  ")
  /\ heading_ids (py "f") ∅
       ([py "# A"] ++ (repeat "#"%char 2 ++ py " " ++ py "A {#mine}" ++ py "  ") :: [py "# A"])
     = heading_ids (py "f") ∅ ([py "# A"] ++ [py "# A"]).
Proof.
  apply (heading_with_id_is_kept (py "f") [py "# A"] [py "# A"] 2 (py " ") (py "A {#mine}")
           (py "  ")); try done; lia.
Defined.

(** ** C7: edge labels in the text of a block *)

Lemma arrow_no_bracket (n : nat) (gt : bool) : has_char "[" (arrow n gt) = false.
Proof.
  unfold arrow, has_char. rewrite existsb_app.
  replace (existsb (chr_eqb "[") (repeat "-"%char n)) with false; [by destruct gt|].
  symmetry. induction n as [|n IH]; [done|]. cbn [repeat existsb]. by rewrite IH.
Qed.

Lemma has_char_app_false (c : ascii) (a b : list ascii) :
  has_char c a = false -> has_char c b = false -> has_char c (a ++ b) = false.
Proof. unfold has_char. rewrite existsb_app. by intros -> ->. Qed.

Lemma quoted_no_bracket (label : list ascii) :
  has_char "[" label = false -> has_char "[" (quoted label) = false.
Proof.
  intros H. unfold quoted.
  destruct (startswith label [dquote] || negb (has_paren label)); [done|].
  apply (has_char_app_false _ [dquote]); [done|]. by apply has_char_app_false.
Qed.

(** *** Labels that are closed in a text *)

Section LabelsClosed.

Variable r : regex.
Variable scan : list ascii -> label_scan.
Variable ok : list ascii -> Prop.

Hypothesis r_free : prev_free r = true.
Hypothesis ok_nil : ok [].
Hypothesis scan_none :
  forall prev s rest, scan s = NoLabel -> ok rest -> match_at r prev (s ++ rest) = None.
Hypothesis scan_some :
  forall s n, scan s = Label n ->
    exists m, length (m_text m) = n /\ n <> 0
              /\ forall prev rest, ok rest -> match_at r prev (s ++ rest) = Some m.

(** The substitution in a text whose labels are closed does not depend on
    what follows the text. *)
Lemma labels_split (f : rmatch -> list ascii) (a rest : list ascii) (k : nat)
    (prev : option ascii) :
  labels_closed_from scan k a = true ->
  ok rest ->
  sub_from r f k prev (a ++ rest) = sub_from r f k prev a ++ sub_from r f 0 None rest.
Proof.
  revert k prev. induction a as [|c a IH]; intros k prev.
  - cbn [labels_closed_from]. intros ->%Nat.eqb_eq _. cbn [app]. by apply sub_from_prev_free.
  - cbn [labels_closed_from app sub_from]. destruct k as [|k]; [|apply IH].
    destruct (scan (c :: a)) as [|n|] eqn:Hs; [| |done]; intros Ha Hok.
    + pose proof (scan_none prev (c :: a) rest Hs Hok) as Hrest.
      pose proof (scan_none prev (c :: a) [] Hs ok_nil) as Hnil.
      rewrite app_nil_r in Hnil. cbn [app] in Hrest. rewrite Hrest, Hnil.
      cbn [app]. f_equal. by apply IH.
    + destruct (scan_some _ _ Hs) as (m & Hlen & Hn & Hm).
      pose proof (Hm prev rest Hok) as Hrest.
      pose proof (Hm prev [] ok_nil) as Hnil.
      rewrite app_nil_r in Hnil. cbn [app] in Hrest. rewrite Hrest, Hnil.
      destruct (m_text m) as [|x t]; [done|]. cbn [length] in Hlen. subst n.
      cbn [Nat.pred] in Ha. rewrite <- app_assoc. f_equal. by apply IH.
Qed.

End LabelsClosed.

Lemma scan_until_label (close : ascii) (s : list ascii) (n : nat) (seen : bool) (t : nat) :
  scan_until close s n seen = Label t ->
  exists label s'',
    s = label ++ close :: s'' /\ has_char close label = false
    /\ (seen = true \/ label <> []) /\ t = n + length label + 1.
Proof.
  revert n seen. induction s as [|c s IH]; intros n seen; [done|]. cbn [scan_until].
  destruct (chr_eqb c close) eqn:Hc.
  - apply chr_eqb_eq in Hc as ->. destruct seen; [|done]. intros [= <-].
    exists [], s. cbn [app length]. repeat split; [by left | lia].
  - intros (label & s'' & -> & Hl & _ & ->)%IH. exists (c :: label), s''.
    cbn [app length]. repeat split; [|by right|lia].
    unfold has_char in *. cbn [existsb]. rewrite Hl, orb_false_r.
    unfold chr_eqb in *. by rewrite Ascii.eqb_sym.
Qed.

Lemma scan_until_app (close : ascii) (s b : list ascii) (n : nat) (seen : bool) :
  scan_until close s n seen <> OpenLabel ->
  scan_until close (s ++ b) n seen = scan_until close s n seen.
Proof.
  revert n seen. induction s as [|c s IH]; intros n seen; [done|]. cbn [app scan_until].
  destruct (chr_eqb c close); [done|apply IH].
Qed.

Lemma scan_until_found (close : ascii) (label s'' : list ascii) (n : nat) (seen : bool) :
  has_char close label = false ->
  seen = true \/ label <> [] ->
  scan_until close (label ++ close :: s'') n seen = Label (n + length label + 1).
Proof.
  revert n seen. induction label as [|c label IH]; intros n seen Hl Hs.
  - cbn [app scan_until length]. rewrite chr_eqb_refl. destruct Hs as [->|?]; [|done].
    f_equal. lia.
  - apply has_char_cons in Hl as [Hc Hl]. cbn [app scan_until length].
    rewrite chr_eqb_neq by congruence. rewrite IH by auto. f_equal. lia.
Qed.

Lemma arrow_length (k : nat) (gt : bool) :
  length (arrow (S k) gt) = S (length (arrow k gt)).
Proof. unfold arrow. by rewrite !length_app. Qed.

Lemma scan_arrow_label (s : list ascii) (d t : nat) :
  scan_arrow s d = Label t ->
  exists k gt label s'',
    s = arrow k gt ++ py "|" ++ label ++ py "|" ++ s'' /\ 2 <= d + k /\ label <> []
    /\ has_char "|" label = false
    /\ t = d + length (arrow k gt) + 1 + length label + 1.
Proof.
  revert d. induction s as [|c s IH]; intros d; [done|]. cbn [scan_arrow].
  destruct (chr_eqb c "-") eqn:Hd.
  { apply chr_eqb_eq in Hd as ->.
    intros (k & gt & label & s'' & -> & Hk & Hl & Hb & ->)%IH.
    exists (S k), gt, label, s''. rewrite arrow_length. repeat split; [lia|done|done|lia]. }
  destruct (d <? 2) eqn:Hlt; [done|]. apply Nat.ltb_ge in Hlt.
  destruct (chr_eqb c "|") eqn:Hbar.
  { apply chr_eqb_eq in Hbar as ->.
    intros (label & s'' & -> & Hb & [?|Hl] & ->)%scan_until_label; [done|].
    exists 0, false, label, s''. cbn [arrow repeat app length]. repeat split; [lia|done|done|lia]. }
  destruct (chr_eqb c ">") eqn:Hgt; [|done]. apply chr_eqb_eq in Hgt as ->.
  destruct s as [|e s]; [done|]. destruct (chr_eqb e "|") eqn:He; [|done].
  apply chr_eqb_eq in He as ->.
  intros (label & s'' & -> & Hb & [?|Hl] & ->)%scan_until_label; [done|].
  exists 0, true, label, s''. cbn [arrow repeat app length]. repeat split; [lia|done|done|].
  cbn. lia.
Qed.

Lemma scan_arrow_found (k : nat) (gt : bool) (label s'' : list ascii) (d : nat) :
  2 <= d + k ->
  label <> [] ->
  has_char "|" label = false ->
  scan_arrow (arrow k gt ++ py "|" ++ label ++ py "|" ++ s'') d
  = Label (d + length (arrow k gt) + 1 + length label + 1).
Proof.
  intros Hk Hl Hb. revert d Hk. induction k as [|k IH]; intros d Hk.
  - assert (Hd : (d <? 2) = false) by (apply Nat.ltb_ge; lia).
    destruct gt; unfold arrow; cbn [repeat app py list_ascii_of_string scan_arrow];
      cbn [chr_eqb Ascii.eqb Bool.eqb andb]; rewrite Hd.
    + rewrite scan_until_found by auto. f_equal. cbn [length]. lia.
    + rewrite scan_until_found by auto. f_equal. cbn [length]. lia.
  - change (arrow (S k) gt ++ ?t) with ("-"%char :: arrow k gt ++ t).
    cbn [scan_arrow]. rewrite chr_eqb_refl, IH by lia. f_equal. rewrite arrow_length. lia.
Qed.

Lemma scan_arrow_app (s b : list ascii) (d : nat) :
  scan_arrow s d <> OpenLabel -> scan_arrow (s ++ b) d = scan_arrow s d.
Proof.
  revert d. induction s as [|c s IH]; intros d; [done|]. cbn [app scan_arrow].
  destruct (chr_eqb c "-"); [apply IH|]. destruct (d <? 2); [done|].
  destruct (chr_eqb c "|"); [apply scan_until_app|]. destruct (chr_eqb c ">"); [|done].
  destruct s as [|e s]; [done|]. cbn [app]. destruct (chr_eqb e "|"); [|done].
  apply scan_until_app.
Qed.

Lemma dashes_repeat (s : list ascii) :
  forallb (chr_eqb "-") s = true -> s = repeat "-"%char (length s).
Proof.
  induction s as [|c s IH]; [done|]. intros [Hc Hs]%forallb_cons_true.
  apply chr_eqb_eq in Hc as <-. cbn [length repeat]. by rewrite <- IH.
Qed.

Lemma not_chr_has (c : ascii) (s : list ascii) :
  forallb (not_chr c) s = true -> has_char c s = false.
Proof.
  induction s as [|d s IH]; [done|]. intros [Hd Hs]%forallb_cons_true.
  unfold has_char in *. cbn [existsb]. rewrite (IH Hs), orb_false_r.
  unfold not_chr, chr_eqb in *. rewrite Ascii.eqb_sym. by apply negb_true_iff.
Qed.

(** A label between two [close] characters, as the patterns of the labels
    read it. *)
Lemma closed_label_inv {R : Type} (close : ascii) (s : list ascii) (pv : option ascii)
    (k : option ascii -> list ascii -> option R) (x : R) :
  (forall pv' s', k pv' s' <> None -> exists post, s' = close :: post) ->
  rep true (not_chr close) 1 None pv s k = Some x ->
  exists label post, s = label ++ close :: post /\ label <> [] /\ has_char close label = false.
Proof.
  intros Hk (label & s2 & pv' & -> & Hl & Hlen & E)%rep_some.
  destruct (Hk pv' s2) as [post ->]; [by rewrite E|].
  exists label, post. repeat split; [|by apply not_chr_has].
  intros ->. cbn [length] in Hlen. lia.
Qed.

(** A text that the edge pattern matches from its first character on
    starts with an arrow and a label between bars. *)
Lemma edge_inv (prev : option ascii) (s : list ascii) (m : rmatch) :
  match_at EDGE_RE prev s = Some m ->
  exists n gt label post,
    s = arrow n gt ++ py "|" ++ label ++ py "|" ++ post /\ 2 <= n /\ label <> []
    /\ has_char "|" label = false.
Proof.
  unfold match_at.
  destruct (exec EDGE_RE (MState prev s []) Some) as [st|] eqn:E; [|done]. intros _.
  unfold EDGE_RE, plus, chr in E. cbn [rseq exec ms_rest ms_caps ms_prev] in E.
  destruct s as [|c s]; [done|]. destruct (chr_eqb "-" c) eqn:Hc; [|done].
  apply chr_eqb_eq in Hc as <-. cbn [ms_rest ms_caps ms_prev] in E.
  apply rep_some in E as (s1 & s2 & pv & -> & Hs1 & Hlen & E).
  unfold set_cap in E. cbn [ms_rest ms_caps ms_prev] in E.
  apply dashes_repeat in Hs1.
  assert (Harrow : forall e, is_arrow_end e = true ->
            chr_eqb "|" e = false
            /\ exists gt : bool,
                 "-"%char :: s1 ++ [e]
                 = arrow (if gt then S (length s1) else S (S (length s1))) gt).
  { intros e He. unfold is_arrow_end in He. apply orb_true_iff in He as [He|He];
      apply chr_eqb_eq in He as ->; (split; [done|]).
    - exists false. unfold arrow. rewrite app_nil_r.
      replace (S (S (length s1))) with (S (length s1) + 1) by lia.
      rewrite repeat_app. cbn [repeat app]. by rewrite <- Hs1.
    - exists true. unfold arrow. cbn [repeat app]. by rewrite <- Hs1. }
  destruct s2 as [|e s2]; [done|].
  destruct (is_arrow_end e) eqn:He.
  - destruct (Harrow e He) as (Hne & gt & Harr). rewrite Hne in E.
    match type of E with
    | match ?X with _ => _ end = _ => destruct X as [y|] eqn:E1; [|done]
    end.
    destruct s2 as [|c0 s2]; [done|]. destruct (chr_eqb "|" c0) eqn:Hc0; [|done].
    apply chr_eqb_eq in Hc0 as <-.
    apply closed_label_inv in E1 as (label & post & -> & Hl & Hb).
    + exists (if gt then S (length s1) else S (S (length s1))), gt, label, post.
      rewrite <- Harr. repeat split; [|destruct gt; lia|done|done].
      cbn [app]. by rewrite <- app_assoc.
    + intros pv' s' H. destruct s' as [|c1 s']; [done|].
      destruct (chr_eqb "|" c1) eqn:Hc1; [|done]. apply chr_eqb_eq in Hc1 as <-. eauto.
  - destruct (chr_eqb "|" e) eqn:Hc0; [|done]. apply chr_eqb_eq in Hc0 as <-.
    apply closed_label_inv in E as (label & post & -> & Hl & Hb).
    + exists (S (length s1)), false, label, post. unfold arrow. cbn [repeat app].
      rewrite app_nil_r, <- Hs1. repeat split; [lia|done|done].
    + intros pv' s' H. destruct s' as [|c1 s']; [done|].
      destruct (chr_eqb "|" c1) eqn:Hc1; [|done]. apply chr_eqb_eq in Hc1 as <-. eauto.
Qed.

Lemma edge_scan_none (prev : option ascii) (s rest : list ascii) :
  scan_edge s = NoLabel -> True -> match_at EDGE_RE prev (s ++ rest) = None.
Proof.
  intros Hs _. destruct (match_at EDGE_RE prev (s ++ rest)) as [m|] eqn:E; [|done].
  apply edge_inv in E as (n & gt & label & post & Heq & Hn & Hl & Hb).
  pose proof (scan_arrow_found n gt label post 0 ltac:(lia) Hl Hb) as Hfound.
  rewrite <- Heq in Hfound. unfold scan_edge in Hs.
  rewrite scan_arrow_app, Hs in Hfound by (by rewrite Hs). done.
Qed.

Lemma edge_scan_some (s : list ascii) (n : nat) :
  scan_edge s = Label n ->
  exists m, length (m_text m) = n /\ n <> 0
            /\ forall prev rest, True -> match_at EDGE_RE prev (s ++ rest) = Some m.
Proof.
  intros (k & gt & label & s'' & -> & Hk & Hl & Hb & ->)%scan_arrow_label.
  exists (RMatch (arrow k gt ++ py "|" ++ label ++ py "|") [(2, label); (1, arrow k gt)]).
  cbn [m_text]. split; [|split; [lia|]].
  - rewrite !length_app. cbn [py list_ascii_of_string length]. lia.
  - intros prev rest _. rewrite <- !app_assoc. by apply edge_match.
Qed.

(** The rule of the edge labels in a text where no edge label is left
    open does not depend on what follows the text. *)
Lemma edge_labels_split (a rest : list ascii) :
  labels_closed scan_edge a = true ->
  quote_edge_labels (a ++ rest) = quote_edge_labels a ++ quote_edge_labels rest.
Proof.
  intros Ha. unfold quote_edge_labels, re_sub.
  apply (labels_split EDGE_RE scan_edge (fun _ => True)); try done.
  - apply edge_scan_none.
  - apply edge_scan_some.
Qed.

Lemma word_not_bracket (c : ascii) : is_word c = true -> chr_eqb c "[" = false.
Proof.
  intros Hc. destruct (chr_eqb c "[") eqn:E; [|done]. apply chr_eqb_eq in E as ->.
  by vm_compute in Hc.
Qed.

Lemma scan_ident_app (s b : list ascii) (w : nat) :
  match b with x :: _ => is_word x = false /\ x <> "["%char | [] => True end ->
  scan_ident s w <> OpenLabel ->
  scan_ident (s ++ b) w = scan_ident s w.
Proof.
  intros Hb. revert w. induction s as [|c s IH]; intros w.
  - intros _. destruct b as [|x b]; [done|]. destruct Hb as [Hx Hx'].
    cbn [app scan_ident]. by rewrite chr_eqb_neq, Hx.
  - cbn [app scan_ident]. destruct (chr_eqb c "["); [apply scan_until_app|].
    destruct (is_word c); [apply IH|done].
Qed.

Lemma scan_ident_label (s : list ascii) (w t : nat) :
  scan_ident s w = Label t ->
  exists ident label s'',
    s = ident ++ py "[" ++ label ++ py "]" ++ s'' /\ forallb is_word ident = true
    /\ label <> [] /\ has_char "]" label = false
    /\ t = w + length ident + 1 + length label + 1.
Proof.
  revert w. induction s as [|c s IH]; intros w; [done|]. cbn [scan_ident].
  destruct (chr_eqb c "[") eqn:Hc.
  { apply chr_eqb_eq in Hc as ->.
    intros (label & s'' & -> & Hb & [?|Hl] & ->)%scan_until_label; [done|].
    exists [], label, s''. cbn [app length forallb]. repeat split; [done|done|lia]. }
  destruct (is_word c) eqn:Hw; [|done].
  intros (ident & label & s'' & -> & Hi & Hl & Hb & ->)%IH.
  exists (c :: ident), label, s''. cbn [app length forallb]. rewrite Hw, Hi.
  repeat split; [done|done|lia].
Qed.

Lemma scan_ident_found (ident label s'' : list ascii) (w : nat) :
  forallb is_word ident = true ->
  label <> [] ->
  has_char "]" label = false ->
  scan_ident (ident ++ py "[" ++ label ++ py "]" ++ s'') w
  = Label (w + length ident + 1 + length label + 1).
Proof.
  intros Hi Hl Hb. revert w. induction ident as [|c ident IH]; intros w.
  - cbn [app py list_ascii_of_string scan_ident length]. rewrite chr_eqb_refl.
    rewrite scan_until_found by auto. f_equal. lia.
  - apply forallb_cons_true in Hi as [Hc Hi]. cbn [app scan_ident length].
    rewrite (word_not_bracket c Hc), Hc, IH by done. f_equal. lia.
Qed.

(** A text that the node pattern matches from its first character on
    starts with an identifier, which may be empty, and a label between
    square brackets. *)
Lemma node_inv (prev : option ascii) (s : list ascii) (m : rmatch) :
  match_at NODE_RE prev s = Some m ->
  exists ident label post,
    s = ident ++ py "[" ++ label ++ py "]" ++ post /\ forallb is_word ident = true
    /\ label <> [] /\ has_char "]" label = false.
Proof.
  unfold match_at.
  destruct (exec NODE_RE (MState prev s []) Some) as [st|] eqn:E; [|done]. intros _.
  unfold NODE_RE, plus, chr in E. cbn [rseq exec ms_rest ms_caps ms_prev] in E.
  unfold set_cap in E. cbn [ms_rest ms_caps ms_prev] in E.
  match type of E with
  | match ?X with _ => _ end = _ => destruct X as [y|] eqn:E1
  end.
  - clear E. apply rep_some in E1 as (ident & s2 & pv & -> & Hi & _ & E).
    destruct s2 as [|c0 s2]; [done|]. destruct (chr_eqb "[" c0) eqn:Hc0; [|done].
    apply chr_eqb_eq in Hc0 as <-.
    apply closed_label_inv in E as (label & post & -> & Hl & Hb).
    + by exists ident, label, post.
    + intros pv' s' H. destruct s' as [|c1 s']; [done|].
      destruct (chr_eqb "]" c1) eqn:Hc1; [|done]. apply chr_eqb_eq in Hc1 as <-. eauto.
  - clear E1. destruct s as [|c0 s]; [done|]. destruct (chr_eqb "[" c0) eqn:Hc0; [|done].
    apply chr_eqb_eq in Hc0 as <-.
    apply closed_label_inv in E as (label & post & -> & Hl & Hb).
    + by exists [], label, post.
    + intros pv' s' H. destruct s' as [|c1 s']; [done|].
      destruct (chr_eqb "]" c1) eqn:Hc1; [|done]. apply chr_eqb_eq in Hc1 as <-. eauto.
Qed.

(** A label between square brackets matches the node pattern from the
    opening bracket on, and the group of the identifier takes no part. *)
Lemma node_match_bare (prev : option ascii) (label post : list ascii) :
  label <> [] ->
  has_char "]" label = false ->
  match_at NODE_RE prev (py "[" ++ label ++ py "]" ++ post)
  = Some (RMatch (py "[" ++ label ++ py "]") [(2, label)]).
Proof.
  intros Hl Hl'.
  assert (Hex : exec NODE_RE (MState prev (py "[" ++ label ++ py "]" ++ post) []) Some
                = Some (MState (Some "]"%char) post [(2, label)])).
  { unfold NODE_RE, plus, chr. cbn [rseq exec ms_rest ms_caps ms_prev].
    cbn [py list_ascii_of_string app rep]. 
    change (is_word "[") with false. cbn [andb rep_stop].
    rewrite chr_eqb_refl.
    erewrite rep_greedy_run; [reflexivity | by apply has_char_not | | | done |].
    { cbn [app]. unfold not_chr. by rewrite chr_eqb_refl. }
    { destruct label; [done|]. cbn [length]. lia. }
    cbn [app set_cap ms_prev ms_rest ms_caps]. rewrite chr_eqb_refl.
    unfold consumed. cbn [ms_rest].
    by rewrite !take_consumed. }
  unfold match_at. rewrite Hex. cbn [ms_rest ms_caps].
  by rewrite (take_consumed_eq _ (py "[" ++ label ++ py "]"))
    by (by rewrite <- !app_assoc).
Qed.

Lemma node_scan_none (prev : option ascii) (s rest : list ascii) :
  scan_node s = NoLabel ->
  match rest with x :: _ => is_word x = false /\ x <> "["%char | [] => True end ->
  match_at NODE_RE prev (s ++ rest) = None.
Proof.
  intros Hs Hrest. destruct (match_at NODE_RE prev (s ++ rest)) as [m|] eqn:E; [|done].
  apply node_inv in E as (ident & label & post & Heq & Hi & Hl & Hb).
  pose proof (scan_ident_found ident label post 0 Hi Hl Hb) as Hfound.
  rewrite <- Heq in Hfound. unfold scan_node in Hs.
  rewrite scan_ident_app, Hs in Hfound by (done || by rewrite Hs). done.
Qed.

Lemma node_scan_some (s : list ascii) (n : nat) :
  scan_node s = Label n ->
  exists m, length (m_text m) = n /\ n <> 0
            /\ forall prev rest,
                 match rest with x :: _ => is_word x = false /\ x <> "["%char | [] => True end ->
                 match_at NODE_RE prev (s ++ rest) = Some m.
Proof.
  intros (ident & label & s'' & -> & Hi & Hl & Hb & ->)%scan_ident_label.
  destruct ident as [|c ident].
  - exists (RMatch (py "[" ++ label ++ py "]") [(2, label)]).
    cbn [m_text]. split; [|split; [lia|]].
    + rewrite !length_app. cbn [py list_ascii_of_string length]. lia.
    + intros prev rest _. cbn [app]. rewrite <- !app_assoc. by apply node_match_bare.
  - exists (RMatch ((c :: ident) ++ py "[" ++ label ++ py "]") [(2, label); (1, c :: ident)]).
    cbn [m_text]. split; [|split; [lia|]].
    + rewrite !length_app. cbn [py list_ascii_of_string length]. lia.
    + intros prev rest _. rewrite <- !app_assoc. by apply node_match.
Qed.

(** The rule of the node labels in a text where no node label is left
    open does not depend on what follows the text, when it is no character
    of an identifier and no [[] that follows. *)
Lemma node_labels_split (a rest : list ascii) :
  labels_closed scan_node a = true ->
  match rest with x :: _ => is_word x = false /\ x <> "["%char | [] => True end ->
  quote_node_labels (a ++ rest) = quote_node_labels a ++ quote_node_labels rest.
Proof.
  intros Ha Hrest. unfold quote_node_labels, re_sub.
  apply (labels_split NODE_RE scan_node
           (fun rest => match rest with
                        | x :: _ => is_word x = false /\ x <> "["%char
                        | [] => True
                        end)); try done.
  - apply node_scan_none.
  - apply node_scan_some.
Qed.




(** ** C10: heading lines in the result of the function *)

Lemma scan_target_link (s : list ascii) (n : nat) (seen : bool) (t : nat) :
  scan_target s n seen = Link t ->
  exists target s'',
    s = target ++ ")"%char :: s'' /\ has_char ")" target = false
    /\ (seen = true \/ target <> []) /\ t = n + length target + 1.
Proof.
  revert n seen. induction s as [|c s IH]; intros n seen; [done|]. cbn [scan_target].
  destruct (chr_eqb c ")") eqn:Hc.
  - apply chr_eqb_eq in Hc as ->. destruct seen; [|done]. intros [= <-].
    exists [], s. cbn [app length]. repeat split; [by left | lia].
  - intros (target & s'' & -> & Ht & _ & ->)%IH. exists (c :: target), s''.
    cbn [app length]. repeat split; [|by right|lia].
    unfold has_char in *. cbn [existsb]. rewrite Ht, orb_false_r.
    unfold chr_eqb in *. by rewrite Ascii.eqb_sym.
Qed.

Lemma scan_target_settled (s : list ascii) (n : nat) (seen : bool) :
  scan_target s n seen <> NoLink.
Proof.
  revert n seen. induction s as [|c s IH]; intros n seen; [done|]. cbn [scan_target].
  destruct (chr_eqb c ")"); [by destruct seen|apply IH].
Qed.

Lemma scan_label_link (s : list ascii) (n : nat) (seen : bool) (t : nat) :
  scan_label s n seen = Link t ->
  exists label target s'',
    s = label ++ "]"%char :: "("%char :: target ++ ")"%char :: s''
    /\ has_char "]" label = false /\ (seen = true \/ label <> [])
    /\ target <> [] /\ has_char ")" target = false
    /\ t = n + length label + 2 + length target + 1.
Proof.
  revert n seen. induction s as [|c s IH]; intros n seen; [done|]. cbn [scan_label].
  destruct (chr_eqb c "]") eqn:Hc.
  - apply chr_eqb_eq in Hc as ->. destruct seen; [|done].
    destruct s as [|d s]; [done|]. destruct (chr_eqb d "(") eqn:Hd; [|done].
    apply chr_eqb_eq in Hd as ->.
    intros (target & s'' & -> & Ht & [?|Hne] & ->)%scan_target_link; [done|].
    exists [], target, s''. cbn [app length]. repeat split; [by left|done|done|lia].
  - intros (label & target & s'' & -> & Hl & _ & Hne & Ht & ->)%IH.
    exists (c :: label), target, s''. cbn [app length]. repeat split; [|by right|done|done|lia].
    unfold has_char in *. cbn [existsb]. rewrite Hl, orb_false_r.
    unfold chr_eqb in *. by rewrite Ascii.eqb_sym.
Qed.

Lemma scan_label_nolink (s : list ascii) (n : nat) (seen : bool) :
  scan_label s n seen = NoLink -> bracket_closed s seen = true.
Proof.
  revert n seen. induction s as [|c s IH]; intros n seen; [done|].
  cbn [scan_label bracket_closed]. destruct (chr_eqb c "]").
  - destruct seen; [|done]. cbn [negb orb]. destruct s as [|d s]; [done|].
    destruct (chr_eqb d "("); [|done]. intros H. by apply scan_target_settled in H.
  - apply IH.
Qed.

Lemma scan_target_app (s b : list ascii) (n : nat) (seen : bool) :
  scan_target s n seen <> Unsettled ->
  scan_target (s ++ b) n seen = scan_target s n seen.
Proof.
  revert n seen. induction s as [|c s IH]; intros n seen; [done|]. cbn [app scan_target].
  destruct (chr_eqb c ")"); [done|apply IH].
Qed.

Lemma scan_label_app (s b : list ascii) (n : nat) (seen : bool) :
  scan_label s n seen <> Unsettled ->
  scan_label (s ++ b) n seen = scan_label s n seen.
Proof.
  revert n seen. induction s as [|c s IH]; intros n seen; [done|]. cbn [app scan_label].
  destruct (chr_eqb c "]"); [|apply IH]. destruct seen; [|done].
  destruct s as [|d s]; [done|]. cbn [app]. destruct (chr_eqb d "("); [|done].
  apply scan_target_app.
Qed.

Lemma link_found (s' rest : list ascii) (n : nat) (prev : option ascii) :
  scan_label s' 0 false = Link n ->
  exists m t,
    match_at MD_LINK_RE prev ("["%char :: s' ++ rest) = Some m
    /\ match_at MD_LINK_RE prev ("["%char :: s') = Some m
    /\ m_text m = "["%char :: t /\ length t = n.
Proof.
  intros (label & target & s'' & -> & Hl & [?|Hne] & Ht & Ht' & ->)%scan_label_link; [done|].
  exists (link_of label target), (label ++ py "](" ++ target ++ py ")").
  assert (Heq : forall post,
            "["%char :: (label ++ "]"%char :: "("%char :: target ++ ")"%char :: s'') ++ post
            = link_text label target ++ s'' ++ post).
  { intros post. unfold link_text. rewrite <- !app_assoc. cbn [py list_ascii_of_string app].
    by rewrite <- !app_assoc. }
  split; [|split; [|split]].
  - rewrite Heq. by apply link_match.
  - rewrite <- (app_nil_r (label ++ _)), Heq. by apply link_match.
  - done.
  - rewrite !length_app. cbn [py list_ascii_of_string length]. lia.
Qed.

(** The rewriting of a text whose links are closed does not depend on what
    follows the text. *)
Lemma closed_split (f : rmatch -> list ascii) (a rest : list ascii) (k : nat)
    (prev : option ascii) :
  links_closed_from k a = true ->
  sub_from MD_LINK_RE f k prev (a ++ rest)
  = sub_from MD_LINK_RE f k prev a ++ sub_from MD_LINK_RE f 0 None rest.
Proof.
  revert k prev. induction a as [|c a IH]; intros k prev.
  - cbn [links_closed_from]. intros ->%Nat.eqb_eq.
    cbn [app]. by apply sub_from_prev_free.
  - cbn [links_closed_from app sub_from]. destruct k as [|k]; [|apply IH].
    destruct (chr_eqb c "[") eqn:Hc.
    + apply chr_eqb_eq in Hc as ->.
      destruct (scan_label a 0 false) as [|n|] eqn:Hs; [| |done].
      * apply scan_label_nolink in Hs. intros Ha.
        rewrite (link_no_match prev a rest Hs).
        pose proof (link_no_match prev a [] Hs) as Hnil. rewrite app_nil_r in Hnil.
        rewrite Hnil. cbn [app]. f_equal. by apply IH.
      * intros Ha. destruct (link_found a rest n prev Hs) as (m & t & -> & -> & -> & Hlen).
        rewrite Hlen, <- app_assoc. f_equal. by apply IH.
    + intros Ha. assert (Hne : c <> "["%char) by (intros ->; by rewrite chr_eqb_refl in Hc).
      rewrite !(link_no_bracket prev c) by done. cbn [app]. f_equal. by apply IH.
Qed.

Lemma closed_app (a b : list ascii) (k : nat) :
  links_closed_from k a = true -> links_closed b = true ->
  links_closed_from k (a ++ b) = true.
Proof.
  intros Ha Hb. revert k Ha. induction a as [|c a IH]; intros k.
  - cbn [links_closed_from app]. by intros ->%Nat.eqb_eq.
  - cbn [links_closed_from app]. destruct k as [|k]; [|apply IH].
    destruct (chr_eqb c "["); [|apply IH].
    destruct (scan_label a 0 false) as [|n|] eqn:Hs; [| |done];
      rewrite scan_label_app, Hs by (by rewrite Hs); apply IH.
Qed.

Lemma closed_no_bracket (s : list ascii) : has_char "[" s = false -> links_closed s = true.
Proof.
  unfold links_closed. induction s as [|c s IH]; [done|]. intros [Hc Hs]%has_char_cons.
  cbn [links_closed_from]. rewrite chr_eqb_neq by congruence. by apply IH.
Qed.

Lemma bracket_closed_scan (s : list ascii) (n : nat) (seen : bool) :
  bracket_closed s seen = true -> scan_label s n seen = NoLink.
Proof.
  revert n seen. induction s as [|c s IH]; intros n seen; [done|].
  cbn [scan_label bracket_closed]. destruct (chr_eqb c "]"); [|apply IH].
  destruct seen; [|done]. cbn [negb orb]. destruct s as [|d s]; [done|].
  by destruct (chr_eqb d "(").
Qed.

Lemma closed_no_link (s : list ascii) : no_link_start s = true -> links_closed s = true.
Proof.
  unfold links_closed. induction s as [|c s IH]; [done|].
  cbn [no_link_start links_closed_from]. intros [Hc Hs]%andb_true_iff.
  destruct (chr_eqb c "["); [|by apply IH].
  rewrite (bracket_closed_scan s 0 false Hc). by apply IH.
Qed.

Lemma join_text (lines : list (list ascii)) :
  lines <> [] -> join [nl] lines ++ [nl] = text_of lines.
Proof.
  unfold text_of. induction lines as [|l lines IH]; [done|]. intros _.
  destruct lines as [|l2 lines]; [by cbn; rewrite app_nil_r|].
  change (join [nl] (l :: l2 :: lines)) with (l ++ [nl] ++ join [nl] (l2 :: lines)).
  cbn [flat_map] in *. rewrite <- IH by done. by rewrite <- !app_assoc.
Qed.

Lemma text_of_app (a b : list (list ascii)) : text_of (a ++ b) = text_of a ++ text_of b.
Proof. unfold text_of. apply flat_map_app. Qed.

Lemma closed_text (lines : list (list ascii)) :
  Forall (fun l => links_closed (l ++ [nl]) = true) lines -> links_closed (text_of lines) = true.
Proof.
  unfold text_of. induction 1 as [|l lines Hl _ IH]; [done|]. cbn [flat_map].
  by apply closed_app.
Qed.

Lemma rewrite_headings_split (file_slug : list ascii) (pre post : list (list ascii))
    (line : list ascii) (counts : gmap (list ascii) nat) :
  exists counts' counts'',
    rewrite_headings file_slug counts (pre ++ line :: post)
    = rewrite_headings file_slug counts pre
      ++ (rewrite_heading_line file_slug counts' line).2
      :: rewrite_headings file_slug counts'' post.
Proof.
  revert counts. induction pre as [|l pre IH]; intros counts; cbn [app rewrite_headings].
  - exists counts. destruct (rewrite_heading_line file_slug counts line) as [c'' out].
    by exists c''.
  - destruct (rewrite_heading_line file_slug counts l) as [counts1 out].
    destruct (IH counts1) as (c' & c'' & ->). by exists c', c''.
Qed.

(** The groups of a match of the heading pattern are parts of the line. *)
Lemma atx_inv (line : list ascii) (m : rmatch) :
  re_match ATX_HEADING_RE line = Some m ->
  exists hashes ws title rest,
    line = hashes ++ ws ++ title ++ rest /\ m_caps m = [(2, title); (1, hashes)].
Proof.
  unfold re_match, match_at.
  destruct (exec ATX_HEADING_RE (MState None line []) Some) as [st|] eqn:E; [|done].
  intros [= <-]. cbn [m_caps]. unfold ATX_HEADING_RE in E.
  rewrite exec_rseq_cons in E. cbn [exec at_bol ms_prev] in E.
  rewrite exec_rseq_cons in E. cbn [exec ms_prev ms_rest ms_caps] in E.
  apply rep_some in E as (hashes & s2 & pv & -> & _ & _ & E).
  unfold set_cap, consumed in E. cbn [ms_prev ms_rest ms_caps] in E.
  rewrite take_consumed in E.
  rewrite exec_rseq_cons in E. unfold plus in E. cbn [exec ms_prev ms_rest ms_caps] in E.
  apply rep_some in E as (ws & s3 & pv2 & -> & _ & _ & E).
  rewrite exec_rseq_cons in E. unfold lazy_plus in E.
  cbn [exec ms_prev ms_rest ms_caps] in E.
  apply rep_some in E as (title & s4 & pv3 & -> & _ & _ & E).
  unfold set_cap, consumed in E. cbn [ms_prev ms_rest ms_caps] in E.
  rewrite take_consumed in E.
  unfold star in E. cbn [rseq exec ms_prev ms_rest ms_caps] in E.
  apply rep_some in E as (ws' & s5 & pv4 & -> & _ & _ & E).
  destruct (at_eol _); [|done]. injection E as <-. cbn [ms_caps].
  by exists hashes, ws, title, (ws' ++ s5).
Qed.

Lemma hid_no_bracket (file_slug title : list ascii) (counts : gmap (list ascii) nat) :
  has_char "[" file_slug = false ->
  has_char "[" (make_unique_id counts (file_slug ++ py "-" ++ slugify title)).2 = false.
Proof.
  intros Hs.
  assert (Hbase : has_char "[" (file_slug ++ py "-" ++ slugify title) = false).
  { apply has_char_app_false; [done|]. apply (has_char_app_false _ (py "-")); [done|].
    apply slug_no_bracket. by destruct (is_slug_elim _ (slugify_shape title)) as (_ & ? & _). }
  destruct (make_unique_id_shape counts (file_slug ++ py "-" ++ slugify title))
    as [->|(k & _ & ->)]; [done|].
  apply has_char_app_false; [done|]. apply (has_char_app_false _ (py "-")); [done|].
  apply slug_no_bracket. by destruct (is_slug_elim _ (str_of_nat_is_slug k)) as (_ & ? & _).
Qed.

(** The heading pass leaves the links of a calm line closed. *)
Lemma calm_line_out (file_slug line : list ascii) (counts : gmap (list ascii) nat) :
  has_char "[" file_slug = false ->
  calm line = true ->
  links_closed ((rewrite_heading_line file_slug counts line).2 ++ [nl]) = true.
Proof.
  intros Hs. unfold calm, re_test, rewrite_heading_line.
  destruct (re_match ATX_HEADING_RE line) as [m|] eqn:E; [|done].
  intros Hline%negb_true_iff. cbv zeta.
  assert (Hnone : forall t, has_char "[" t = false -> links_closed (t ++ [nl]) = true).
  { intros t Ht. apply closed_no_bracket. by apply has_char_app_false. }
  destruct (contains (group_str m 2) (py "{#")); [by apply Hnone|].
  destruct (atx_inv line m E) as (hashes & ws & title & rest & -> & Hcaps).
  unfold group_str, group. rewrite Hcaps. cbn [assoc Nat.eqb default]. unfold id.
  apply has_char_app in Hline as [Hh Hline]. apply has_char_app in Hline as [_ Hline].
  apply has_char_app in Hline as [Ht _].
  pose proof (hid_no_bracket file_slug (strip title) counts Hs) as Hid.
  destruct (make_unique_id counts _) as [counts' hid]. cbn [snd] in *.
  apply Hnone. apply has_char_app_false; [done|].
  apply (has_char_app_false _ (py " ")); [done|]. apply has_char_app_false.
  - destruct (strip_by_sub is_space title) as (a & b & Hsub). unfold strip.
    rewrite Hsub in Ht. apply has_char_app in Ht as [_ Ht]. by apply has_char_app in Ht as [Ht _].
  - apply (has_char_app_false _ (py " {#")); [done|]. by apply has_char_app_false.
Qed.

Lemma calm_lines_out (file_slug : list ascii) (lines : list (list ascii))
    (counts : gmap (list ascii) nat) :
  has_char "[" file_slug = false ->
  forallb calm lines = true ->
  links_closed (text_of (rewrite_headings file_slug counts lines)) = true.
Proof.
  intros Hs Hl. apply closed_text. revert counts.
  induction lines as [|l lines IH]; intros counts; cbn [rewrite_headings]; [done|].
  apply forallb_cons_true in Hl as [Hl Hls].
  pose proof (calm_line_out file_slug l counts Hs Hl) as Hout.
  destruct (rewrite_heading_line file_slug counts l) as [counts1 out]. cbn [snd] in Hout.
  constructor; [done|]. by apply IH.
Qed.



